(** * OffInstaller: the manifest-driven acquisition-and-placement pipeline

    A shallow embedding of [installer.py].  Python values that come out of
    [json.load] are an inductive type, [str] is [string] (one [ascii] per
    code point, so the model covers U+0000..U+00FF), exceptions are data,
    and everything that touches the file system, the network, a child
    process or the log is a state transformer over an explicit [state],
    parameterised by an environment [env] of external responses. *)

From Stdlib Require Import List String Ascii Bool Arith ZArith Lia.
Import ListNotations.

Local Open Scope string_scope.
Local Open Scope list_scope.
Set Warnings "-register-all".

(** ** Python values and exceptions *)

(** The result of [json.load].  A JSON number is kept as an integer: the
    code only ever tests a number's truth value and its type, for which an
    integer stands for a float just as well. *)
Inductive value : Type :=
| VNone
| VBool (b : bool)
| VNum (z : Z)
| VStr (s : string)
| VList (l : list value)
| VDict (d : list (string * value)).

(** The exception classes the program meets.  All of them derive from
    [Exception]; [sys.exit] is not among them, it is an outcome of its own
    (see [outcome]). *)
Inductive exn : Type :=
| AttributeError
| TypeError
| ValueError
| OSError
| FileNotFoundError
| FileExistsError
| NotADirectoryError
| IsADirectoryError
| RequestException
| HTTPError
| BadZipFile
| JSONDecodeError
| KeyError
| RecursionError
| CalledProcessError (returncode : Z).

Inductive res (A : Type) : Type :=
| Ok (a : A)
| Err (e : exn).
Arguments Ok {A} a.
Arguments Err {A} e.

(** Truth value of an object, as [if not x] tests it. *)
Definition truthy (v : value) : bool :=
  match v with
  | VNone => false
  | VBool b => b
  | VNum z => negb (Z.eqb z 0)
  | VStr s => negb (String.eqb s "")
  | VList l => match l with [] => false | _ => true end
  | VDict d => match d with [] => false | _ => true end
  end.

(** A [dict] is an association list read by its first binding of a key. *)
Fixpoint assoc {A : Type} (k : string) (d : list (string * A)) : option A :=
  match d with
  | [] => None
  | (k', v) :: d' => if String.eqb k k' then Some v else assoc k d'
  end.

(** [d.get(k)] and [d.get(k, default)] on a dict. *)
Definition dict_get (k : string) (d : list (string * value)) : value :=
  match assoc k d with Some v => v | None => VNone end.

Definition dict_get_default (k : string) (default : value)
    (d : list (string * value)) : value :=
  match assoc k d with Some v => v | None => default end.

(** [x.get(k)] on any object: only a dict has the method. *)
Definition py_get (k : string) (x : value) : res value :=
  match x with
  | VDict d => Ok (dict_get k d)
  | _ => Err AttributeError
  end.

Definition py_get_default (k : string) (default : value) (x : value)
  : res value :=
  match x with
  | VDict d => Ok (dict_get_default k default d)
  | _ => Err AttributeError
  end.

(** [a or b]: the first operand when it is true, else the second. *)
Definition py_or (a b : value) : value := if truthy a then a else b.

Definition chars_of (s : string) : list value :=
  map (fun c => VStr (String c "")) (list_ascii_of_string s).

(** The items a [for] loop over an object visits: the elements of a list,
    the one-character strings of a str, the keys of a dict. *)
Definition py_iter (x : value) : res (list value) :=
  match x with
  | VList l => Ok l
  | VStr s => Ok (chars_of s)
  | VDict d => Ok (map (fun kv => VStr (fst kv)) d)
  | _ => Err TypeError
  end.

(** ** str methods *)

Definition is_empty (s : string) : bool :=
  match s with "" => true | _ => false end.

Fixpoint lstrip_by (p : ascii -> bool) (s : string) : string :=
  match s with
  | "" => ""
  | String c s' => if p c then lstrip_by p s' else s
  end.

Fixpoint rstrip_by (p : ascii -> bool) (s : string) : string :=
  match s with
  | "" => ""
  | String c s' =>
      let r := rstrip_by p s' in
      if is_empty r && p c then "" else String c r
  end.

(** [str.isspace] on one code point below U+0100. *)
Definition isspace (c : ascii) : bool :=
  let n := nat_of_ascii c in
  (((9 <=? n) && (n <=? 13)) || ((28 <=? n) && (n <=? 32))
   || (n =? 133) || (n =? 160))%nat.

(** [s.strip()] *)
Definition strip (s : string) : string := lstrip_by isspace (rstrip_by isspace s).

Fixpoint filter_str (p : ascii -> bool) (s : string) : string :=
  match s with
  | "" => ""
  | String c s' => if p c then String c (filter_str p s') else filter_str p s'
  end.

(** [c in s] for a one-character [c]. *)
Fixpoint contains (c : ascii) (s : string) : bool :=
  match s with
  | "" => false
  | String a s' => Ascii.eqb a c || contains c s'
  end.

(** [s.split(c)[-1]]: what follows the last [c], all of [s] without one. *)
Fixpoint after_last (c : ascii) (s : string) : string :=
  match s with
  | "" => ""
  | String a s' =>
      if contains c s' then after_last c s'
      else if Ascii.eqb a c then s' else s
  end.

(** [s[:s.rfind(c)+1]]: up to and including the last [c]. *)
Fixpoint upto_last (c : ascii) (s : string) : string :=
  match s with
  | "" => ""
  | String a s' =>
      if contains c s' then String a (upto_last c s')
      else if Ascii.eqb a c then String a "" else ""
  end.

(** [str.lower] on one code point below U+0100. *)
Definition lower_char (c : ascii) : ascii :=
  let n := nat_of_ascii c in
  if (((65 <=? n) && (n <=? 90))
      || ((192 <=? n) && (n <=? 222) && negb (n =? 215)))%nat
  then ascii_of_nat (n + 32) else c.

Fixpoint lower (s : string) : string :=
  match s with
  | "" => ""
  | String c s' => String (lower_char c) (lower s')
  end.

Fixpoint split_on (c : ascii) (s : string) : list string :=
  match s with
  | "" => [""]
  | String a s' =>
      if Ascii.eqb a c then "" :: split_on c s'
      else match split_on c s' with
           | [] => [String a ""]
           | h :: t => String a h :: t
           end
  end.

Definition startswith (p s : string) : bool := String.prefix p s.

Fixpoint endswith_char (c : ascii) (s : string) : bool :=
  match s with
  | "" => false
  | String a "" => Ascii.eqb a c
  | String _ s' => endswith_char c s'
  end.

(** ** posixpath *)

Module PosixPath.

Definition sep : ascii := "/"%char.

(** [os.path.join(a, b)] *)
Definition join (a b : string) : string :=
  if startswith "/" b then b
  else if is_empty a || endswith_char sep a then a ++ b
  else a ++ "/" ++ b.

(** [os.path.basename(p)] *)
Definition basename (p : string) : string := after_last sep p.

Definition all_sep (s : string) : bool :=
  is_empty (filter_str (fun c => negb (Ascii.eqb c sep)) s).

(** [os.path.dirname(p)] *)
Definition dirname (p : string) : string :=
  let head := upto_last sep p in
  if negb (is_empty head) && negb (all_sep head)
  then rstrip_by (fun c => Ascii.eqb c sep) head
  else head.

(** One turn of the loop of [normpath]; the stack holds [new_comps]
    last component first. *)
Definition norm_step (rooted : bool) (stack : list string) (comp : string)
  : list string :=
  if is_empty comp || String.eqb comp "." then stack
  else if negb (String.eqb comp "..") then comp :: stack
  else match stack with
       | [] => if rooted then [] else [comp]
       | top :: below => if String.eqb top ".." then comp :: stack else below
       end.

(** [os.path.normpath(path)] *)
Definition normpath (path : string) : string :=
  if is_empty path then "."
  else
    let initial :=
      if startswith "/" path
      then if startswith "//" path && negb (startswith "///" path)
           then "//" else "/"
      else "" in
    let comps :=
      rev (fold_left (norm_step (negb (is_empty initial)))
                     (split_on sep path) []) in
    let p := (initial ++ String.concat "/" comps)%string in
    if is_empty p then "." else p.

(** [os.path.abspath(p)] with the working directory [cwd]. *)
Definition abspath (cwd p : string) : string := normpath (join cwd p).

(** The components of the absolute form of [p]. *)
Definition components (cwd p : string) : list string :=
  filter (fun c => negb (is_empty c)) (split_on sep (abspath cwd p)).

Fixpoint common_len (a b : list string) : nat :=
  match a, b with
  | x :: a', y :: b' => if String.eqb x y then S (common_len a' b') else 0
  | _, _ => 0
  end.

(** [os.path.relpath(path, start)] *)
Definition relpath (cwd path start : string) : res string :=
  if is_empty path then Err ValueError
  else
    let start_list := components cwd start in
    let path_list := components cwd path in
    let i := common_len start_list path_list in
    let rel_list :=
      repeat ".." (List.length start_list - i) ++ skipn i path_list in
    match rel_list with
    | [] => Ok "."
    | _ => Ok (String.concat "/" rel_list)
    end.

Fixpoint is_prefix (a b : list string) : bool :=
  match a, b with
  | [], _ => true
  | x :: a', y :: b' => String.eqb x y && is_prefix a' b'
  | _ :: _, [] => false
  end.

(** [p] resolves to [root] or to a path below it. *)
Definition inside (cwd root p : string) : bool :=
  is_prefix (components cwd root) (components cwd p).

End PosixPath.

(** ** Names and messages *)

(** The nine characters [sanitize_name] drops: less-than, greater-than,
    colon, double quote (code 34), slash, backslash, bar, question mark and
    asterisk. *)
Definition forbidden_chars : list ascii :=
  ["<"; ">"; ":"; ascii_of_nat 34; "/"; "\"; "|"; "?"; "*"]%char.

Definition forbidden (c : ascii) : bool :=
  existsb (Ascii.eqb c) forbidden_chars.

Definition sanitize_name (name : string) : string :=
  strip (filter_str (fun c => negb (forbidden c)) name).

Definition pluralize (count : Z) (singular : string) (plural : option string)
  : string :=
  if Z.eqb count 1 then singular
  else match plural with Some p => p | None => (singular ++ "s")%string end.

(** An f-string, kept as its parts: literal and interpolated text, integers,
    and the two renderings the model leaves symbolic, a byte count shown by
    [fmt_size] and the elapsed wall time. *)
Inductive frag : Type :=
| T (s : string)
| I (n : Z)
| V (v : value)
| Size (bytes : Z)
| Elapsed
| Exc (e : exn).

Definition message : Type := list frag.

Definition format_received_message (success total : Z) (item_name : string)
  : list message :=
  let msgs :=
    [[T "Received "; I success; T "/"; I total; T " ";
      T (pluralize total item_name None)]] in
  let failed := (total - success)%Z in
  if (0 <? failed)%Z
  then msgs ++ [[T "Failed to receive "; I failed; T " ";
                 T (pluralize failed item_name None)]]
  else msgs.

Definition format_copied_message (success total : Z) (item_name : string)
  : list message :=
  let msgs :=
    [[T "Copied "; I success; T "/"; I total; T " ";
      T (pluralize total item_name None)]] in
  let failed := (total - success)%Z in
  if (0 <? failed)%Z
  then msgs ++ [[T "Failed to copy "; I failed; T " ";
                 T (pluralize failed item_name None)]]
  else msgs.

(** [version_number] comes from [sel.get("version_number", "unknown")], so it
    is whatever JSON the registry sent: an object that is true and not a str
    fails at [in] or at [.strip]. *)
Definition format_modpack_version (version_number : value) : res string :=
  if negb (truthy version_number) then Ok "unknown"
  else match version_number with
       | VStr s =>
           if contains "+" s then Ok (strip (after_last "+" s))
           else Ok (strip s)
       | VList _ | VDict _ => Err AttributeError
       | _ => Err TypeError
       end.

(** [(version_type or "").lower()] *)
Definition lowered_type (version_type : value) : res string :=
  match py_or version_type (VStr "") with
  | VStr s => Ok (lower s)
  | _ => Err AttributeError
  end.

Definition build_display_name (version_number : value) (game_versions : string)
    (version_type : value) : res string :=
  match format_modpack_version version_number with
  | Err e => Err e
  | Ok modver =>
      match lowered_type version_type with
      | Err e => Err e
      | Ok vt =>
          let tag :=
            if String.eqb vt "beta" then " [Beta]"
            else if String.eqb vt "alpha" then " [Alpha]"
            else "" in
          let name :=
            ("OptiFine for Fabric " ++ modver ++ " [Minecraft "
               ++ game_versions ++ "]")%string in
          let name :=
            if negb (is_empty tag) then (name ++ tag)%string else name in
          Ok (sanitize_name name)
      end
  end.

(** ** The manifest's file list *)

(** What a generator has done when its consumer is through with it: the
    items it yielded, in order, and the exception that ended it, if one did.
    [iter_manifest_files] reads nothing but its arguments, so the items do
    not depend on what the consumer does between two of them. *)
Record generated (A : Type) : Type := Generated {
  yielded : list A;
  raised : option exn
}.
Arguments Generated {A} yielded raised.
Arguments yielded {A} g.
Arguments raised {A} g.

(** Lines 138-143: the URL of one file descriptor, [None] or another false
    object when it has none. *)
Definition descriptor_url (f : list (string * value)) : value :=
  let url :=
    match dict_get "downloads" f with
    | VList (dl :: _) =>
        match dl with
        | VDict d => dict_get "url" d
        | _ => dl
        end
    | _ => VNone
    end in
  if negb (truthy url) then dict_get "url" f else url.

(** [os.path.basename(url)]: [os.fspath] refuses what is not a str. *)
Definition basename_of (url : value) : res value :=
  match url with
  | VStr s => Ok (VStr (PosixPath.basename s))
  | _ => Err TypeError
  end.

(** [rel.lstrip("/\\")] *)
Definition lstrip_seps (rel : value) : res string :=
  match rel with
  | VStr s =>
      Ok (lstrip_by (fun c => Ascii.eqb c "/" || Ascii.eqb c "\") s)
  | _ => Err AttributeError
  end.

(** The outcome of one turn of the loop of [iter_manifest_files]. *)
Inductive turn : Type :=
| Skip
| Yield (url : value) (target : string)
| Fail (e : exn).

Definition manifest_file (base_dest : string) (f : value) : turn :=
  match f with
  | VDict d =>
      let url := descriptor_url d in
      if negb (truthy url) then Skip
      else
        let rel0 := py_or (dict_get "path" d) (dict_get "filename" d) in
        let rel1 :=
          if truthy rel0 then Ok rel0 else basename_of url in
        match rel1 with
        | Err e => Fail e
        | Ok rel =>
            match lstrip_seps rel with
            | Err e => Fail e
            | Ok rel => Yield url (PosixPath.join base_dest rel)
            end
        end
  | _ => Fail AttributeError
  end.

Fixpoint manifest_files (base_dest : string) (fs : list value)
  : generated (value * string) :=
  match fs with
  | [] => Generated [] None
  | f :: rest =>
      match manifest_file base_dest f with
      | Skip => manifest_files base_dest rest
      | Yield url target =>
          let g := manifest_files base_dest rest in
          Generated ((url, target) :: yielded g) (raised g)
      | Fail e => Generated [] (Some e)
      end
  end.

Definition iter_manifest_files (manifest : value) (base_dest : string)
  : generated (value * string) :=
  match py_get_default "files" (VList []) manifest with
  | Err e => Generated [] (Some e)
  | Ok files =>
      match py_iter files with
      | Err e => Generated [] (Some e)
      | Ok fs => manifest_files base_dest fs
      end
  end.

(** ** The file system

    A tree of directories and regular files.  A directory lists its entries
    in the order [os.listdir] reports them and is read by the first entry of
    a name; a file holds its bytes.  There are no symbolic links.  A path is
    resolved the way the kernel resolves it, one component after the other
    from the root ([fs_walk]): a path through a directory that does not
    exist leads nowhere, also when the [..] after it would lead back. *)

Inductive node : Type :=
| File (data : string)
| Dir (entries : list (string * node)).

Fixpoint set_entry (c : string) (m : node) (es : list (string * node))
  : list (string * node) :=
  match es with
  | [] => [(c, m)]
  | (k, v) :: es' =>
      if String.eqb c k then (c, m) :: es' else (k, v) :: set_entry c m es'
  end.

Fixpoint del_entry (c : string) (es : list (string * node))
  : list (string * node) :=
  match es with
  | [] => []
  | (k, v) :: es' =>
      if String.eqb c k then del_entry c es' else (k, v) :: del_entry c es'
  end.

Definition put_entry (c : string) (o : option node) (es : list (string * node))
  : list (string * node) :=
  match o with
  | Some m => set_entry c m es
  | None => del_entry c es
  end.

Fixpoint fs_lookup (cs : list string) (n : node) : option node :=
  match cs with
  | [] => Some n
  | c :: cs' =>
      match n with
      | Dir es =>
          match assoc c es with
          | Some m => fs_lookup cs' m
          | None => None
          end
      | File _ => None
      end
  end.

(** Change what the last component of a path names, below directories that
    exist: [f] sees the node there, if any, and answers the node to leave
    ([None] to unlink it) or the error of the system call. *)
Fixpoint fs_alter (cs : list string) (f : option node -> res (option node))
    (n : node) : res node :=
  match cs with
  | [] => Err IsADirectoryError
  | c :: cs' =>
      match n with
      | File _ => Err NotADirectoryError
      | Dir es =>
          match cs' with
          | [] =>
              match f (assoc c es) with
              | Ok o => Ok (Dir (put_entry c o es))
              | Err e => Err e
              end
          | _ :: _ =>
              match assoc c es with
              | None => Err FileNotFoundError
              | Some m =>
                  match fs_alter cs' f m with
                  | Ok m' => Ok (Dir (set_entry c m' es))
                  | Err e => Err e
                  end
              end
          end
      end
  end.

(** What a canonical path (names only, from the root) leads to. *)
Definition fs_isdir (q : list string) (root : node) : bool :=
  match fs_lookup q root with Some (Dir _) => true | _ => false end.

Definition fs_exists (q : list string) (root : node) : bool :=
  match fs_lookup q root with Some _ => true | None => false end.

Definition is_dot (c : string) : bool := is_empty c || String.eqb c ".".
Definition is_dotdot (c : string) : bool := String.eqb c "..".

(** Path resolution.  [cs] is what is left of the path, cut at its
    separators, and [here] the canonical path of the node reached so far.
    Every step needs that node to be a directory; an empty component and
    [.] stay there, [..] goes to the parent (the root is its own), a name
    needs an entry.  The answer is the canonical path of a node that
    exists. *)
Fixpoint fs_walk (root : node) (here : list string) (cs : list string)
  : res (list string) :=
  match cs with
  | [] => Ok here
  | c :: cs' =>
      if negb (fs_isdir here root) then
        Err (if fs_exists here root then NotADirectoryError
             else FileNotFoundError)
      else if is_dot c then fs_walk root here cs'
      else if is_dotdot c then fs_walk root (removelast here) cs'
      else if fs_exists (here ++ [c]) root then fs_walk root (here ++ [c]) cs'
      else Err FileNotFoundError
  end.

(** A path without the separators it ends with. *)
Fixpoint drop_trailing_empty (cs : list string) : list string :=
  match cs with
  | [] => []
  | c :: rest =>
      match drop_trailing_empty rest with
      | [] => if is_empty c then [] else [c]
      | r => c :: r
      end
  end.

Definition last_step (cs : list string) : string :=
  last (drop_trailing_empty cs) "".

Definition trailing_slash (cs : list string) : bool :=
  negb (Nat.eqb (List.length (drop_trailing_empty cs)) (List.length cs)).

(** The path ends in a name: not in [.] or [..], and it is not the root. *)
Definition names_entry (cs : list string) : bool :=
  negb (is_dot (last_step cs) || is_dotdot (last_step cs)).

(** The directory in which the last component is looked up. *)
Definition fs_parent (cs : list string) (root : node) : res (list string) :=
  match fs_walk root [] (removelast (drop_trailing_empty cs)) with
  | Err e => Err e
  | Ok par => if fs_isdir par root then Ok par else Err NotADirectoryError
  end.

(** What the system calls do to the entry a path names. *)
Definition unlink_dir (o : option node) : res (option node) :=
  match o with
  | Some (Dir _) => Ok None
  | Some (File _) => Err NotADirectoryError
  | None => Err FileNotFoundError
  end.

Definition unlink_file (o : option node) : res (option node) :=
  match o with
  | Some (File _) => Ok None
  | Some (Dir _) => Err IsADirectoryError
  | None => Err FileNotFoundError
  end.

Definition put_file (data : string) (o : option node) : res (option node) :=
  match o with
  | Some (Dir _) => Err IsADirectoryError
  | _ => Ok (Some (File data))
  end.

Definition make_dir (o : option node) : res (option node) :=
  match o with
  | None => Ok (Some (Dir []))
  | Some _ => Err FileExistsError
  end.

Definition merge (members : list (string * node)) (o : option node)
  : res (option node) :=
  match o with
  | Some (Dir old) => Ok (Some (Dir (members ++ old)))
  | Some (File _) => Err NotADirectoryError
  | None => Ok (Some (Dir members))
  end.

(** [open(path, "wb")], that is [O_WRONLY|O_CREAT|O_TRUNC], with [data]
    as the bytes the file holds afterwards.  A path that ends in a
    separator, in [.] or in [..] is refused as a directory once its parent
    is found. *)
Definition fs_create (cs : list string) (data : string) (root : node)
  : res node :=
  match fs_parent cs root with
  | Err e => Err e
  | Ok par =>
      if trailing_slash cs || negb (names_entry cs) then Err IsADirectoryError
      else fs_alter (par ++ [last_step cs]) (put_file data) root
  end.

(** [os.mkdir(path)]: separators at the end are ignored; a path that ends
    in [.] or [..] names a directory that exists, if it names anything. *)
Definition fs_mkdir (cs : list string) (root : node) : res node :=
  if names_entry cs then
    match fs_parent cs root with
    | Err e => Err e
    | Ok par => fs_alter (par ++ [last_step cs]) make_dir root
    end
  else
    match fs_walk root [] cs with
    | Err e => Err e
    | Ok _ => Err FileExistsError
    end.

(** [os.remove(path)] *)
Definition fs_remove (cs : list string) (root : node) : res node :=
  match fs_walk root [] cs with
  | Err e => Err e
  | Ok q => fs_alter q unlink_file root
  end.

(** [shutil.rmtree(path)] where nothing keeps it from removing an entry: a
    directory named by a path that ends in a name goes with all it holds;
    one named through [.] or [..], and the root, is emptied and stays,
    since it cannot be removed under that name. *)
Definition fs_rmtree (cs : list string) (root : node) : res node :=
  match fs_walk root [] cs with
  | Err e => Err e
  | Ok q =>
      if negb (fs_isdir q root) then Err NotADirectoryError
      else if names_entry cs then fs_alter q unlink_dir root
      else match q with
           | [] => Ok (Dir [])
           | _ :: _ => fs_alter q (fun _ => Ok (Some (Dir []))) root
           end
  end.

(** [z.extractall(td)]: the members go into the directory [td], which is
    made if its parent has no such entry. *)
Definition fs_extract (cs : list string) (members : list (string * node))
    (root : node) : res node :=
  if names_entry cs then
    match fs_parent cs root with
    | Err e => Err e
    | Ok par => fs_alter (par ++ [last_step cs]) (merge members) root
    end
  else
    match fs_walk root [] cs with
    | Err e => Err e
    | Ok [] =>
        match root with
        | Dir old => Ok (Dir (members ++ old))
        | File _ => Err NotADirectoryError
        end
    | Ok q => fs_alter q (merge members) root
    end.

(** The regular files below a directory, each by its components relative
    to it, in the order [os.walk] meets them: a directory's own files, then
    its subdirectories one after the other. *)
Fixpoint walk_files (n : node) : list (list string) :=
  match n with
  | File _ => []
  | Dir es =>
      flat_map (fun e : string * node =>
                  let (k, m) := e in
                  match m with File _ => [[k]] | Dir _ => [] end) es
      ++ flat_map (fun e : string * node =>
                     let (k, m) := e in
                     match m with
                     | File _ => []
                     | Dir _ => map (cons k) (walk_files m)
                     end) es
  end.

Fixpoint find_file (name : string) (es : list (string * node))
  : option string :=
  match es with
  | [] => None
  | (k, File d) :: es' => if String.eqb k name then Some d else find_file name es'
  | (_, Dir _) :: es' => find_file name es'
  end.

(** The bytes of the first file called [name] that [os.walk] meets. *)
Fixpoint walk_find (name : string) (n : node) : option string :=
  match n with
  | File _ => None
  | Dir es =>
      match find_file name es with
      | Some d => Some d
      | None =>
          (fix go (l : list (string * node)) : option string :=
             match l with
             | [] => None
             | (_, m) :: l' =>
                 match walk_find name m with
                 | Some d => Some d
                 | None => go l'
                 end
             end) es
      end
  end.

(** ** The environment and the state of a run *)

(** The answer to [requests.get(url, stream=True)]: the call raises, or a
    response arrives with a status code and a body that [iter_content]
    hands out in chunks, up to its end or up to a broken connection. *)
Inductive response : Type :=
| Refused
| Status (code : Z) (chunks : list string) (complete : bool).

(** The system calls whose failure the environment can decide (permissions,
    a full disk, a file in use), on top of the failures the tree itself
    causes. *)
Inductive op : Type :=
| OpMkdir (path : string)
| OpOpen (path : string)
| OpWrite (path : string) (offset : nat)
| OpCopy (src dst : string)
| OpExtract (path : string)
| OpRemove (path : string)
| OpRmtree (path : string).

(** [subprocess.check_call]: the child ran and exited, or could not start. *)
Inductive child_result : Type :=
| Exited (code : Z)
| NotStarted (e : exn).

(** What the program's surroundings answer.  [faulty] fails a system call;
    [landed] gives the number of bytes of a failing write that reach the
    disk all the same; [stamp] is the time in the name of the session log
    and [log_line] the line an entry of the log gets in it, time stamp and
    rendered numbers included. *)
Record env : Type := {
  cwd : string;
  tempdir : string;
  home : string;
  RICH_AVAILABLE : bool;
  http_head : value -> option Z;
  http_get : value -> response;
  faulty : op -> bool;
  landed : string -> nat -> nat;
  mkdtemp_name : string;
  unzip : string -> option (list (string * node));
  json_loads : string -> option value;
  run_child : list string -> node -> child_result * node;
  pick_version : list value -> value;
  choose : message -> list string -> option string;
  stamp : string;
  log_line : string * message -> string
}.

(** What a run changes: the global [LOG] (time stamps left out), the disk,
    and two records of what went out, HTTP requests and child processes,
    oldest first. *)
Record state : Type := {
  LOG : list (string * message);
  disk : node;
  requests : list (string * value);
  spawned : list (list string)
}.

Definition set_LOG (l : list (string * message)) (s : state) : state :=
  {| LOG := l; disk := disk s; requests := requests s; spawned := spawned s |}.
Definition set_disk (d : node) (s : state) : state :=
  {| LOG := LOG s; disk := d; requests := requests s; spawned := spawned s |}.
Definition add_request (r : string * value) (s : state) : state :=
  {| LOG := LOG s; disk := disk s; requests := requests s ++ [r];
     spawned := spawned s |}.
Definition add_spawned (cmd : list string) (s : state) : state :=
  {| LOG := LOG s; disk := disk s; requests := requests s;
     spawned := spawned s ++ [cmd] |}.

(** How a call ends: it returns, it raises, or [sys.exit] ends the process
    ([except Exception] does not catch the latter). *)
Inductive outcome (A : Type) : Type :=
| Ret (a : A)
| Raise (e : exn)
| Exit (code : Z).
Arguments Ret {A} a.
Arguments Raise {A} e.
Arguments Exit {A} code.

Definition M (A : Type) : Type := state -> outcome A * state.

Definition ret {A} (a : A) : M A := fun s => (Ret a, s).
Definition raise {A} (e : exn) : M A := fun s => (Raise e, s).
Definition sys_exit {A} (code : Z) : M A := fun s => (Exit code, s).

Definition bind {A B} (m : M A) (k : A -> M B) : M B :=
  fun s =>
    match m s with
    | (Ret a, s') => k a s'
    | (Raise e, s') => (Raise e, s')
    | (Exit c, s') => (Exit c, s')
    end.

(** [try: m  except Exception as e: h e] *)
Definition try_except {A} (m : M A) (h : exn -> M A) : M A :=
  fun s =>
    match m s with
    | (Raise e, s') => h e s'
    | r => r
    end.

Definition lift {A} (r : res A) : M A :=
  match r with
  | Ok a => ret a
  | Err e => raise e
  end.

Declare Scope monad_scope.
Delimit Scope monad_scope with monad.
Notation "x <- c1 ;; c2" := (bind c1 (fun x => c2))
  (at level 61, c1 at next level, right associativity) : monad_scope.
Notation "' pat <- c1 ;; c2" :=
  (bind c1 (fun x => match x with pat => c2 end))
  (at level 61, pat pattern, c1 at next level, right associativity)
  : monad_scope.
Notation "c1 ;; c2" := (bind c1 (fun _ => c2))
  (at level 61, right associativity) : monad_scope.
Local Open Scope monad_scope.

Definition log (level : string) (m : message) : M unit :=
  fun s => (Ret tt, set_LOG (LOG s ++ [(level, m)]) s).

Fixpoint log_all (level : string) (ms : list message) : M unit :=
  match ms with
  | [] => ret tt
  | m :: rest => log level m ;; log_all level rest
  end.

Definition is_OSError (e : exn) : bool :=
  match e with
  | OSError | FileNotFoundError | FileExistsError
  | NotADirectoryError | IsADirectoryError => true
  | _ => false
  end.

Fixpoint list_eqb (a b : list string) : bool :=
  match a, b with
  | [], [] => true
  | x :: a', y :: b' => String.eqb x y && list_eqb a' b'
  | _, _ => false
  end.

Definition endswith (suffix s : string) : bool :=
  (String.length suffix <=? String.length s)%nat
  && String.eqb
       (substring (String.length s - String.length suffix)
                  (String.length suffix) s)
       suffix.

Definition newline : string := String (ascii_of_nat 10) "".

Definition UA : string := "OffInstaller/1.0".
Definition FABRIC_INSTALLER_VERSION : string := "0.11.2".
Definition FABRIC_INSTALLER_URL : string :=
  ("https://maven.fabricmc.net/net/fabricmc/fabric-installer/"
     ++ FABRIC_INSTALLER_VERSION ++ "/" ++ "fabric-installer-"
     ++ FABRIC_INSTALLER_VERSION ++ ".jar")%string.
Definition MANIFEST_NAME : string := "modrinth.index.json".

Section Installer.

Variable E : env.

(** *** System calls *)

(** The components of [p] from the root, as the kernel walks them. *)
Definition steps (p : string) : list string :=
  split_on "/" (if startswith "/" p then p else (cwd E ++ "/" ++ p)%string).

(** The node [p] leads to on a disk. *)
Definition resolve (p : string) (root : node) : option node :=
  if is_empty p then None
  else match fs_walk root [] (steps p) with
       | Ok q => fs_lookup q root
       | Err _ => None
       end.

Definition lookup (p : string) (s : state) : option node :=
  resolve p (disk s).

(** [os.path.exists] and [os.path.isdir] *)
Definition path_exists (p : string) (s : state) : bool :=
  match lookup p s with Some _ => true | None => false end.

Definition path_isdir (p : string) (s : state) : bool :=
  match lookup p s with Some (Dir _) => true | _ => false end.

Definition os_path_exists (p : string) : M bool :=
  fun s => (Ret (path_exists p s), s).

(** A system call [o] that rewrites the disk by [f]. *)
Definition syscall (o : op) (path : string) (f : node -> res node) : M unit :=
  fun s =>
    if is_empty path then (Raise FileNotFoundError, s)
    else if faulty E o then (Raise OSError, s)
    else match f (disk s) with
         | Ok d => (Ret tt, set_disk d s)
         | Err e => (Raise e, s)
         end.

(** [os.mkdir(name)] *)
Definition mkdir (name : string) (root : node) : res node :=
  if is_empty name then Err FileNotFoundError
  else if faulty E (OpMkdir name) then Err OSError
  else fs_mkdir (steps name) root.

Definition isdir_in (p : string) (root : node) : bool :=
  match resolve p root with Some (Dir _) => true | _ => false end.

Definition exists_in (p : string) (root : node) : bool :=
  match resolve p root with Some _ => true | None => false end.

(** [os.makedirs(name, exist_ok=True)] as the library has it: the parent
    is made first when it does not exist, a [FileExistsError] from there is
    passed over, a name that ends in [.] is then taken to be in place, and
    the [mkdir] of the leaf may fail as long as the leaf is a directory.
    The disk comes back with what was made, also when the call raises.
    Every call is on a shorter text, so the length of [name] bounds the
    depth ([makedirs_depth]). *)
Fixpoint makedirs (fuel : nat) (name : string) (root : node)
  : node * option exn :=
  match fuel with
  | O => (root, Some RecursionError)
  | S fuel' =>
      let head0 := PosixPath.dirname name in
      let tail0 := PosixPath.basename name in
      let head := if is_empty tail0 then PosixPath.dirname head0 else head0 in
      let tail := if is_empty tail0 then PosixPath.basename head0 else tail0 in
      let leaf (r : node) : node * option exn :=
        match mkdir name r with
        | Ok r' => (r', None)
        | Err e => if isdir_in name r then (r, None) else (r, Some e)
        end in
      if negb (is_empty head) && negb (is_empty tail)
         && negb (exists_in head root)
      then
        let (r, e) := makedirs fuel' head root in
        match e with
        | None | Some FileExistsError =>
            if String.eqb tail "." then (r, None) else leaf r
        | Some e' => (r, Some e')
        end
      else leaf root
  end.

(** [ensure_dir(path)], that is [os.makedirs(path, exist_ok=True)] *)
Definition ensure_dir (path : string) : M unit :=
  fun s =>
    match makedirs (S (String.length path)) path (disk s) with
    | (d, None) => (Ret tt, set_disk d s)
    | (d, Some e) => (Raise e, set_disk d s)
    end.

(** [open(t, "wb")]: the file is created or emptied. *)
Definition open_wb (t : string) : M unit :=
  syscall (OpOpen t) t (fs_create (steps t) "").

(** The file at [t] gets the bytes [data]. *)
Definition put (t : string) (data : string) : M unit :=
  fun s =>
    match fs_create (steps t) data (disk s) with
    | Ok d => (Ret tt, set_disk d s)
    | Err e => (Raise e, s)
    end.

(** [f.write(chunk)] on the file opened at [t], seen from the disk.  The
    file object buffers, so the bytes of a chunk may go out with a later
    call or with the [close] at the end of the [with]; what the disk shows
    once the transfer is over is the same as if every chunk went out at
    once, which is how it is written here.  A write the environment fails
    at the offset it has reached leaves the first [landed] bytes of the
    chunk in the file. *)
Definition write (t : string) (chunk : string) : M unit :=
  fun s =>
    match lookup t s with
    | Some (File d) =>
        let offset := String.length d in
        if faulty E (OpWrite t offset) then
          (put t (d ++ substring 0 (landed E t offset) chunk) ;;
           raise OSError) s
        else put t (d ++ chunk) s
    | _ => (Raise OSError, s)
    end.

(** [shutil.rmtree(path, ignore_errors=True)] *)
Definition rmtree_ignore_errors (path : string) : M unit :=
  try_except
    (syscall (OpRmtree path) path (fs_rmtree (steps path)))
    (fun _ => ret tt).

(** [os.remove(path)] *)
Definition os_remove (path : string) : M unit :=
  syscall (OpRemove path) path (fs_remove (steps path)).

(** [os.path.samefile(a, b)] as [shutil] asks it: false when one of the two
    is not there. *)
Definition same_file (a b : string) (root : node) : bool :=
  if is_empty a || is_empty b then false
  else match fs_walk root [] (steps a), fs_walk root [] (steps b) with
       | Ok qa, Ok qb => list_eqb qa qb
       | _, _ => false
       end.

(** [shutil.copy2(src, dst)]; the metadata it carries over is not kept in
    the tree. *)
Definition copy2 (src dst : string) : M unit :=
  fun s =>
    match lookup src s with
    | Some (File d) =>
        let dst :=
          if path_isdir dst s
          then PosixPath.join dst (PosixPath.basename src) else dst in
        if same_file src dst (disk s) then (Raise OSError, s)
        else syscall (OpCopy src dst) dst (fs_create (steps dst) d) s
    | Some (Dir _) => (Raise IsADirectoryError, s)
    | None => (Raise FileNotFoundError, s)
    end.

(** [tempfile.mkdtemp()]: the environment names the new directory. *)
Definition mkdtemp : M string :=
  let td := PosixPath.join (tempdir E) (mkdtemp_name E) in
  syscall (OpMkdir td) td (fs_mkdir (steps td)) ;;
  ret td.

(** [with zipfile.ZipFile(pkg) as z: z.extractall(td)] *)
Definition extractall (pkg td : string) : M unit :=
  fun s =>
    match lookup pkg s with
    | Some (File d) =>
        match unzip E d with
        | None => (Raise BadZipFile, s)
        | Some members =>
            syscall (OpExtract td) td (fs_extract (steps td) members) s
        end
    | Some (Dir _) => (Raise IsADirectoryError, s)
    | None => (Raise FileNotFoundError, s)
    end.

(** *** The final summary *)

Definition LOG_DIR : string := PosixPath.join (home E) "offinstaller-logs".

Definition log_file : string :=
  PosixPath.join LOG_DIR ("OFFinstaller-[" ++ stamp E ++ "].txt").

(** The loop that writes the session log, one line per entry. *)
Fixpoint write_lines (t : string) (lines : list string) : M unit :=
  match lines with
  | [] => ret tt
  | l :: rest => write t l ;; write_lines t rest
  end.

(** [final_summary_and_save()]: the directory of the session logs is made,
    the log is written to a new file there and the process ends with
    status 0; a failure on the way is an exception nobody catches.  What it
    prints to the terminal is left out, the terminal being no part of the
    state. *)
Definition final_summary_and_save {A} : M A :=
  ensure_dir LOG_DIR ;;
  open_wb log_file ;;
  (fun s => write_lines log_file (map (log_line E) (LOG s)) s) ;;
  sys_exit 0.

(** [requests.head] and the parse of its [content-length], as the probe
    loops use them: any failure makes the size 0. *)
Definition head_size (u : value) : M Z :=
  fun s =>
    (Ret (match http_head E u with Some n => n | None => 0%Z end),
     add_request ("HEAD", u) s).

(** [requests.get(u, stream=True, ...)] *)
Definition requests_get (u : value) : M response :=
  fun s =>
    match http_get E u with
    | Refused => (Raise RequestException, add_request ("GET", u) s)
    | r => (Ret r, add_request ("GET", u) s)
    end.

Definition raise_for_status (code : Z) : M unit :=
  if ((400 <=? code) && (code <? 600))%Z then raise HTTPError else ret tt.

(** [subprocess.check_call(cmd)]: an argument that is not a str is refused
    before anything starts; a non-zero exit is [CalledProcessError]. *)
Fixpoint str_args (cmd : list value) : option (list string) :=
  match cmd with
  | [] => Some []
  | VStr a :: rest =>
      match str_args rest with
      | Some l => Some (a :: l)
      | None => None
      end
  | _ :: _ => None
  end.

Definition check_call (cmd : list value) : M unit :=
  fun s =>
    match str_args cmd with
    | None => (Raise TypeError, s)
    | Some args =>
        match run_child E args (disk s) with
        | (Exited c, d) =>
            if Z.eqb c 0 then (Ret tt, add_spawned args (set_disk d s))
            else (Raise (CalledProcessError c), add_spawned args (set_disk d s))
        | (NotStarted e, _) => (Raise e, s)
        end
    end.

(** *** Download helpers *)

Fixpoint probe_sizes (urls : list value) : M (list Z) :=
  match urls with
  | [] => ret []
  | u :: rest =>
      s <- head_size u ;;
      sizes <- probe_sizes rest ;;
      ret (s :: sizes)
  end.

Definition sum_sizes (sizes : list Z) : Z := fold_right Z.add 0%Z sizes.

(** [zip(urls, targets, sizes)] *)
Definition zip3 (urls : list value) (targets : list string) (sizes : list Z)
  : list (value * string * Z) :=
  combine (combine urls targets) sizes.

(** The loop over [r.iter_content]: empty chunks are passed over. *)
Fixpoint write_chunks (t : string) (chunks : list string) : M unit :=
  match chunks with
  | [] => ret tt
  | chunk :: rest =>
      (if is_empty chunk then ret tt else write t chunk) ;;
      write_chunks t rest
  end.

(** The body of the [try] of a transfer: request, status check, open,
    streamed writes. *)
Definition fetch (u : value) (t : string) : M unit :=
  r <- requests_get u ;;
  match r with
  | Refused => raise RequestException
  | Status code chunks complete =>
      raise_for_status code ;;
      open_wb t ;;
      write_chunks t chunks ;;
      if complete then ret tt else raise RequestException
  end.

(** The transfer loop.  The source has it three times, in
    [download_with_cumulative_fallback] and in both branches of
    [download_with_rich]; the copies differ in progress rendering only. *)
Fixpoint transfer_loop (items : list (value * string * Z)) (success failed : Z)
  : M (Z * Z) :=
  match items with
  | [] => ret (success, failed)
  | (u, t, _) :: rest =>
      ensure_dir (PosixPath.dirname t) ;;
      ok <- try_except (fetch u t ;; ret true) (fun _ => ret false) ;;
      if ok : bool then transfer_loop rest (success + 1)%Z failed
      else transfer_loop rest success (failed + 1)%Z
  end.

Definition ok_or_warn (failed : Z) : string :=
  if Z.eqb failed 0 then "OK" else "WARN".

Definition download_with_cumulative_fallback (urls : list value)
    (targets : list string) : M unit :=
  sizes <- probe_sizes urls ;;
  let total := sum_sizes sizes in
  ' (success, failed) <- transfer_loop (zip3 urls targets sizes) 0%Z 0%Z ;;
  log_all (ok_or_warn failed)
    (format_received_message success (success + failed)%Z "file") ;;
  log "COMMENT"
    [T "Total download size approx "; Size total; T "; elapsed "; Elapsed;
     T "s"].

Definition len {A} (l : list A) : Z := Z.of_nat (List.length l).

Definition download_with_rich (urls : list value) (targets : list string)
    (description : message) : M unit :=
  if negb (RICH_AVAILABLE E)
  then download_with_cumulative_fallback urls targets
  else
    sizes <- probe_sizes urls ;;
    let total_bytes := sum_sizes sizes in
    log "COMMENT"
      ([T "Starting "] ++ description
         ++ [T ": "; I (len urls); T " "; T (pluralize (len urls) "file" None);
             T ", approx "; Size total_bytes]) ;;
    ' (success, failed) <- transfer_loop (zip3 urls targets sizes) 0%Z 0%Z ;;
    log_all (ok_or_warn failed)
      (format_received_message success (success + failed)%Z "file") ;;
    log (ok_or_warn failed)
      (description
         ++ [T " finished; elapsed "; Elapsed; T "s; approx ";
             Size total_bytes]).

(** *** Overrides *)

(** The walk that fills [files_to_copy]: source, target and relative path
    of every regular file below [src]. *)
Definition files_below (src dest : string) : M (list (string * string * string)) :=
  fun s =>
    (Ret (match lookup src s with
          | Some n =>
              map (fun rc =>
                     let rel := String.concat "/" rc in
                     (PosixPath.join src rel, PosixPath.join dest rel, rel))
                  (walk_files n)
          | None => []
          end), s).

Fixpoint copy_loop (files : list (string * string * string)) (copied failed : Z)
  : M (Z * Z) :=
  match files with
  | [] => ret (copied, failed)
  | (src, t, _) :: rest =>
      ok <- try_except
              (ensure_dir (PosixPath.dirname t) ;; copy2 src t ;; ret true)
              (fun _ => ret false) ;;
      if ok : bool then copy_loop rest (copied + 1)%Z failed
      else copy_loop rest copied (failed + 1)%Z
  end.

Definition apply_overrides_with_rich (td dest : string) : M unit :=
  let src := PosixPath.join td "overrides" in
  isdir <- (fun s => (Ret (path_isdir src s), s)) ;;
  if negb isdir then log "COMMENT" [T "No overrides directory present"]
  else
    files_to_copy <- files_below src dest ;;
    let total := len files_to_copy in
    log "COMMENT"
      [T "Parsing and moving modpack: "; I total; T " ";
       T (pluralize total "file" None)] ;;
    ' (copied, failed) <- copy_loop files_to_copy 0%Z 0%Z ;;
    log_all (ok_or_warn failed)
      (format_copied_message copied (copied + failed)%Z "file").

(** *** High-level placement *)

(** The loop of [download_and_place] over the generator's items. *)
Fixpoint plan_loop (dest : string) (overwrite : bool)
    (items : list (value * string)) (urls : list value)
    (targets : list string) : M (list value * list string) :=
  match items with
  | [] => ret (urls, targets)
  | (url, target) :: rest =>
      skip <- (if overwrite then ret false else os_path_exists target) ;;
      if skip : bool then
        rel <- lift (PosixPath.relpath (cwd E) target dest) ;;
        log "USER" [T "Skipping existing "; T rel] ;;
        plan_loop dest overwrite rest urls targets
      else plan_loop dest overwrite rest (urls ++ [url]) (targets ++ [target])
  end.

(** Lines 484-489: the plan, as the lists [urls] and [targets].  An
    exception of the generator ends the loop once its items are used up. *)
Definition build_plan (manifest : value) (dest : string) (overwrite : bool)
  : M (list value * list string) :=
  let g := iter_manifest_files manifest dest in
  plan <- plan_loop dest overwrite (yielded g) [] [] ;;
  match raised g with
  | Some e => raise e
  | None => ret plan
  end.

Definition download_and_place (manifest : value) (dest td : string)
    (overwrite : bool) : M unit :=
  ' (urls, targets) <- build_plan manifest dest overwrite ;;
  match urls with
  | [] => ret tt
  | _ :: _ =>
      log "COMMENT"
        [T "Downloading "; I (len urls); T " ";
         T (pluralize (len urls) "file" None); T " to "; T dest] ;;
      download_with_rich urls targets
        [T "Downloading "; I (len urls); T " files"]
  end ;;
  apply_overrides_with_rich td dest.

(** *** Registry records and the manifest's dependencies *)

(** [x.endswith(".mrpack")] on whatever [f.get("filename", "")] gave. *)
Definition py_endswith (suffix : string) (x : value) : res bool :=
  match x with
  | VStr s => Ok (endswith suffix s)
  | _ => Err AttributeError
  end.

Fixpoint find_mrpack (files : list value) : res value :=
  match files with
  | [] => Ok VNone
  | f :: rest =>
      match py_get_default "filename" (VStr "") f with
      | Err e => Err e
      | Ok name =>
          match py_endswith ".mrpack" name with
          | Err e => Err e
          | Ok true => py_get "url" f
          | Ok false => find_mrpack rest
          end
      end
  end.

Definition find_mrpack_url (selection : value) : res value :=
  match py_get_default "files" (VList []) selection with
  | Err e => Err e
  | Ok files =>
      match py_iter files with
      | Err e => Err e
      | Ok fs => find_mrpack fs
      end
  end.

Fixpoint all_strs (l : list value) : res (list string) :=
  match l with
  | [] => Ok []
  | VStr s :: rest =>
      match all_strs rest with
      | Ok ss => Ok (s :: ss)
      | Err e => Err e
      end
  | _ :: _ => Err TypeError
  end.

(** [",".join(x)] *)
Definition join_comma (x : value) : res string :=
  match py_iter x with
  | Err e => Err e
  | Ok items =>
      match all_strs items with
      | Ok ss => Ok (String.concat "," ss)
      | Err e => Err e
      end
  end.

(** [x[0]] on an object that is true. *)
Definition py_index0 (x : value) : res value :=
  match x with
  | VList (v :: _) => Ok v
  | VStr (String c _) => Ok (VStr (String c ""))
  | VDict _ => Err KeyError
  | _ => Err TypeError
  end.

(** [os.path.basename(file_url)] where a str is needed. *)
Definition basename_str (url : value) : res string :=
  match url with
  | VStr s => Ok (PosixPath.basename s)
  | _ => Err TypeError
  end.

Definition launcher_present (mc_dir : string) : M bool :=
  fun s =>
    (Ret (existsb (fun p => path_exists p s)
            [PosixPath.join mc_dir "launcher_profiles.json";
             PosixPath.join mc_dir "launcher_accounts.json";
             PosixPath.join mc_dir "launcher_profiles.json.old"]), s).

Definition load_manifest_from_td (td : string) : M value :=
  fun s =>
    match lookup td s with
    | Some (Dir es) =>
        match walk_find MANIFEST_NAME (Dir es) with
        | Some d =>
            match json_loads E d with
            | Some v => (Ret v, s)
            | None => (Raise JSONDecodeError, s)
            end
        | None => (Ret VNone, s)
        end
    | _ => (Ret VNone, s)
    end.

(** *** Fabric installer *)

Definition installer_path : string :=
  PosixPath.join (tempdir E)
    ("fabric-installer-" ++ FABRIC_INSTALLER_VERSION ++ ".jar").

(** Both branches on [RICH_AVAILABLE] run the same [check_call] under the
    same two handlers; the spinner around one of them is not modelled. *)
Definition run_fabric_installer (mc : string) (loader_version mc_version : value)
  : M unit :=
  log "USER" [T "Downloading Fabric installer to "; T installer_path] ;;
  downloaded <-
    try_except
      (download_with_rich [VStr FABRIC_INSTALLER_URL] [installer_path]
         [T "Downloading Fabric installer"] ;;
       ret true)
      (fun e =>
         log "ERROR" [T "Failed to download Fabric installer: "; Exc e] ;;
         ret false) ;;
  if negb downloaded then ret tt
  else
    let cmd :=
      [VStr "java"; VStr "-jar"; VStr installer_path; VStr "client";
       VStr "-dir"; VStr mc; VStr "-loader"; loader_version] in
    let cmd :=
      if truthy mc_version then cmd ++ [VStr "-mcversion"; mc_version]
      else cmd in
    log "USER" [T "Running Fabric installer"] ;;
    try_except
      (check_call cmd ;;
       log "OK" [T "Fabric loader installed successfully"])
      (fun e =>
         match e with
         | CalledProcessError code =>
             log "ERROR" [T "Fabric installer failed (exit "; I code; T ")"]
         | _ => raise e
         end).

(** *** Flows *)

Definition DEFAULT_DOWNLOADS : string := PosixPath.join (home E) "Downloads".

Definition as_value (o : option string) : value :=
  match o with Some a => VStr a | None => VNone end.

Definition prepare_destination (dest prompt_title : string) : M unit :=
  present <- os_path_exists dest ;;
  if present : bool then
    let ans :=
      choose E [T prompt_title; T ": "; T dest; T newline; T "Overwrite?"]
        ["Yes, overwrite"; "No, use existing"] in
    log "USER" [T "Destination prompt answered: "; V (as_value ans)] ;;
    match ans with
    | Some a =>
        if String.eqb a "Yes, overwrite" then
          rmtree_ignore_errors dest ;;
          ensure_dir dest ;;
          log "OK" [T "Destination prepared: "; T dest]
        else ret tt
    | None => ret tt
    end
  else
    ensure_dir dest ;;
    log "OK" [T "Destination created: "; T dest].

(** Lines 600-612 and 652-664, the same in both flows: the scratch
    directory, the extraction and the manifest. *)
Definition unpack (tmp_pkg : string) : M (string * value) :=
  td <- mkdtemp ;;
  log "COMMENT" [T "Extracting package to "; T td] ;;
  try_except
    (extractall tmp_pkg td ;; log "OK" [T "Extraction complete"])
    (fun e => log "ERROR" [T "Extract error: "; Exc e] ;;
              final_summary_and_save) ;;
  manifest <- load_manifest_from_td td ;;
  if negb (truthy manifest) then
    log "CRITICAL" [T "No manifest found in package"] ;;
    final_summary_and_save
  else ret (td, manifest).

(** Lines 619-624 and 680-685, the same in both flows. *)
Definition cleanup (td tmp_pkg : string) : M unit :=
  rmtree_ignore_errors td ;;
  try_except (os_remove tmp_pkg)
    (fun e =>
       if is_OSError e
       then log "WARN" [T "Could not remove temporary package "; T tmp_pkg]
       else raise e) ;;
  final_summary_and_save.

(** Lines 665-667 *)
Definition manifest_versions (manifest : value) : M (value * value) :=
  deps <- lift (py_get_default "dependencies" (VDict []) manifest) ;;
  match py_or deps (VDict []) with
  | VDict d =>
      let mc0 := py_or (dict_get "minecraft" d) (dict_get "minecraft_version" d) in
      mc_version <-
        (if truthy mc0 then ret mc0
         else
           gv <- lift (py_get "game_versions" manifest) ;;
           if truthy gv then lift (py_index0 gv) else ret VNone) ;;
      let loader_version :=
        py_or (dict_get "fabric-loader" d)
              (py_or (dict_get "fabric_loader" d) (dict_get "loader" d)) in
      ret (mc_version, loader_version)
  | _ => raise AttributeError
  end.

(** Lines 665-677: the optional bootstrap, then the files. *)
Definition install_stage (mc : string) (manifest : value) (td : string)
  : M unit :=
  ' (mc_version, loader_version) <- manifest_versions manifest ;;
  present <- (if truthy loader_version then launcher_present mc
              else ret false) ;;
  (if present : bool then
     log "USER"
       [T "Installing Fabric loader "; V loader_version; T " for Minecraft ";
        V (py_or mc_version (VStr "unknown"))] ;;
     run_fabric_installer mc loader_version mc_version
   else if negb (truthy loader_version) then
     log "WARN"
       [T "No fabric-loader version found in manifest; skipping automatic loader install"]
   else
     log "WARN"
       [T "Official launcher not detected; skipping automatic loader install"]) ;;
  log "USER" [T "Downloading and installing files into Minecraft directory"] ;;
  download_and_place manifest mc td false.

(** Lines 665-685 *)
Definition install_from_manifest (mc : string) (manifest : value)
    (td tmp_pkg display_name : string) : M unit :=
  install_stage mc manifest td ;;
  log "OK" [T "Installation complete"] ;;
  log "OK" [T "Launch Minecraft with Fabric loader to use "; T display_name] ;;
  cleanup td tmp_pkg.

Definition step_install_flow (mc : string) (versions : list value) : M unit :=
  log "USER" [T "Opening version selector for installation"] ;;
  let sel := pick_version E versions in
  if negb (truthy sel) then
    log "CRITICAL" [T "No version selected; aborting installation"] ;;
    final_summary_and_save
  else
    ver_name <- lift (py_get_default "version_number" (VStr "unknown") sel) ;;
    ver_type <- lift (py_get_default "version_type" (VStr "unknown") sel) ;;
    gv <- lift (py_get_default "game_versions" (VList []) sel) ;;
    game_versions <- lift (join_comma gv) ;;
    display_name <- lift (build_display_name ver_name game_versions ver_type) ;;
    log "USER"
      [T "Selected version: "; V ver_name; T " ("; V ver_type; T ") for ";
       T game_versions] ;;
    file_url <- lift (find_mrpack_url sel) ;;
    if negb (truthy file_url) then
      log "CRITICAL" [T "No .mrpack found for this version"] ;;
      final_summary_and_save
    else
      base <- lift (basename_str file_url) ;;
      let tmp_pkg := PosixPath.join (tempdir E) base in
      log "COMMENT" [T "Downloading package "; V file_url] ;;
      try_except
        (download_with_rich [file_url] [tmp_pkg] [T "Downloading package"] ;;
         log "OK" [T "Downloaded package: "; T base])
        (fun e => log "ERROR" [T "Download error: "; Exc e] ;;
                  final_summary_and_save) ;;
      ' (td, manifest) <- unpack tmp_pkg ;;
      install_from_manifest mc manifest td tmp_pkg display_name.

(** Lines 613-616 *)
Definition organize_stage (manifest : value) (td display_name : string)
  : M string :=
  let dest := PosixPath.join DEFAULT_DOWNLOADS display_name in
  prepare_destination dest "Destination folder" ;;
  download_and_place manifest dest td true ;;
  ret dest.

(** Lines 613-624 *)
Definition organize_from_manifest (manifest : value)
    (td tmp_pkg display_name : string) : M unit :=
  dest <- organize_stage manifest td display_name ;;
  log "OK" [T "All files downloaded and organized"] ;;
  log "COMMENT" [T "Files are available in: "; T dest] ;;
  cleanup td tmp_pkg.

Definition parse_and_download_flow (versions : list value) : M unit :=
  log "COMMENT" [T "Opening version selector for Parse & Download"] ;;
  let sel := pick_version E versions in
  if negb (truthy sel) then
    log "CRITICAL" [T "No version selected; aborting parse & download"] ;;
    final_summary_and_save
  else
    ver_name <- lift (py_get_default "version_number" (VStr "unknown") sel) ;;
    ver_type <- lift (py_get_default "version_type" (VStr "unknown") sel) ;;
    gv <- lift (py_get_default "game_versions" (VList []) sel) ;;
    game_versions <- lift (join_comma gv) ;;
    log "USER"
      [T "Selected version: "; V ver_name; T " ("; V ver_type; T ") for ";
       T game_versions] ;;
    display_name <- lift (build_display_name ver_name game_versions ver_type) ;;
    file_url <- lift (find_mrpack_url sel) ;;
    if negb (truthy file_url) then
      log "CRITICAL" [T "No .mrpack found for this version"] ;;
      final_summary_and_save
    else
      log "COMMENT" [T "Downloading package "; V file_url] ;;
      base <- lift (basename_str file_url) ;;
      let tmp_pkg := PosixPath.join (tempdir E) base in
      try_except
        (download_with_cumulative_fallback [file_url] [tmp_pkg] ;;
         log "OK" [T "Downloaded package: "; T base] ;;
         log "OK" [T "Package download complete"])
        (fun e => log "ERROR" [T "Download error: "; Exc e] ;;
                  final_summary_and_save) ;;
      ' (td, manifest) <- unpack tmp_pkg ;;
      organize_from_manifest manifest td tmp_pkg display_name.

End Installer.

(** * The vocabulary of the properties *)

Definition first_char (s : string) : option ascii :=
  match s with
  | "" => None
  | String c _ => Some c
  end.

Fixpoint last_char (s : string) : option ascii :=
  match s with
  | "" => None
  | String c s' =>
      match s' with
      | "" => Some c
      | String _ _ => last_char s'
      end
  end.

(** The mirror a descriptor names first, when its [downloads] is a list
    that is not empty, and what a mirror gives as a URL: its [url] field
    when it is an object, itself otherwise. *)
Definition first_download (f : list (string * value)) : option value :=
  match dict_get "downloads" f with
  | VList (dl :: _) => Some dl
  | _ => None
  end.

Definition mirror_url (dl : value) : value :=
  match dl with
  | VDict d => dict_get "url" d
  | _ => dl
  end.

(** A descriptor whose mirrors give no URL: there is no list, the list is
    empty, or its first member gives none. *)
Definition no_mirror (f : list (string * value)) : Prop :=
  forall dl, first_download f = Some dl -> truthy (mirror_url dl) = false.

(** The turn of the descriptor [f] produces an entry with the URL [u]: it
    is not passed over, an item it yields has that URL, and it does yield
    one, its destination below the root, when the relative path is a str:
    the [path] or else the [filename] of the descriptor, or, when it has
    neither and the URL is a str, the last component of the URL. *)
Definition carries (base_dest : string) (f : list (string * value))
    (u : value) : Prop :=
  manifest_file base_dest (VDict f) <> Skip
  /\ (forall url target,
        manifest_file base_dest (VDict f) = Yield url target -> url = u)
  /\ (forall p,
        py_or (dict_get "path" f) (dict_get "filename" f) = VStr p ->
        p <> "" ->
        exists rel,
          lstrip_seps (VStr p) = Ok rel
          /\ manifest_file base_dest (VDict f)
             = Yield u (PosixPath.join base_dest rel))
  /\ (forall us,
        truthy (py_or (dict_get "path" f) (dict_get "filename" f)) = false ->
        u = VStr us ->
        exists rel,
          lstrip_seps (VStr (PosixPath.basename us)) = Ok rel
          /\ manifest_file base_dest (VDict f)
             = Yield u (PosixPath.join base_dest rel)).

(** The bytes of a sequence of chunks. *)
Definition body_of (chunks : list string) : string :=
  fold_right String.append "" chunks.

(** One disk has every node another has, directories as directories. *)
Definition fs_le (a b : node) : Prop :=
  forall q,
    (fs_isdir q a = true -> fs_isdir q b = true)
    /\ (fs_exists q a = true -> fs_exists q b = true).

(** A change of an entry that makes one where there was none or replaces a
    regular file, and one that takes the entry away. *)
Definition creates (f : option node -> res (option node)) : Prop :=
  forall o r, f o = Ok r -> r <> None /\ (forall es, o <> Some (Dir es)).

Definition removes (f : option node -> res (option node)) : Prop :=
  forall o r, f o = Ok r -> r = None.

(** What the writes of a body leave in a file at [t] that holds [d], and
    whether all of them went through: the writes go out in order until the
    environment fails one, of which the first [landed] bytes remain. *)
Fixpoint lands (E : env) (t : string) (d : string) (chunks : list string)
  : string * bool :=
  match chunks with
  | [] => (d, true)
  | chunk :: rest =>
      if is_empty chunk then lands E t d rest
      else if faulty E (OpWrite t (String.length d))
           then (d ++ substring 0 (landed E t (String.length d)) chunk,
                 false)%string
           else lands E t (d ++ chunk) rest
  end.

(** A call that sends no HTTP request, however it ends. *)
Definition sends_nothing {A} (m : M A) : Prop :=
  forall s out s', m s = (out, s') -> requests s' = requests s.

Section PlanVocabulary.

Variable E : env.

(** The items of a generator the plan keeps and the ones it passes over. *)
Definition kept (s : state) (items : list (value * string))
  : list (value * string) :=
  filter (fun it => negb (path_exists E (snd it) s)) items.

Definition skipped (s : state) (items : list (value * string))
  : list (value * string) :=
  filter (fun it => path_exists E (snd it) s) items.

(** The notice [download_and_place] logs for a destination it passes over. *)
Definition skip_notice (dest target : string) : string * message :=
  ("USER",
   [T "Skipping existing ";
    T (match PosixPath.relpath (cwd E) target dest with
       | Ok rel => rel
       | Err _ => ""
       end)]).

Definition skip_notices (dest : string) (s : state)
    (items : list (value * string)) : list (string * message) :=
  map (fun it => skip_notice dest (snd it)) (skipped s items).

End PlanVocabulary.

(** A call that leaves a state related by [R] to the one it found, however
    it ends. *)
Definition framed (R : state -> state -> Prop) {A} (m : M A) : Prop :=
  forall s out s', m s = (out, s') -> R s s'.

(** A call that does not end the process. *)
Definition never_exits {A} (m : M A) : Prop :=
  forall s out s' c, m s = (out, s') -> out <> Exit c.

(** A call that ends the process, if it does, with status 0, and a call
    that never comes back to its caller. *)
Definition exits_zero {A} (m : M A) : Prop :=
  forall s out s' c, m s = (out, s') -> out = Exit c -> c = 0%Z.

Definition never_returns {A} (m : M A) : Prop :=
  forall s out s' a, m s = (out, s') -> out <> Ret a.

(** The log and the record of requests only grow at their end. *)
Definition log_grows (s s' : state) : Prop :=
  exists l, LOG s' = LOG s ++ l.

Definition requests_grow (s s' : state) : Prop :=
  exists l, requests s' = requests s ++ l.

(** No child process was started. *)
Definition same_children (s s' : state) : Prop := spawned s' = spawned s.

(** Nothing went out: no request, no child process. *)
Definition offline (s s' : state) : Prop :=
  requests s' = requests s /\ spawned s' = spawned s.

(** Nothing but the log changed. *)
Definition only_log (s s' : state) : Prop :=
  disk s' = disk s /\ requests s' = requests s /\ spawned s' = spawned s.

(** Nothing but the disk changed. *)
Definition only_disk (s s' : state) : Prop :=
  LOG s' = LOG s /\ requests s' = requests s /\ spawned s' = spawned s.

(** The size a probe settles on for a URL. *)
Definition head_or_zero (E : env) (u : value) : Z :=
  match http_head E u with Some n => n | None => 0%Z end.

(** The command line of the Fabric installer. *)
Definition installer_cmd (E : env) (mc : string)
    (loader_version mc_version : value) : list value :=
  [VStr "java"; VStr "-jar"; VStr (installer_path E); VStr "client";
   VStr "-dir"; VStr mc; VStr "-loader"; loader_version]
  ++ (if truthy mc_version then [VStr "-mcversion"; mc_version] else []).

(** A string that neither starts nor ends with whitespace. *)
Definition stripped (s : string) : bool :=
  match first_char s with Some c => negb (isspace c) | None => true end
  && match last_char s with Some c => negb (isspace c) | None => true end.

(** A file of a registry record whose name is a str that does not end in
    [.mrpack]. *)
Definition other_file (f : value) : bool :=
  match f with
  | VDict d =>
      match dict_get_default "filename" (VStr "") d with
      | VStr name => negb (endswith ".mrpack" name)
      | _ => false
      end
  | _ => false
  end.

Definition is_dict (v : value) : bool :=
  match v with VDict _ => true | _ => false end.

Definition is_str (v : value) : bool :=
  match v with VStr _ => true | _ => false end.

(** A call that returned. *)
Definition is_ret {A} (o : outcome A) : bool :=
  match o with Ret _ => true | _ => false end.

(** The entries of a plan gone through one after the other: from [s] the
    directory of each destination is made and its transfer is run, in
    order, down to [s']; [oks] tells, entry by entry, whether the transfer
    returned. *)
Inductive transfers (E : env)
  : list (value * string * Z) -> state -> list bool -> state -> Prop :=
| transfers_nil s : transfers E [] s [] s
| transfers_cons u t sz items s s1 out s2 oks s' :
    ensure_dir E (PosixPath.dirname t) s = (Ret tt, s1) ->
    fetch E u t s1 = (out, s2) ->
    transfers E items s2 oks s' ->
    transfers E ((u, t, sz) :: items) s (is_ret out :: oks) s'.

(** How many transfers returned, and how many did not. *)
Definition successes (oks : list bool) : Z :=
  Z.of_nat (List.length (filter (fun ok => ok) oks)).

Definition failures (oks : list bool) : Z :=
  Z.of_nat (List.length (filter negb oks)).

(** The entries a transfer loop goes through: [zip] stops at the shorter
    of its lists. *)
Definition zipped_urls (urls : list value) (targets : list string)
  : list value :=
  map fst (combine urls targets).

(** The regular files below the [overrides] directory of [td], if there is
    one. *)
Definition override_files (E : env) (td : string) (s : state)
  : list (list string) :=
  match lookup E (PosixPath.join td "overrides") s with
  | Some n => walk_files n
  | None => []
  end.

(** The server does not serve [u]: the request fails or the status is an
    error. *)
Definition refuses (E : env) (u : value) : bool :=
  match http_get E u with
  | Refused => true
  | Status code _ _ => ((400 <=? code) && (code <? 600))%Z
  end.

(** * Scenarios *)

Definition manifest_ex : value :=
  VDict [("files", VList [
    VDict [("path", VStr "mods/a.jar");
           ("downloads", VList [VStr "https://cdn/a.jar"])];
    VDict [("path", VStr "mods/none.jar")];
    VDict [("downloads", VList [VDict [("url", VStr "https://cdn/b.jar")]])];
    VDict [("path", VStr "/config/c.cfg"); ("url", VStr "https://cdn/c")]])].

Definition fs_ex : node :=
  Dir [("mc", Dir [("options.txt", File "fov:90");
                   ("mods", Dir [("a.jar", File "AAAA")])]);
       ("tmp", Dir [])].

Definition traversal_manifest : value :=
  VDict [("files", VList [
    VDict [("path", VStr "../../.ssh/authorized_keys");
           ("downloads", VList [VStr "https://cdn/keys"])]])].

Definition pack_manifest : value :=
  VDict [("files", VList [
           VDict [("path", VStr "mods/a.jar");
                  ("downloads", VList [VStr "https://cdn/a.jar"])];
           VDict [("path", VStr "config/c.cfg");
                  ("downloads", VList [VStr "https://cdn/c.cfg"])]]);
         ("dependencies", VDict [("minecraft", VStr "1.21");
                                 ("fabric-loader", VStr "0.16")])].

Definition pack_members : list (string * node) :=
  [("modrinth.index.json", File "M");
   ("overrides", Dir [("options.txt", File "fov:90")])].

(** A file server: two archives, one of them without a manifest, and the
    two files of [pack_manifest]; every other URL is unreachable, the
    Fabric installer's too. *)
Definition cdn (u : value) : response :=
  match u with
  | VStr "https://cdn/pack.mrpack" => Status 200 ["PK"] true
  | VStr "https://cdn/bare.mrpack" => Status 200 ["PK0"] true
  | VStr "https://cdn/a.jar" => Status 200 ["AAAA"; "BBBB"] true
  | VStr "https://cdn/c.cfg" => Status 200 ["k=v"] true
  | _ => Refused
  end.

(** The same with the Fabric installer on line. *)
Definition cdn_and_maven (u : value) : response :=
  if match u with
     | VStr s => String.eqb s FABRIC_INSTALLER_URL
     | _ => false
     end
  then Status 200 ["JAR"] true
  else cdn u.

Definition scenario (get : value -> response) (fault : op -> bool)
    (child : child_result) : env :=
  {| cwd := "/"; tempdir := "/tmp"; home := "/home/u";
     RICH_AVAILABLE := true;
     http_head := fun _ => None;
     http_get := get;
     faulty := fault;
     landed := fun _ _ => 0;
     mkdtemp_name := "tmpab12";
     unzip := fun d =>
       if String.eqb d "PK" then Some pack_members
       else if String.eqb d "PK0" then Some [("readme.txt", File "hi")]
       else None;
     json_loads := fun d =>
       if String.eqb d "M" then Some pack_manifest else None;
     run_child := fun _ d => (child, d);
     pick_version := fun vs => hd VNone vs;
     choose := fun _ _ => None;
     stamp := "11-04-26_09-30.00";
     log_line := fun e => (fst e ++ newline)%string |}.

Definition no_fault (o : op) : bool := false.



(** The scratch directory cannot be removed. *)
Definition scratch_busy (o : op) : bool :=
  match o with
  | OpRmtree "/tmp/tmpab12" => true
  | _ => false
  end.

Definition start (d : node) : state :=
  {| LOG := []; disk := d; requests := []; spawned := [] |}.

Definition home_disk : node :=
  Dir [("mc", Dir [("launcher_profiles.json", File "{}")]);
       ("tmp", Dir []);
       ("home", Dir [("u", Dir [])])].

(** A Minecraft directory in which [mods] is a regular file. *)
Definition blocked_disk : node :=
  Dir [("mc", Dir [("launcher_profiles.json", File "{}");
                   ("mods", File "notes")]);
       ("tmp", Dir []);
       ("home", Dir [("u", Dir [])])].

(** A Minecraft directory that has one, and one that has both, of the
    files of [pack_manifest]. *)
Definition half_installed : node :=
  Dir [("mc", Dir [("launcher_profiles.json", File "{}");
                   ("config", Dir [("c.cfg", File "old")])]);
       ("tmp", Dir [("x", Dir [])])].

Definition installed : node :=
  Dir [("mc", Dir [("launcher_profiles.json", File "{}");
                   ("mods", Dir [("a.jar", File "AAAABBBB")]);
                   ("config", Dir [("c.cfg", File "k=v")])]);
       ("tmp", Dir [("x", Dir [])])].

Definition user_disk : node :=
  Dir [("home", Dir [("u", Dir [(".minecraft", Dir [])])]);
       ("tmp", Dir [("x", Dir [])])].

Definition registry (pkg : string) : list value :=
  [VDict [("version_number", VStr "1.21+2.0");
          ("version_type", VStr "release");
          ("game_versions", VList [VStr "1.21"]);
          ("files", VList [VDict [("filename", VStr "pack.mrpack");
                                  ("url", VStr pkg)]])]].

(** No entry of the log is above the levels of ordinary progress. *)
Definition calm (l : list (string * message)) : bool :=
  forallb (fun e => existsb (String.eqb (fst e)) ["OK"; "USER"; "COMMENT"]) l.


(** * Properties *)

(** ** The model on small inputs *)

Example normpath_dotdot :
  PosixPath.normpath "/home/u/.minecraft/../evil.jar" = "/home/u/evil.jar".
Proof. reflexivity. Qed.

Example dirname_ex : PosixPath.dirname "/mc/mods/a.jar" = "/mc/mods".
Proof. reflexivity. Qed.

Example relpath_ex :
  PosixPath.relpath "/" "/mc/mods/a.jar" "/mc" = Ok "mods/a.jar".
Proof. reflexivity. Qed.

Example display_name_ex :
  build_display_name (VStr "1.21.4+2.1.0 ") "1.21.4" (VStr "Beta")
  = Ok "OptiFine for Fabric 2.1.0 [Minecraft 1.21.4] [Beta]".
Proof. reflexivity. Qed.

Example display_name_ex2 :
  build_display_name (VStr "a/b:c") "1.20,1.21" (VStr "release")
  = Ok "OptiFine for Fabric abc [Minecraft 1.20,1.21]".
Proof. reflexivity. Qed.

Example iter_manifest_files_ex :
  iter_manifest_files manifest_ex "/mc"
  = Generated [(VStr "https://cdn/a.jar", "/mc/mods/a.jar");
               (VStr "https://cdn/b.jar", "/mc/b.jar");
               (VStr "https://cdn/c", "/mc/config/c.cfg")] None.
Proof. reflexivity. Qed.

Example fs_lookup_ex :
  fs_lookup ["mc"; "mods"; "a.jar"] fs_ex = Some (File "AAAA").
Proof. reflexivity. Qed.

(** A path through a directory that is not there leads nowhere, and
    [os.makedirs] makes that directory on its way to the [..] after it. *)
Example resolve_ex :
  let E := scenario cdn no_fault (Exited 0) in
  resolve E "/mc/mods/../options.txt" fs_ex = Some (File "fov:90")
  /\ resolve E "/mc/nodir/../options.txt" fs_ex = None
  /\ resolve E "/mc/options.txt/" fs_ex = None
  /\ resolve E "mc//mods/." fs_ex = Some (Dir [("a.jar", File "AAAA")]).
Proof. cbv zeta. repeat split; vm_compute; reflexivity. Qed.

Example makedirs_ex :
  let E := scenario cdn no_fault (Exited 0) in
  fst (ensure_dir E "/mc/options.txt" (start fs_ex)) = Raise FileExistsError
  /\ fst (ensure_dir E "/mc/options.txt/x" (start fs_ex))
     = Raise NotADirectoryError
  /\ ensure_dir E "/mc/mods" (start fs_ex) = (Ret tt, start fs_ex)
  /\ ensure_dir E "/tmp/a/b/" (start fs_ex)
     = (Ret tt,
        start (Dir [("mc", Dir [("options.txt", File "fov:90");
                                ("mods", Dir [("a.jar", File "AAAA")])]);
                    ("tmp", Dir [("a", Dir [("b", Dir [])])])]))
  /\ ensure_dir E "/mc/nodir/.." (start fs_ex)
     = (Ret tt,
        start (Dir [("mc", Dir [("options.txt", File "fov:90");
                                ("mods", Dir [("a.jar", File "AAAA")]);
                                ("nodir", Dir [])]);
                    ("tmp", Dir [])])).
Proof. cbv zeta. repeat split; vm_compute; reflexivity. Qed.

Example walk_files_ex :
  walk_files fs_ex = [["mc"; "options.txt"]; ["mc"; "mods"; "a.jar"]].
Proof. reflexivity. Qed.

(** ** Strings *)

Lemma is_empty_true (s : string) : is_empty s = true -> s = "".
Proof. destruct s; [reflexivity | discriminate]. Qed.

Lemma contains_lstrip p c s :
  contains c (lstrip_by p s) = true -> contains c s = true.
Proof.
  induction s as [|a s IH]; simpl; [easy|].
  destruct (p a); simpl; [|easy].
  intros H. rewrite (IH H). apply orb_true_r.
Qed.

Lemma contains_rstrip p c s :
  contains c (rstrip_by p s) = true -> contains c s = true.
Proof.
  induction s as [|a s IH]; simpl; [easy|].
  destruct (is_empty (rstrip_by p s) && p a); simpl; [discriminate|].
  intros H. apply orb_true_iff in H as [H|H].
  - now rewrite H.
  - rewrite (IH H). apply orb_true_r.
Qed.

Lemma contains_filter p c s :
  contains c (filter_str p s) = true -> p c = true.
Proof.
  induction s as [|a s IH]; simpl; [discriminate|].
  destruct (p a) eqn:Hp; simpl; [|exact IH].
  intros H. apply orb_true_iff in H as [H|H]; [|now apply IH].
  apply Ascii.eqb_eq in H. now subst.
Qed.

Lemma contains_app c a b :
  contains c (a ++ b) = contains c a || contains c b.
Proof.
  induction a as [|x a IH]; simpl; [reflexivity|].
  now rewrite IH, orb_assoc.
Qed.

Lemma lstrip_first p s c :
  first_char (lstrip_by p s) = Some c -> p c = false.
Proof.
  induction s as [|a s IH]; simpl; [discriminate|].
  destruct (p a) eqn:Hp; [exact IH|].
  simpl. intros H. now inversion H; subst.
Qed.

Lemma last_char_cons a s c :
  last_char s = Some c -> last_char (String a s) = Some c.
Proof. destruct s; [discriminate | easy]. Qed.

Lemma lstrip_last p s c :
  last_char (lstrip_by p s) = Some c -> last_char s = Some c.
Proof.
  induction s as [|a s IH]; [easy|].
  cbn [lstrip_by]. destruct (p a); [|easy].
  intros H. apply last_char_cons. now apply IH.
Qed.

Lemma rstrip_last p s c :
  last_char (rstrip_by p s) = Some c -> p c = false.
Proof.
  induction s as [|a s IH]; [discriminate|].
  cbn [rstrip_by]. cbv zeta.
  destruct (rstrip_by p s) as [|b r] eqn:Hr.
  - simpl. destruct (p a) eqn:Hp; simpl; [discriminate|].
    intros H. now inversion H; subst.
  - simpl is_empty. cbn [andb]. intros H. apply IH. exact H.
Qed.

Lemma split_on_single c s : contains c s = false -> split_on c s = [s].
Proof.
  induction s as [|a s IH]; simpl; [reflexivity|].
  intros H. apply orb_false_iff in H as [Ha Hs].
  rewrite Ha, (IH Hs). reflexivity.
Qed.

Lemma after_last_none c s : contains c s = false -> after_last c s = s.
Proof.
  destruct s as [|a s]; simpl; [reflexivity|].
  intros H. apply orb_false_iff in H as [Ha Hs]. now rewrite Hs, Ha.
Qed.

Lemma after_last_app c a b :
  contains c b = false -> after_last c (a ++ String c b) = b.
Proof.
  intros Hb. induction a as [|x a IH]; simpl.
  - now rewrite Hb, Ascii.eqb_refl.
  - rewrite contains_app. simpl. rewrite Ascii.eqb_refl, orb_true_r.
    exact IH.
Qed.

Lemma endswith_char_split c s :
  endswith_char c s = true -> exists s', s = (s' ++ String c "")%string.
Proof.
  induction s as [|a s IH]; [discriminate|].
  destruct s as [|b s].
  - simpl. intros H. apply Ascii.eqb_eq in H. subst. now exists "".
  - intros H. destruct (IH H) as [s' Hs']. exists (String a s').
    simpl. now rewrite <- Hs'.
Qed.

Lemma append_assoc (a b c : string) :
  ((a ++ b) ++ c = a ++ (b ++ c))%string.
Proof. induction a as [|x a IH]; simpl; [reflexivity | now rewrite IH]. Qed.

(** A name without a separator, joined to a directory, is the last
    component of the result. *)
Lemma basename_join d name :
  contains "/" name = false -> first_char name <> None ->
  PosixPath.basename (PosixPath.join d name) = name.
Proof.
  intros Hc Hf. unfold PosixPath.basename, PosixPath.join, startswith.
  destruct name as [|x name]; [now elim Hf|].
  assert (Hx : Ascii.eqb x "/" = false).
  { simpl in Hc. now apply orb_false_iff in Hc as [? _]. }
  assert (Hp : String.prefix "/" (String x name) = false).
  { change (String.prefix "/" (String x name))
      with (if ascii_dec "/"%char x then String.prefix "" name else false).
    destruct (ascii_dec "/"%char x) as [e|]; [|reflexivity].
    subst x. discriminate Hx. }
  rewrite Hp.
  destruct (is_empty d) eqn:Hd.
  - apply is_empty_true in Hd. subst. simpl orb. cbv iota.
    change (("" ++ String x name)%string) with (String x name).
    now apply after_last_none.
  - simpl orb. destruct (endswith_char PosixPath.sep d) eqn:He.
    + destruct (endswith_char_split _ _ He) as [d' ->].
      rewrite append_assoc. simpl. now apply after_last_app.
    + now apply after_last_app.
Qed.

(** ** Display names *)

Lemma forbidden_in c : In c forbidden_chars -> forbidden c = true.
Proof.
  intros H. unfold forbidden. apply existsb_exists.
  exists c; split; [exact H | apply Ascii.eqb_refl].
Qed.

Lemma sanitize_name_no_forbidden name c :
  In c forbidden_chars -> contains c (sanitize_name name) = false.
Proof.
  intros H. destruct (contains c (sanitize_name name)) eqn:Hc; [|reflexivity].
  unfold sanitize_name, strip in Hc.
  apply contains_lstrip, contains_rstrip, contains_filter in Hc.
  rewrite (forbidden_in _ H) in Hc. discriminate.
Qed.

Lemma sanitize_name_first name c :
  first_char (sanitize_name name) = Some c -> isspace c = false.
Proof. apply lstrip_first. Qed.

Lemma sanitize_name_last name c :
  last_char (sanitize_name name) = Some c -> isspace c = false.
Proof.
  unfold sanitize_name, strip. intros H.
  apply lstrip_last in H. now apply rstrip_last in H.
Qed.

Lemma sanitize_name_O t :
  sanitize_name (String "O" t)
  = String "O" (rstrip_by isspace (filter_str (fun c => negb (forbidden c)) t)).
Proof.
  unfold sanitize_name, strip.
  change (filter_str (fun c => negb (forbidden c)) (String "O" t))
    with (String "O" (filter_str (fun c => negb (forbidden c)) t)).
  cbn [rstrip_by]. cbv zeta.
  change (isspace "O") with false.
  rewrite andb_false_r. reflexivity.
Qed.

(** Every display name starts with the product's name. *)
Lemma build_display_name_O version_number game_versions version_type name :
  build_display_name version_number game_versions version_type = Ok name ->
  exists t, name = sanitize_name (String "O" t).
Proof.
  unfold build_display_name.
  destruct (format_modpack_version version_number) as [modver|]; [|discriminate].
  destruct (lowered_type version_type) as [vt|]; [|discriminate].
  intros H. injection H as <-.
  destruct (negb _); eexists; simpl; reflexivity.
Qed.

(** C10.  Whatever the version record holds, a folder name that
    [build_display_name] returns has none of the nine characters
    [sanitize_name] drops, neither starts nor ends with whitespace, is not
    empty, and is one path component: it has no separator, and joined to any
    download area it is the last component of the result.  For a record
    whose version number and type are strings a name is always returned. *)
Theorem build_display_name_single_component
    (version_number : value) (game_versions : string) (version_type : value) :
  (forall vn vt, version_number = VStr vn -> version_type = VStr vt ->
     exists name,
       build_display_name version_number game_versions version_type = Ok name)
  /\ (forall name,
        build_display_name version_number game_versions version_type = Ok name ->
        (forall c, In c forbidden_chars -> contains c name = false)
        /\ (forall c, first_char name = Some c -> isspace c = false)
        /\ (forall c, last_char name = Some c -> isspace c = false)
        /\ name <> ""
        /\ split_on "/" name = [name]
        /\ (forall d, PosixPath.basename (PosixPath.join d name) = name)).
Proof.
  split.
  - intros vn vt -> ->. unfold build_display_name.
    assert (Hm : exists m, format_modpack_version (VStr vn) = Ok m).
    { unfold format_modpack_version.
      destruct (negb (truthy (VStr vn))); [eauto|].
      destruct (contains "+" vn); eauto. }
    destruct Hm as [m ->].
    assert (Hl : exists l, lowered_type (VStr vt) = Ok l).
    { unfold lowered_type, py_or. destruct (truthy (VStr vt)); eauto. }
    destruct Hl as [l ->]. eauto.
  - intros name H.
    destruct (build_display_name_O _ _ _ _ H) as [t ->].
    assert (Hsep : contains "/" (sanitize_name (String "O" t)) = false).
    { apply sanitize_name_no_forbidden. simpl. tauto. }
    repeat split.
    + intros c. apply sanitize_name_no_forbidden.
    + apply sanitize_name_first.
    + apply sanitize_name_last.
    + rewrite sanitize_name_O. discriminate.
    + now apply split_on_single.
    + intros d. apply basename_join; [exact Hsep|].
      rewrite sanitize_name_O. discriminate.
Qed.

(** The theorem at the record of a beta release whose version carries a
    build prefix and a stray slash. *)
Lemma build_display_name_single_component_witness :
  build_display_name (VStr "1.21.4+2/1 ") "1.21.4" (VStr "BETA")
  = Ok "OptiFine for Fabric 21 [Minecraft 1.21.4] [Beta]"
  /\ split_on "/" "OptiFine for Fabric 21 [Minecraft 1.21.4] [Beta]"
     = ["OptiFine for Fabric 21 [Minecraft 1.21.4] [Beta]"].
Proof.
  assert (H : build_display_name (VStr "1.21.4+2/1 ") "1.21.4" (VStr "BETA")
              = Ok "OptiFine for Fabric 21 [Minecraft 1.21.4] [Beta]")
    by reflexivity.
  split; [exact H|].
  apply (proj2 (build_display_name_single_component
                  (VStr "1.21.4+2/1 ") "1.21.4" (VStr "BETA")) _ H).
Defined.

(** ** URL resolution *)

Lemma descriptor_url_cases f :
  descriptor_url f
  = match first_download f with
    | Some dl =>
        if truthy (mirror_url dl) then mirror_url dl else dict_get "url" f
    | None => dict_get "url" f
    end.
Proof.
  unfold descriptor_url, first_download, mirror_url.
  destruct (dict_get "downloads" f) as [| | | |l|]; try reflexivity.
  destruct l as [|dl l]; [reflexivity|].
  rewrite if_negb. reflexivity.
Qed.

Lemma truthy_str p : truthy (VStr p) = negb (is_empty p).
Proof. now destruct p. Qed.

(** A descriptor with a URL gets its turn. *)
Lemma manifest_file_carries base_dest f :
  truthy (descriptor_url f) = true -> carries base_dest f (descriptor_url f).
Proof.
  intros Hu. unfold carries, manifest_file. rewrite Hu. cbn [negb].
  repeat split.
  - destruct (if truthy _ then _ else _) as [rel|]; [|discriminate].
    destruct (lstrip_seps rel); discriminate.
  - intros url target.
    destruct (if truthy _ then _ else _) as [rel|]; [|discriminate].
    destruct (lstrip_seps rel); [|discriminate]. now intros [= <- _].
  - intros p -> Hp. rewrite truthy_str.
    destruct p as [|c p]; [now elim Hp|]. cbn [is_empty negb].
    eexists. split; reflexivity.
  - intros us -> Hus. rewrite Hus. cbn [basename_of].
    eexists. split; reflexivity.
Qed.

Lemma manifest_files_app base_dest pre post :
  manifest_files base_dest (pre ++ post)
  = match raised (manifest_files base_dest pre) with
    | Some e => manifest_files base_dest pre
    | None =>
        Generated
          (yielded (manifest_files base_dest pre)
             ++ yielded (manifest_files base_dest post))
          (raised (manifest_files base_dest post))
    end.
Proof.
  induction pre as [|f pre IH]; simpl.
  - now destruct (manifest_files base_dest post).
  - destruct (manifest_file base_dest f); [exact IH| |reflexivity].
    rewrite IH.
    destruct (manifest_files base_dest pre) as [ys [e|]]; reflexivity.
Qed.

Lemma iter_manifest_files_list base_dest l :
  iter_manifest_files (VDict [("files", VList l)]) base_dest
  = manifest_files base_dest l.
Proof. reflexivity. Qed.

(** C7.  The URL of a file descriptor is resolved as the specification
    says, and it decides the turn of the descriptor.  When the first
    element of a [downloads] list gives a URL (its [url] field if it is an
    object, itself otherwise), the turn produces an entry with that URL;
    when the mirrors give none and the descriptor's own [url] field does,
    with that one; when neither does, the turn ends without an item and
    without an exception, so the manifest yields what it would yield
    without the descriptor.  An item a descriptor yields is in the
    generator's output at the descriptor's place. *)
Theorem descriptor_without_url_is_skipped
    (base_dest : string) (f : list (string * value)) :
  (forall dl,
     first_download f = Some dl -> truthy (mirror_url dl) = true ->
     carries base_dest f (mirror_url dl))
  /\ (no_mirror f -> truthy (dict_get "url" f) = true ->
      carries base_dest f (dict_get "url" f))
  /\ (no_mirror f -> truthy (dict_get "url" f) = false ->
      manifest_file base_dest (VDict f) = Skip
      /\ forall pre post,
           iter_manifest_files
             (VDict [("files", VList (pre ++ VDict f :: post))]) base_dest
           = iter_manifest_files
               (VDict [("files", VList (pre ++ post))]) base_dest)
  /\ (forall u target pre post,
        manifest_file base_dest (VDict f) = Yield u target ->
        raised (manifest_files base_dest pre) = None ->
        iter_manifest_files
          (VDict [("files", VList (pre ++ VDict f :: post))]) base_dest
        = Generated
            (yielded (manifest_files base_dest pre)
               ++ (u, target) :: yielded (manifest_files base_dest post))
            (raised (manifest_files base_dest post))).
Proof.
  assert (Hno : no_mirror f -> descriptor_url f = dict_get "url" f).
  { intros Hn. rewrite descriptor_url_cases. unfold no_mirror in Hn.
    destruct (first_download f) as [dl|]; [|reflexivity].
    now rewrite (Hn dl eq_refl). }
  split; [|split; [|split]].
  - intros dl Hd Ht.
    assert (Hu : descriptor_url f = mirror_url dl).
    { now rewrite descriptor_url_cases, Hd, Ht. }
    rewrite <- Hu. apply manifest_file_carries. now rewrite Hu.
  - intros Hn Ht. rewrite <- (Hno Hn). apply manifest_file_carries.
    now rewrite (Hno Hn).
  - intros Hn Ht.
    assert (Hskip : manifest_file base_dest (VDict f) = Skip).
    { unfold manifest_file. now rewrite (Hno Hn), Ht. }
    split; [exact Hskip|]. intros pre post.
    rewrite !iter_manifest_files_list.
    assert (Hc : manifest_files base_dest (VDict f :: post)
                 = manifest_files base_dest post).
    { cbn [manifest_files]. now rewrite Hskip. }
    now rewrite (manifest_files_app _ pre (VDict f :: post)), Hc,
      <- manifest_files_app.
  - intros u target pre post Hy Hr.
    rewrite iter_manifest_files_list, manifest_files_app, Hr.
    cbn [manifest_files]. now rewrite Hy.
Qed.

(** The theorem at three descriptors: one whose first mirror is an object
    with a [url], one whose only mirror is an object without a [url] and
    which has a [url] of its own, and one with neither. *)
Lemma descriptor_without_url_is_skipped_witness :
  manifest_file "/mc"
    (VDict [("path", VStr "/mods/x.jar");
            ("downloads", VList [VDict [("url", VStr "https://a/x.jar")];
                                 VStr "https://b/x.jar"]);
            ("url", VStr "https://c/x.jar")])
  = Yield (VStr "https://a/x.jar") "/mc/mods/x.jar"
  /\ manifest_file "/mc"
       (VDict [("downloads", VList [VDict [("size", VNum 3)]]);
               ("url", VStr "https://c/y.jar")])
     = Yield (VStr "https://c/y.jar") "/mc/y.jar"
  /\ manifest_file "/mc"
       (VDict [("path", VStr "mods/z.jar");
               ("downloads", VList [VDict [("size", VNum 3)]])])
     = Skip.
Proof.
  split; [|split].
  - destruct (proj1 (descriptor_without_url_is_skipped "/mc"
                       [("path", VStr "/mods/x.jar");
                        ("downloads",
                         VList [VDict [("url", VStr "https://a/x.jar")];
                                VStr "https://b/x.jar"]);
                        ("url", VStr "https://c/x.jar")])
                (VDict [("url", VStr "https://a/x.jar")]) eq_refl eq_refl)
      as (_ & _ & Hp & _).
    destruct (Hp "/mods/x.jar" eq_refl ltac:(discriminate)) as (rel & Hl & Hy).
    injection Hl as <-. exact Hy.
  - destruct (proj1 (proj2 (descriptor_without_url_is_skipped "/mc"
                              [("downloads", VList [VDict [("size", VNum 3)]]);
                               ("url", VStr "https://c/y.jar")])))
      as (_ & _ & _ & Hb).
    + intros dl [= <-]. reflexivity.
    + reflexivity.
    + destruct (Hb "https://c/y.jar" eq_refl eq_refl) as (rel & Hl & Hy).
      injection Hl as <-. exact Hy.
  - apply (proj1 (proj2 (proj2 (descriptor_without_url_is_skipped "/mc"
                                  [("path", VStr "mods/z.jar");
                                   ("downloads",
                                    VList [VDict [("size", VNum 3)]])])))).
    + intros dl [= <-]. reflexivity.
    + reflexivity.
Defined.

(** ** Destinations *)

Lemma prefix_append a b : String.prefix a (a ++ b) = true.
Proof.
  induction a as [|c a IH]; [now destruct b|].
  change (String.prefix (String c a) (String c a ++ b))
    with (if ascii_dec c c then String.prefix a (a ++ b) else false).
  now destruct (ascii_dec c c).
Qed.

Lemma join_starts_with_root a b :
  startswith "/" b = false -> startswith a (PosixPath.join a b) = true.
Proof.
  intros Hb. unfold PosixPath.join. rewrite Hb. unfold startswith.
  destruct (is_empty a || endswith_char PosixPath.sep a);
    apply prefix_append.
Qed.

Lemma lstrip_seps_relative rel r :
  lstrip_seps rel = Ok r -> startswith "/" r = false.
Proof.
  destruct rel as [| | |s| |]; try discriminate. simpl. intros [= <-].
  assert (H : first_char
                (lstrip_by (fun c => Ascii.eqb c "/" || Ascii.eqb c "\") s)
              <> Some "/"%char).
  { intros H. apply lstrip_first in H. discriminate. }
  destruct (lstrip_by _ s) as [|c r]; [reflexivity|].
  unfold startswith.
  change (String.prefix "/" (String c r))
    with (if ascii_dec "/"%char c then String.prefix "" r else false).
  destruct (ascii_dec "/"%char c) as [<-|]; [now elim H | reflexivity].
Qed.

(** What stripping the leading separators does achieve: as a text, every
    destination starts with the destination root. *)
Lemma destination_starts_with_root base_dest f url target :
  manifest_file base_dest f = Yield url target ->
  startswith base_dest target = true.
Proof.
  unfold manifest_file. destruct f as [| | | | |d]; try discriminate.
  destruct (negb (truthy (descriptor_url d))); [discriminate|].
  destruct (if truthy _ then _ else _) as [rel|]; [|discriminate].
  destruct (lstrip_seps rel) as [r|] eqn:Hr; [|discriminate].
  intros [= _ <-]. apply join_starts_with_root.
  exact (lstrip_seps_relative _ _ Hr).
Qed.

(** C1 fails on the code.  Only leading separators are stripped from a
    manifest path, so one that climbs with [..] is joined to the
    destination root as it is: the item's destination resolves outside the
    root. *)
Theorem traversal_leaves_destination_root :
  iter_manifest_files traversal_manifest "/home/u/.minecraft"
  = Generated
      [(VStr "https://cdn/keys",
        "/home/u/.minecraft/../../.ssh/authorized_keys")] None
  /\ PosixPath.normpath "/home/u/.minecraft/../../.ssh/authorized_keys"
     = "/home/.ssh/authorized_keys"
  /\ PosixPath.inside "/" "/home/u/.minecraft"
       "/home/u/.minecraft/../../.ssh/authorized_keys" = false.
Proof. repeat split; reflexivity. Qed.

(** ** Planning *)

Section Planning.

Variable E : env.

Lemma set_LOG_same (s : state) : set_LOG (LOG s) s = s.
Proof. now destruct s. Qed.

(** A destination that exists has a relative path to log. *)
Lemma relpath_of_existing target dest s :
  path_exists E target s = true ->
  exists rel, PosixPath.relpath (cwd E) target dest = Ok rel.
Proof.
  unfold path_exists, lookup, resolve, PosixPath.relpath.
  destruct (is_empty target); [discriminate|]. intros _.
  destruct (_ ++ _); eauto.
Qed.

Lemma skip_notice_ok dest target rel :
  PosixPath.relpath (cwd E) target dest = Ok rel ->
  skip_notice E dest target = ("USER", [T "Skipping existing "; T rel]).
Proof. intros H. unfold skip_notice. now rewrite H. Qed.

Lemma skipped_cons s url target items :
  skipped E s ((url, target) :: items)
  = if path_exists E target s then (url, target) :: skipped E s items
    else skipped E s items.
Proof. reflexivity. Qed.

Lemma kept_cons s url target items :
  kept E s ((url, target) :: items)
  = if path_exists E target s then kept E s items
    else (url, target) :: kept E s items.
Proof. unfold kept. cbn. now destruct (path_exists E target s). Qed.

Lemma plan_loop_spec dest items :
  forall urls targets s,
    plan_loop E dest false items urls targets s
    = (Ret (urls ++ map fst (kept E s items), targets ++ map snd (kept E s items)),
       set_LOG (LOG s ++ skip_notices E dest s items) s).
Proof.
  induction items as [|[url target] items IH]; intros urls targets s.
  - unfold skip_notices. simpl. rewrite !app_nil_r, set_LOG_same. reflexivity.
  - cbn [plan_loop]. unfold bind at 1. unfold os_path_exists at 1.
    unfold skip_notices. rewrite kept_cons, skipped_cons.
    destruct (path_exists E target s) eqn:Hex.
    + destruct (relpath_of_existing target dest s Hex) as [rel Hrel].
      unfold bind, lift, log. rewrite Hrel. unfold ret.
      etransitivity; [apply IH|].
      cbn [map snd]. rewrite (skip_notice_ok _ _ _ Hrel).
      cbn [LOG set_LOG]. rewrite <- app_assoc. reflexivity.
    + etransitivity; [apply IH|].
      cbn [map fst snd]. rewrite <- !app_assoc. reflexivity.
Qed.

Lemma build_plan_spec manifest dest s :
  build_plan E manifest dest false s
  = (match raised (iter_manifest_files manifest dest) with
     | None =>
         Ret (map fst (kept E s (yielded (iter_manifest_files manifest dest))),
              map snd (kept E s (yielded (iter_manifest_files manifest dest))))
     | Some e => Raise e
     end,
     set_LOG
       (LOG s ++ skip_notices E dest s
                   (yielded (iter_manifest_files manifest dest))) s).
Proof.
  unfold build_plan, bind. rewrite plan_loop_spec. cbn [app].
  destruct (raised (iter_manifest_files manifest dest)); reflexivity.
Qed.

(** C2 as the code has it.  When the generator goes through the file list
    without an exception, the plan built with [overwrite=False] is its
    items whose destination does not exist, in order: an item is kept
    exactly when the manifest yields it (its descriptor resolves to a URL)
    and its destination is absent; and the log grows by one "Skipping
    existing" notice per item passed over, nothing else.  When the
    generator ends in an exception, at a member of the list that is
    malformed, the notices of the items before it are logged and planning
    raises: no entry is planned. *)
Theorem build_plan_skips_exactly_existing
    (manifest : value) (dest : string) (s : state) :
  (raised (iter_manifest_files manifest dest) = None ->
   build_plan E manifest dest false s
   = (Ret (map fst (kept E s (yielded (iter_manifest_files manifest dest))),
           map snd (kept E s (yielded (iter_manifest_files manifest dest)))),
      set_LOG
        (LOG s ++ skip_notices E dest s
                    (yielded (iter_manifest_files manifest dest))) s)
   /\ (forall url target,
         In (url, target)
            (kept E s (yielded (iter_manifest_files manifest dest)))
         <-> In (url, target) (yielded (iter_manifest_files manifest dest))
             /\ path_exists E target s = false)
   /\ List.length
        (skip_notices E dest s (yielded (iter_manifest_files manifest dest)))
      = List.length
          (skipped E s (yielded (iter_manifest_files manifest dest)))
   /\ (forall url target,
         In (url, target)
            (skipped E s (yielded (iter_manifest_files manifest dest))) ->
         exists rel,
           PosixPath.relpath (cwd E) target dest = Ok rel
           /\ In ("USER", [T "Skipping existing "; T rel])
                 (skip_notices E dest s
                    (yielded (iter_manifest_files manifest dest)))))
  /\ (forall e,
        raised (iter_manifest_files manifest dest) = Some e ->
        build_plan E manifest dest false s
        = (Raise e,
           set_LOG
             (LOG s ++ skip_notices E dest s
                         (yielded (iter_manifest_files manifest dest))) s)).
Proof.
  pose proof (build_plan_spec manifest dest s) as Hb. split.
  - intros Hr. rewrite Hr in Hb. split; [exact Hb|]. split; [|split].
    + intros url target. unfold kept. rewrite filter_In. cbn [snd].
      now destruct (path_exists E target s).
    + unfold skip_notices. apply length_map.
    + intros url target Hin.
      assert (Hex : path_exists E target s = true).
      { unfold skipped in Hin. apply filter_In in Hin. tauto. }
      destruct (relpath_of_existing target dest s Hex) as [rel Hrel].
      exists rel. split; [exact Hrel|].
      unfold skip_notices. apply in_map_iff. exists (url, target).
      split; [|exact Hin]. unfold skip_notice. cbn [snd]. now rewrite Hrel.
  - intros e Hr. now rewrite Hr in Hb.
Qed.

End Planning.

(** ** What a call leaves of the network record *)

Section NoRequests.

Variable E : env.


Lemma sends_nothing_raise {A} (e : exn) : sends_nothing (@raise A e).
Proof. intros s out s' H. now inversion H. Qed.










(** C9.  Without an [overrides] directory in the extracted archive
    [apply_overrides_with_rich] returns at once: the disk and everything
    else stay as they were, no copy is tried, and the log gains one entry,
    the notice of level COMMENT. *)
Theorem apply_overrides_without_directory
    (td dest : string) (s : state) :
  path_isdir E (PosixPath.join td "overrides") s = false ->
  apply_overrides_with_rich E td dest s
  = (Ret tt,
     {| LOG := LOG s ++ [("COMMENT", [T "No overrides directory present"])];
        disk := disk s;
        requests := requests s;
        spawned := spawned s |}).
Proof.
  intros H. unfold apply_overrides_with_rich, bind. now rewrite H.
Qed.


End NoRequests.

(** ** The file system *)

Lemma assoc_set_entry_same c (m : node) es : assoc c (set_entry c m es) = Some m.
Proof.
  induction es as [|[k v] es IH]; simpl.
  - now rewrite String.eqb_refl.
  - destruct (String.eqb c k) eqn:Hk; simpl.
    + now rewrite String.eqb_refl.
    + now rewrite Hk.
Qed.

Lemma assoc_set_entry_other c c' (m : node) es :
  String.eqb c' c = false -> assoc c' (set_entry c m es) = assoc c' es.
Proof.
  intros Hc. induction es as [|[k v] es IH]; simpl.
  - now rewrite Hc.
  - destruct (String.eqb c k) eqn:Hk; simpl.
    + apply String.eqb_eq in Hk. subst k. now rewrite Hc.
    + now rewrite IH.
Qed.

Lemma assoc_del_entry_same c es : assoc c (del_entry c es) = None.
Proof.
  induction es as [|[k v] es IH]; simpl; [reflexivity|].
  destruct (String.eqb c k) eqn:Hk; simpl; [exact IH|]. now rewrite Hk.
Qed.

Lemma assoc_del_entry_other c c' es :
  String.eqb c' c = false -> assoc c' (del_entry c es) = assoc c' es.
Proof.
  intros Hc. induction es as [|[k v] es IH]; simpl; [reflexivity|].
  destruct (String.eqb c k) eqn:Hk; simpl.
  - apply String.eqb_eq in Hk. subst k. now rewrite Hc.
  - now rewrite IH.
Qed.

Lemma assoc_put_entry_same c o es : assoc c (put_entry c o es) = o.
Proof.
  destruct o as [m|]; [apply assoc_set_entry_same | apply assoc_del_entry_same].
Qed.

Lemma assoc_put_entry_other c c' o es :
  String.eqb c' c = false -> assoc c' (put_entry c o es) = assoc c' es.
Proof.
  destruct o as [m|];
    [apply assoc_set_entry_other | apply assoc_del_entry_other].
Qed.

(** The node below an entry of a directory. *)
Lemma fs_lookup_cons c q es :
  fs_lookup (c :: q) (Dir es)
  = match assoc c es with Some m => fs_lookup q m | None => None end.
Proof. reflexivity. Qed.

Lemma fs_lookup_app q : forall c root,
  fs_lookup (q ++ [c]) root
  = match fs_lookup q root with
    | Some (Dir es) => assoc c es
    | _ => None
    end.
Proof.
  induction q as [|k q IH]; intros c root.
  - destruct root as [d|es]; [reflexivity|]. cbn.
    now destruct (assoc c es).
  - destruct root as [d|es]; [reflexivity|]. cbn [app fs_lookup].
    destruct (assoc k es) as [m|]; [apply IH | reflexivity].
Qed.

(** The parent of a directory is a directory. *)
Lemma fs_isdir_parent q root :
  fs_isdir q root = true -> fs_isdir (removelast q) root = true.
Proof.
  destruct q as [|c q] using rev_ind; [easy|].
  rewrite removelast_last. unfold fs_isdir. rewrite fs_lookup_app.
  destruct (fs_lookup q root) as [[d|es]|]; easy.
Qed.

(** Reading a path back after a change of the entry it names. *)
Lemma fs_alter_ok f q : forall root root',
  fs_alter q f root = Ok root' ->
  exists r, f (fs_lookup q root) = Ok r /\ fs_lookup q root' = r.
Proof.
  induction q as [|c q IH]; intros root root' H; [discriminate|].
  cbn [fs_alter] in H. destruct root as [d|es]; [discriminate|].
  destruct q as [|c2 q].
  - destruct (f (assoc c es)) as [o|] eqn:Ho; [|discriminate].
    injection H as <-. exists o. cbn [fs_lookup].
    rewrite assoc_put_entry_same.
    split; [now destruct (assoc c es) | now destruct o].
  - destruct (assoc c es) as [m0|] eqn:Hm0; [|discriminate].
    destruct (fs_alter (c2 :: q) f m0) as [m'|] eqn:Hm; [|discriminate].
    injection H as <-. destruct (IH _ _ Hm) as (r & Hr & Hl).
    exists r. rewrite !fs_lookup_cons, Hm0, assoc_set_entry_same. now split.
Qed.

(** A change goes through when the directory of the entry is there. *)
Lemma fs_alter_defined f c r par : forall root es,
  fs_lookup par root = Some (Dir es) -> f (assoc c es) = Ok r ->
  exists root', fs_alter (par ++ [c]) f root = Ok root'.
Proof.
  induction par as [|k par IH]; intros root es Hl Hf.
  - cbn in Hl. injection Hl as ->. cbn. rewrite Hf. eauto.
  - destruct root as [d|es0]; [discriminate|]. rewrite fs_lookup_cons in Hl.
    destruct (assoc k es0) as [m|] eqn:Hm; [|discriminate].
    destruct (IH _ _ Hl Hf) as [m' Hm'].
    cbn [app fs_alter]. rewrite Hm.
    destruct (par ++ [c]) as [|x l] eqn:Hp; [now destruct par|].
    rewrite Hm'. eauto.
Qed.

Lemma fs_le_refl a : fs_le a a.
Proof. intros q. now split. Qed.

Lemma fs_le_trans a b c : fs_le a b -> fs_le b c -> fs_le a c.
Proof.
  intros H1 H2 q. destruct (H1 q) as [D1 X1]. destruct (H2 q) as [D2 X2].
  split; auto.
Qed.

Lemma fs_le_entry c es es' :
  (forall k, String.eqb k c = false -> assoc k es' = assoc k es) ->
  (forall q,
     (fs_isdir (c :: q) (Dir es) = true -> fs_isdir (c :: q) (Dir es') = true)
     /\ (fs_exists (c :: q) (Dir es) = true ->
         fs_exists (c :: q) (Dir es') = true)) ->
  fs_le (Dir es) (Dir es').
Proof.
  intros Hother Hsame [|k q]; [now split|].
  destruct (String.eqb k c) eqn:Hk.
  - apply String.eqb_eq in Hk. subst k. apply Hsame.
  - unfold fs_isdir, fs_exists. rewrite !fs_lookup_cons, (Hother _ Hk).
    now split.
Qed.

(** Making an entry, or replacing a regular file, takes nothing away. *)
Lemma fs_alter_grows f q :
  creates f ->
  forall root root', fs_alter q f root = Ok root' -> fs_le root root'.
Proof.
  intros Hf. induction q as [|c q IH]; intros root root' H; [discriminate|].
  cbn [fs_alter] in H. destruct root as [d|es]; [discriminate|].
  destruct q as [|c2 q].
  - destruct (f (assoc c es)) as [o|] eqn:Ho; [|discriminate].
    injection H as <-. destruct (Hf _ _ Ho) as [Hr Hnd].
    apply (fs_le_entry c).
    + intros k Hk. now apply assoc_put_entry_other.
    + intros p. unfold fs_isdir, fs_exists.
      rewrite !fs_lookup_cons, assoc_put_entry_same.
      destruct (assoc c es) as [[d|es0]|]; [| now elim (Hnd es0) | now split].
      destruct o as [m|]; [|now elim Hr].
      destruct p; cbn; now split.
  - destruct (assoc c es) as [m0|] eqn:Hm0; [|discriminate].
    destruct (fs_alter (c2 :: q) f m0) as [m'|] eqn:Hm; [|discriminate].
    injection H as <-. pose proof (IH _ _ Hm) as Hle.
    apply (fs_le_entry c).
    + intros k Hk. now apply assoc_set_entry_other.
    + intros p. unfold fs_isdir, fs_exists.
      rewrite !fs_lookup_cons, assoc_set_entry_same, Hm0. apply Hle.
Qed.

(** Taking an entry away adds nothing. *)
Lemma fs_alter_shrinks f q :
  removes f ->
  forall root root', fs_alter q f root = Ok root' -> fs_le root' root.
Proof.
  intros Hf. induction q as [|c q IH]; intros root root' H; [discriminate|].
  cbn [fs_alter] in H. destruct root as [d|es]; [discriminate|].
  destruct q as [|c2 q].
  - destruct (f (assoc c es)) as [o|] eqn:Ho; [|discriminate].
    injection H as <-. rewrite (Hf _ _ Ho).
    apply (fs_le_entry c).
    + intros k Hk. symmetry. now apply (assoc_put_entry_other c k None).
    + intros p. unfold fs_isdir, fs_exists.
      rewrite !fs_lookup_cons, (assoc_put_entry_same c None). now split.
  - destruct (assoc c es) as [m0|] eqn:Hm0; [|discriminate].
    destruct (fs_alter (c2 :: q) f m0) as [m'|] eqn:Hm; [|discriminate].
    injection H as <-. pose proof (IH _ _ Hm) as Hle.
    apply (fs_le_entry c).
    + intros k Hk. symmetry. now apply assoc_set_entry_other.
    + intros p. unfold fs_isdir, fs_exists.
      rewrite !fs_lookup_cons, assoc_set_entry_same, Hm0. apply Hle.
Qed.

(** A path that can be walked on a disk can be walked, to the same node,
    on a disk that has all of it. *)
Lemma fs_walk_le a b :
  fs_le a b ->
  forall cs here r, fs_walk a here cs = Ok r -> fs_walk b here cs = Ok r.
Proof.
  intros Hle. induction cs as [|c cs IH]; intros here r; [easy|].
  cbn [fs_walk]. destruct (fs_isdir here a) eqn:Hd; [|discriminate].
  rewrite (proj1 (Hle here) Hd). cbn [negb].
  destruct (is_dot c); [apply IH|]. destruct (is_dotdot c); [apply IH|].
  destruct (fs_exists (here ++ [c]) a) eqn:He; [|discriminate].
  rewrite (proj2 (Hle _) He). apply IH.
Qed.

Lemma fs_walk_app root cs1 : forall here cs2,
  fs_walk root here (cs1 ++ cs2)
  = match fs_walk root here cs1 with
    | Ok q => fs_walk root q cs2
    | Err e => Err e
    end.
Proof.
  induction cs1 as [|c cs1 IH]; intros here cs2; [reflexivity|].
  cbn [app fs_walk]. destruct (negb (fs_isdir here root)); [reflexivity|].
  destruct (is_dot c); [apply IH|]. destruct (is_dotdot c); [apply IH|].
  destruct (fs_exists (here ++ [c]) root); [apply IH | reflexivity].
Qed.

(** The last step of a walk. *)
Lemma fs_walk_last root here c q :
  fs_walk root here [c] = Ok q ->
  fs_isdir here root = true
  /\ ((is_dot c = true /\ q = here)
      \/ (is_dot c = false /\ is_dotdot c = true /\ q = removelast here)
      \/ (is_dot c = false /\ is_dotdot c = false /\ q = here ++ [c]
          /\ fs_exists q root = true)).
Proof.
  cbn [fs_walk]. destruct (fs_isdir here root); [|discriminate]. cbn [negb].
  split; [reflexivity|].
  destruct (is_dot c); [injection H as <-; now left|].
  destruct (is_dotdot c); [injection H as <-; right; now left|].
  destruct (fs_exists (here ++ [c]) root) eqn:He; [|discriminate].
  injection H as <-. right. right. now repeat split.
Qed.

(** A walk ends at a node that exists, if it started at one. *)
Lemma fs_walk_exists root cs : forall here q,
  fs_exists here root = true -> fs_walk root here cs = Ok q ->
  fs_exists q root = true.
Proof.
  induction cs as [|c cs IH]; intros here q Hx H.
  - now injection H as <-.
  - cbn [fs_walk] in H. destruct (fs_isdir here root) eqn:Hd; [|discriminate].
    cbn [negb] in H. destruct (is_dot c); [exact (IH _ _ Hx H)|].
    destruct (is_dotdot c).
    + apply (IH (removelast here)); [|exact H].
      apply fs_isdir_parent in Hd. unfold fs_isdir, fs_exists in *.
      now destruct (fs_lookup (removelast here) root) as [[?|?]|].
    + destruct (fs_exists (here ++ [c]) root) eqn:He; [|discriminate].
      exact (IH _ _ He H).
Qed.

Lemma drop_trailing_empty_nil cs :
  drop_trailing_empty cs = [] -> forall c, In c cs -> c = "".
Proof.
  induction cs as [|a cs IH]; intros H c Hin; [easy|].
  cbn [drop_trailing_empty] in H.
  destruct (drop_trailing_empty cs) eqn:Hd; [|discriminate].
  destruct a; [|discriminate]. destruct Hin as [<-|Hin]; [reflexivity|].
  now apply IH.
Qed.

(** A path that ends in a component that is not empty has no separator at
    its end. *)
Lemma drop_trailing_empty_last cs c :
  is_empty c = false -> drop_trailing_empty (cs ++ [c]) = cs ++ [c].
Proof.
  intros Hc. induction cs as [|a cs IH]; cbn [app drop_trailing_empty].
  - now rewrite Hc.
  - rewrite IH. now destruct (cs ++ [c]) eqn:Hd; [destruct cs|].
Qed.

Lemma drop_trailing_empty_same cs :
  List.length (drop_trailing_empty cs) = List.length cs ->
  drop_trailing_empty cs = cs.
Proof.
  assert (Hle : forall l, (List.length (drop_trailing_empty l)
                           <= List.length l)%nat).
  { induction l as [|a l IH]; [easy|]. cbn [drop_trailing_empty].
    destruct (drop_trailing_empty l); [destruct (is_empty a)|]; cbn in *; lia. }
  induction cs as [|a cs IH]; [easy|]. cbn [drop_trailing_empty].
  pose proof (Hle cs) as Hl.
  destruct (drop_trailing_empty cs) as [|x l] eqn:Hd.
  - destruct (is_empty a); cbn; intros H.
    + lia.
    + destruct cs; [reflexivity | cbn in H; lia].
  - cbn [List.length]. intros H. rewrite IH; [reflexivity|].
    cbn [List.length]. lia.
Qed.

Lemma drop_trailing_empty_decomp cs :
  exists k, cs = drop_trailing_empty cs ++ repeat "" k.
Proof.
  induction cs as [|a cs [k IH]]; [now exists 0|].
  cbn [drop_trailing_empty].
  destruct (drop_trailing_empty cs) as [|x l] eqn:Hd.
  - destruct a as [|ch a]; cbn [is_empty].
    + exists (S k). cbn. now rewrite IH at 1.
    + exists k. cbn. now rewrite IH at 1.
  - exists k. cbn. now rewrite IH at 1.
Qed.

Lemma fs_walk_empties root here q k :
  fs_walk root here (repeat "" k) = Ok q -> q = here.
Proof.
  induction k as [|k IH]; cbn [repeat fs_walk]; [now intros [= <-]|].
  destruct (negb (fs_isdir here root)); [discriminate|]. exact IH.
Qed.

Lemma fs_walk_empties_dir root here k :
  fs_isdir here root = true -> fs_walk root here (repeat "" k) = Ok here.
Proof.
  intros Hd. induction k as [|k IH]; cbn [repeat fs_walk]; [reflexivity|].
  now rewrite Hd.
Qed.

Lemma names_entry_split cs :
  names_entry cs = true ->
  drop_trailing_empty cs
  = removelast (drop_trailing_empty cs) ++ [last_step cs]
  /\ is_dot (last_step cs) = false /\ is_dotdot (last_step cs) = false.
Proof.
  unfold names_entry, last_step. intros H.
  apply negb_true_iff, orb_false_iff in H as [Hd Hdd].
  repeat split; try assumption.
  destruct (drop_trailing_empty cs) as [|a l] eqn:Hc; [discriminate Hd|].
  apply app_removelast_last. discriminate.
Qed.

(** Where a walk ends that the last component of the path decides. *)
Lemma fs_walk_names_entry root cs q :
  names_entry cs = true -> fs_walk root [] cs = Ok q ->
  exists par,
    q = par ++ [last_step cs]
    /\ fs_parent cs root = Ok par
    /\ fs_exists q root = true
    /\ (trailing_slash cs = true -> fs_isdir q root = true).
Proof.
  intros Hn H. destruct (names_entry_split _ Hn) as (Hs & Hd & Hdd).
  destruct (drop_trailing_empty_decomp cs) as [k Hk].
  unfold fs_parent, trailing_slash.
  rewrite Hk, Hs, !fs_walk_app in H.
  destruct (fs_walk root [] (removelast (drop_trailing_empty cs)))
    as [par|] eqn:Hp; [|discriminate].
  destruct (fs_walk root par [last_step cs]) as [q1|] eqn:H1; [|discriminate].
  apply fs_walk_last in H1 as (Hpd & [[Hx _]|[(_ & Hx & _)|(_ & _ & -> & He)]]);
    try congruence.
  pose proof (fs_walk_empties _ _ _ _ H) as ->.
  exists par. rewrite Hpd. repeat split; try assumption.
  intros Ht. destruct k as [|k].
  - cbn in Hk. rewrite app_nil_r in Hk. rewrite <- Hk, Nat.eqb_refl in Ht.
    discriminate.
  - cbn [repeat fs_walk] in H.
    now destruct (fs_isdir (par ++ [last_step cs]) root).
Qed.

(** A walk that ends on [.], on [..] or on the root ends at a directory. *)
Lemma fs_walk_names_dir root cs q :
  cs <> [] -> names_entry cs = false -> fs_walk root [] cs = Ok q ->
  fs_isdir q root = true.
Proof.
  intros Hne Hn H. unfold names_entry, last_step in Hn.
  apply negb_false_iff in Hn.
  destruct (drop_trailing_empty_decomp cs) as [k Hk].
  destruct (drop_trailing_empty cs) as [|a l] eqn:Hc.
  - cbn in Hk. destruct k as [|k]; [now elim Hne|]. rewrite Hk in H.
    cbn [repeat fs_walk] in H.
    destruct (fs_isdir [] root) eqn:Hr; [|discriminate].
    now rewrite (fs_walk_empties _ _ _ _ H).
  - assert (Hs : a :: l = removelast (a :: l) ++ [last (a :: l) ""])
      by (apply app_removelast_last; discriminate).
    rewrite Hk, Hs, !fs_walk_app in H.
    destruct (fs_walk root [] (removelast (a :: l))) as [par|]; [|discriminate].
    destruct (fs_walk root par [last (a :: l) ""]) as [q1|] eqn:H1;
      [|discriminate].
    pose proof (fs_walk_empties _ _ _ _ H) as ->.
    apply fs_walk_last in H1
      as (Hpd & [[_ ->]|[(_ & _ & ->)|(Hx & Hy & _)]]).
    + exact Hpd.
    + now apply fs_isdir_parent.
    + rewrite Hx, Hy in Hn. discriminate.
Qed.

Lemma split_on_nonempty c s : split_on c s <> [].
Proof.
  destruct s as [|a s]; [discriminate|]. cbn.
  destruct (Ascii.eqb a c); [discriminate|]. now destruct (split_on c s).
Qed.

Lemma put_file_creates data : creates (put_file data).
Proof. intros [[d|es]|] r; cbn; intros [= <-]; split; congruence. Qed.

Lemma make_dir_creates : creates make_dir.
Proof. intros [m|] r; cbn; intros [= <-]; split; congruence. Qed.

Lemma unlink_file_removes : removes unlink_file.
Proof. intros [[d|es]|] r; cbn; congruence. Qed.

Lemma unlink_dir_removes : removes unlink_dir.
Proof. intros [[d|es]|] r; cbn; congruence. Qed.

(** After an entry was made at the place a path names, the path leads to
    it. *)
Lemma fs_walk_to_entry f root root' cs par :
  creates f ->
  names_entry cs = true -> fs_parent cs root = Ok par ->
  fs_alter (par ++ [last_step cs]) f root = Ok root' ->
  trailing_slash cs = false
  \/ fs_isdir (par ++ [last_step cs]) root' = true ->
  fs_walk root' [] cs = Ok (par ++ [last_step cs]) /\ fs_le root root'.
Proof.
  intros Hf Hn Hp Ha Ht.
  pose proof (fs_alter_grows _ _ Hf _ _ Ha) as Hle. split; [|exact Hle].
  destruct (names_entry_split _ Hn) as (Hs & Hd & Hdd).
  destruct (drop_trailing_empty_decomp cs) as [k Hk].
  unfold fs_parent in Hp.
  destruct (fs_walk root [] (removelast (drop_trailing_empty cs)))
    as [p|] eqn:Hw; [|discriminate].
  destruct (fs_isdir p root) eqn:Hpd; [|discriminate]. injection Hp as ->.
  destruct (fs_alter_ok _ _ _ _ Ha) as (r & Hr & Hl).
  assert (He : fs_exists (par ++ [last_step cs]) root' = true).
  { unfold fs_exists. rewrite Hl. destruct r; [reflexivity|].
    now elim (proj1 (Hf _ _ Hr)). }
  assert (H1 : fs_walk root' [] (drop_trailing_empty cs)
               = Ok (par ++ [last_step cs])).
  { rewrite Hs, fs_walk_app, (fs_walk_le _ _ Hle _ _ _ Hw).
    cbn [fs_walk]. rewrite (proj1 (Hle par) Hpd), Hd, Hdd, He. reflexivity. }
  rewrite Hk at 1. rewrite fs_walk_app, H1.
  destruct Ht as [Ht|Ht].
  - unfold trailing_slash in Ht. apply negb_false_iff, Nat.eqb_eq in Ht.
    apply drop_trailing_empty_same in Ht. rewrite Ht in Hk.
    destruct k as [|k]; [reflexivity|].
    apply (f_equal (@List.length string)) in Hk.
    rewrite length_app in Hk. cbn in Hk. lia.
  - now apply fs_walk_empties_dir.
Qed.

Section Paths.

Variable E : env.

Lemma steps_nonempty p : steps E p <> [].
Proof. apply split_on_nonempty. Qed.

(** A path that leads somewhere still does on a disk that has all of the
    first, and to a directory if it did. *)
Lemma resolve_le a b p :
  fs_le a b ->
  (resolve E p a <> None -> resolve E p b <> None)
  /\ (isdir_in E p a = true -> isdir_in E p b = true).
Proof.
  intros Hle. unfold isdir_in, resolve. destruct (is_empty p); [easy|].
  destruct (fs_walk a [] (steps E p)) as [q|] eqn:Hw; [|easy].
  rewrite (fs_walk_le _ _ Hle _ _ _ Hw).
  destruct (Hle q) as [Hd Hx]. unfold fs_isdir, fs_exists in Hd, Hx.
  destruct (fs_lookup q a) as [[d|es]|]; try easy.
  - split; [|easy]. intros _. specialize (Hx eq_refl).
    now destruct (fs_lookup q b).
  - specialize (Hd eq_refl). now destruct (fs_lookup q b) as [[?|?]|].
Qed.

Lemma resolve_absent a b p :
  fs_le b a -> resolve E p a = None -> resolve E p b = None.
Proof.
  intros Hle Ha. destruct (resolve E p b) eqn:Hb; [|reflexivity].
  exfalso. apply (proj1 (resolve_le _ _ p Hle)); [congruence | exact Ha].
Qed.

(** What a path that leads to a regular file looks like. *)
Lemma resolve_file t d root :
  resolve E t root = Some (File d) ->
  is_empty t = false
  /\ names_entry (steps E t) = true
  /\ trailing_slash (steps E t) = false
  /\ exists par,
       fs_parent (steps E t) root = Ok par
       /\ fs_walk root [] (steps E t) = Ok (par ++ [last_step (steps E t)])
       /\ fs_lookup (par ++ [last_step (steps E t)]) root = Some (File d).
Proof.
  unfold resolve. destruct (is_empty t); [discriminate|].
  destruct (fs_walk root [] (steps E t)) as [q|] eqn:Hw; [|discriminate].
  intros Hl. split; [reflexivity|].
  destruct (names_entry (steps E t)) eqn:Hn.
  - destruct (fs_walk_names_entry _ _ _ Hn Hw) as (par & -> & Hp & _ & Ht).
    split; [reflexivity|]. split.
    + destruct (trailing_slash (steps E t)); [|reflexivity].
      specialize (Ht eq_refl). unfold fs_isdir in Ht. now rewrite Hl in Ht.
    + now exists par.
  - pose proof (fs_walk_names_dir _ _ _ (steps_nonempty t) Hn Hw) as Hd.
    unfold fs_isdir in Hd. now rewrite Hl in Hd.
Qed.

(** [open(t, "wb")] and a write that went through: the path leads to the
    file with its new bytes, and nothing else is gone. *)
Lemma fs_create_read_back t data root root' :
  fs_create (steps E t) data root = Ok root' -> is_empty t = false ->
  resolve E t root' = Some (File data) /\ fs_le root root'.
Proof.
  unfold fs_create. intros H Ht.
  destruct (fs_parent (steps E t) root) as [par|] eqn:Hp; [|discriminate].
  destruct (trailing_slash (steps E t) || negb (names_entry (steps E t)))
    eqn:Hw; [discriminate|].
  apply orb_false_iff in Hw as [Hts Hn]. apply negb_false_iff in Hn.
  destruct (fs_walk_to_entry _ _ _ _ _ (put_file_creates data) Hn Hp H
              (or_introl Hts)) as [Hwalk Hle].
  split; [|exact Hle]. unfold resolve. rewrite Ht, Hwalk.
  destruct (fs_alter_ok _ _ _ _ H) as (r & Hr & ->).
  destruct (fs_lookup _ root) as [[?|?]|]; cbn in Hr; congruence.
Qed.

(** A file that is there can be written again. *)
Lemma fs_create_existing t d data root :
  resolve E t root = Some (File d) ->
  exists root', fs_create (steps E t) data root = Ok root'.
Proof.
  intros H.
  destruct (resolve_file _ _ _ H) as (_ & Hn & Hts & par & Hp & _ & Hl).
  unfold fs_create. rewrite Hp, Hts, Hn. cbn [negb orb].
  unfold fs_parent in Hp.
  destruct (fs_walk root [] _) as [p|]; [|discriminate].
  destruct (fs_isdir p root) eqn:Hd; [|discriminate]. injection Hp as ->.
  unfold fs_isdir in Hd.
  destruct (fs_lookup par root) as [[?|es]|] eqn:Hpar; try discriminate.
  apply (fs_alter_defined _ _ (Some (File data)) _ _ es Hpar).
  rewrite fs_lookup_app, Hpar in Hl. now rewrite Hl.
Qed.

(** [os.mkdir] that went through: the path leads to a directory. *)
Lemma fs_mkdir_read_back name root root' :
  fs_mkdir (steps E name) root = Ok root' -> is_empty name = false ->
  isdir_in E name root' = true /\ fs_le root root'.
Proof.
  unfold fs_mkdir. intros H Hne.
  destruct (names_entry (steps E name)) eqn:Hn.
  - destruct (fs_parent (steps E name) root) as [par|] eqn:Hp; [|discriminate].
    destruct (fs_alter_ok _ _ _ _ H) as (r & Hr & Hl).
    assert (Hd : fs_lookup (par ++ [last_step (steps E name)]) root'
                 = Some (Dir [])).
    { rewrite Hl. destruct (fs_lookup _ root); cbn in Hr; congruence. }
    destruct (fs_walk_to_entry _ _ _ _ _ make_dir_creates Hn Hp H)
      as [Hwalk Hle].
    { right. unfold fs_isdir. now rewrite Hd. }
    split; [|exact Hle]. unfold isdir_in, resolve. now rewrite Hne, Hwalk, Hd.
  - destruct (fs_walk root [] (steps E name)); discriminate.
Qed.

End Paths.

(** ** Transfers *)

Lemma append_nil_r (s : string) : (s ++ "")%string = s.
Proof. induction s as [|c s IH]; simpl; [reflexivity | now rewrite IH]. Qed.


(** When every write went through the file has the whole body. *)
Lemma lands_complete E t chunks : forall d,
  snd (lands E t d chunks) = true ->
  fst (lands E t d chunks) = (d ++ body_of chunks)%string.
Proof.
  induction chunks as [|chunk rest IH]; intros d; cbn [lands body_of fold_right].
  - intros _. cbn. now rewrite append_nil_r.
  - destruct (is_empty chunk) eqn:Hc.
    + apply is_empty_true in Hc. subst chunk. exact (IH d).
    + destruct (faulty E _); [discriminate|]. intros H.
      rewrite (IH _ H). apply append_assoc.
Qed.


Section Transfers.

Variable E : env.

Lemma syscall_cases o path f s out s' :
  syscall E o path f s = (out, s') ->
  (exists d, out = Ret tt /\ f (disk s) = Ok d /\ s' = set_disk d s
             /\ is_empty path = false)
  \/ (exists e, out = Raise e /\ s' = s).
Proof.
  unfold syscall. destruct (is_empty path); [intros [= <- <-]; eauto|].
  destruct (faulty E o); [intros [= <- <-]; eauto|].
  destruct (f (disk s)) as [d|e] eqn:Hf; intros [= <- <-]; [left|right]; eauto.
Qed.

Lemma put_file_result data o r : put_file data o = Ok r -> r = Some (File data).
Proof. destruct o as [[?|?]|]; simpl; congruence. Qed.

(** [open(t, "wb")]: the file is there and empty, or nothing happened. *)
Lemma open_wb_cases t s out s' :
  open_wb E t s = (out, s') ->
  (out = Ret tt /\ lookup E t s' = Some (File "")
   /\ exists d, s' = set_disk d s)
  \/ (exists e, out = Raise e /\ s' = s).
Proof.
  intros H. apply syscall_cases in H as [(d & -> & Hf & -> & Ht)|]; [left|now right].
  split; [reflexivity|]. split; [|now exists d]. unfold lookup. cbn [disk set_disk].
  exact (proj1 (fs_create_read_back _ _ _ _ _ Hf Ht)).
Qed.

(** The outcome of [open] does not depend on the requests sent so far. *)
Lemma open_wb_after_request t r s :
  fst (open_wb E t (add_request r s)) = fst (open_wb E t s).
Proof.
  unfold open_wb, syscall. destruct (is_empty t); [reflexivity|].
  destruct (faulty E _); [reflexivity|]. cbn [disk add_request].
  now destruct (fs_create _ _ _).
Qed.

Lemma put_existing t d data s :
  lookup E t s = Some (File d) ->
  exists root',
    put E t data s = (Ret tt, set_disk root' s)
    /\ lookup E t (set_disk root' s) = Some (File data).
Proof.
  intros Hl. unfold lookup in Hl.
  destruct (fs_create_existing _ _ _ data _ Hl) as [root' Hc].
  destruct (resolve_file _ _ _ _ Hl) as (Ht & _).
  exists root'. unfold put. rewrite Hc. split; [reflexivity|].
  exact (proj1 (fs_create_read_back _ _ _ _ _ Hc Ht)).
Qed.

(** One write on a file that is there: it goes through, or the
    environment fails it and part of the chunk stays. *)
Lemma write_run t chunk d s :
  lookup E t s = Some (File d) ->
  exists root',
    write E t chunk s
    = (if faulty E (OpWrite t (String.length d)) then Raise OSError
       else Ret tt, set_disk root' s)
    /\ lookup E t (set_disk root' s)
       = Some (File (if faulty E (OpWrite t (String.length d))
                     then d ++ substring 0 (landed E t (String.length d)) chunk
                     else d ++ chunk)%string).
Proof.
  intros Hl. unfold write. rewrite Hl. cbv zeta.
  destruct (faulty E (OpWrite t (String.length d))).
  - destruct (put_existing _ _
                (d ++ substring 0 (landed E t (String.length d)) chunk)%string
                _ Hl) as (root' & Hp & Hr).
    exists root'. unfold bind. rewrite Hp. now split.
  - destruct (put_existing _ _ (d ++ chunk)%string _ Hl) as (root' & Hp & Hr).
    exists root'. now split.
Qed.

(** The write loop on a file that is there leaves in it what [lands]
    says, and raises exactly when a write was failed. *)
Lemma write_chunks_lands t chunks : forall d s,
  lookup E t s = Some (File d) ->
  exists s',
    write_chunks E t chunks s
    = (if snd (lands E t d chunks) then Ret tt else Raise OSError, s')
    /\ lookup E t s' = Some (File (fst (lands E t d chunks)))
    /\ LOG s' = LOG s /\ requests s' = requests s /\ spawned s' = spawned s.
Proof.
  induction chunks as [|chunk rest IH]; intros d s Hl.
  - exists s. now repeat split.
  - cbn [write_chunks lands]. unfold bind at 1.
    destruct (is_empty chunk) eqn:Hc; [exact (IH _ _ Hl)|].
    destruct (write_run t chunk _ _ Hl) as (root' & Hw & Hr).
    rewrite Hw. destruct (faulty E (OpWrite t (String.length d))).
    + exists (set_disk root' s). now repeat split.
    + destruct (IH _ _ Hr) as (s' & Hrun & Hl' & HL & HQ & HC).
      exists s'. now repeat split.
Qed.

(** A transfer, stage by stage: the request, the status, the [open], the
    writes, the end of the stream. *)
Lemma fetch_run u t s :
  (refuses E u = true
   /\ exists e, fetch E u t s = (Raise e, add_request ("GET", u) s))
  \/ (exists code chunks complete,
        http_get E u = Status code chunks complete
        /\ refuses E u = false
        /\ ((fst (open_wb E t s) <> Ret tt
             /\ exists e, fetch E u t s = (Raise e, add_request ("GET", u) s))
            \/ (fst (open_wb E t s) = Ret tt
                /\ exists s',
                     fetch E u t s
                     = (if snd (lands E t "" chunks)
                        then if complete then Ret tt
                             else Raise RequestException
                        else Raise OSError, s')
                     /\ lookup E t s' = Some (File (fst (lands E t "" chunks)))
                     /\ LOG s' = LOG s /\ spawned s' = spawned s
                     /\ requests s' = requests s ++ [("GET", u)]))).
Proof.
  unfold refuses, fetch, bind, requests_get.
  destruct (http_get E u) as [|code chunks complete].
  { left. split; [reflexivity | eexists; reflexivity]. }
  unfold raise_for_status.
  destruct ((400 <=? code)%Z && (code <? 600)%Z).
  { left. split; [reflexivity | eexists; reflexivity]. }
  right. exists code, chunks, complete. split; [reflexivity|].
  split; [reflexivity|]. cbv beta iota delta [ret].
  rewrite <- (open_wb_after_request t ("GET", u) s).
  destruct (open_wb E t (add_request ("GET", u) s)) as [o1 s1] eqn:Ho.
  destruct (open_wb_cases _ _ _ _ Ho) as [(-> & Hl & d & ->)|(e1 & -> & ->)].
  - right. split; [reflexivity|].
    destruct (write_chunks_lands t chunks _ _ Hl) as (s' & Hw & Hl' & L & Q & C).
    exists s'. rewrite Hw. cbn in L, Q, C.
    split; [|now repeat split].
    destruct (snd (lands E t "" chunks)); [|reflexivity].
    now destruct complete.
  - left. split; [discriminate | eexists; reflexivity].
Qed.

Lemma fetch_never_exits u t s out s' c :
  fetch E u t s = (out, s') -> out <> Exit c.
Proof.
  intros H.
  destruct (fetch_run u t s)
    as [(_ & e & Hf)|(code & chunks & complete & _ & _
                      & [(_ & e & Hf)|(_ & s2 & Hf & _)])];
    rewrite Hf in H; injection H as <- _; try discriminate.
  destruct (snd _); [destruct complete|]; discriminate.
Qed.

(** Whatever goes wrong between the request and the last write, the [try]
    of the transfer loop ends in one of its two counters. *)
Lemma transfer_body_returns u t s :
  exists ok s',
    try_except (bind (fetch E u t) (fun _ => ret true)) (fun _ => ret false) s
    = (Ret ok, s').
Proof.
  unfold try_except, bind.
  destruct (fetch E u t s) as [[[]|e|c] s1] eqn:Hf.
  - now exists true, s1.
  - now exists false, s1.
  - now elim (fetch_never_exits _ _ _ _ _ c Hf).
Qed.


End Transfers.

(** ** Directories *)

Lemma upto_after_last c s :
  String.length (upto_last c s) + String.length (after_last c s)
  = String.length s.
Proof.
  induction s as [|a s IH]; [reflexivity|]. cbn [upto_last after_last].
  destruct (contains c s); [cbn; lia|].
  destruct (Ascii.eqb a c); cbn; lia.
Qed.

Lemma rstrip_by_length p s :
  String.length (rstrip_by p s) <= String.length s.
Proof.
  induction s as [|a s IH]; [reflexivity|]. cbn [rstrip_by]. cbv zeta.
  destruct (is_empty (rstrip_by p s) && p a); cbn; lia.
Qed.

Lemma dirname_length p :
  String.length (PosixPath.dirname p) + String.length (PosixPath.basename p)
  <= String.length p.
Proof.
  unfold PosixPath.dirname, PosixPath.basename. cbv zeta.
  pose proof (upto_after_last PosixPath.sep p) as H.
  pose proof (rstrip_by_length (fun c => Ascii.eqb c PosixPath.sep)
                (upto_last PosixPath.sep p)) as Hr.
  destruct (negb _ && negb _); lia.
Qed.

Lemma is_empty_length s : is_empty s = false -> 0 < String.length s.
Proof. destruct s; [discriminate | cbn; lia]. Qed.

Lemma fs_walk_error_is_OSError root cs : forall here e,
  fs_walk root here cs = Err e -> is_OSError e = true.
Proof.
  induction cs as [|c cs IH]; intros here e H; [discriminate|].
  cbn [fs_walk] in H. destruct (negb (fs_isdir here root)).
  { injection H as <-. now destruct (fs_exists here root). }
  destruct (is_dot c); [exact (IH _ _ H)|].
  destruct (is_dotdot c); [exact (IH _ _ H)|].
  destruct (fs_exists (here ++ [c]) root); [exact (IH _ _ H)|].
  now injection H as <-.
Qed.

Lemma fs_alter_error_is_OSError f :
  (forall o e, f o = Err e -> is_OSError e = true) ->
  forall cs n e, fs_alter cs f n = Err e -> is_OSError e = true.
Proof.
  intros Hf. induction cs as [|c cs IH]; intros n e H.
  - now injection H as <-.
  - cbn [fs_alter] in H. destruct n as [d|es]; [now injection H as <-|].
    destruct cs as [|c2 cs].
    + destruct (f (assoc c es)) eqn:Ho; [discriminate|].
      injection H as <-. exact (Hf _ _ Ho).
    + destruct (assoc c es) as [m|]; [|now injection H as <-].
      destruct (fs_alter (c2 :: cs) f m) eqn:Hm; [discriminate|].
      injection H as <-. exact (IH _ _ Hm).
Qed.

Lemma fs_parent_error_is_OSError cs root e :
  fs_parent cs root = Err e -> is_OSError e = true.
Proof.
  unfold fs_parent. destruct (fs_walk root [] _) as [par|e1] eqn:Hw.
  - destruct (fs_isdir par root); [discriminate | now intros [= <-]].
  - intros [= <-]. exact (fs_walk_error_is_OSError _ _ _ _ Hw).
Qed.

Lemma fs_mkdir_error_is_OSError cs root e :
  fs_mkdir cs root = Err e -> is_OSError e = true.
Proof.
  unfold fs_mkdir. destruct (names_entry cs).
  - destruct (fs_parent cs root) as [par|e1] eqn:Hp.
    + apply fs_alter_error_is_OSError.
      intros [m|] e1; cbn; [now intros [= <-] | discriminate].
    + intros [= <-]. exact (fs_parent_error_is_OSError _ _ _ Hp).
  - destruct (fs_walk root [] cs) as [q|e1] eqn:Hw; intros [= <-];
      [reflexivity | exact (fs_walk_error_is_OSError _ _ _ _ Hw)].
Qed.

Lemma unlink_file_error o e : unlink_file o = Err e -> is_OSError e = true.
Proof. destruct o as [[?|?]|]; simpl; intros [= <-]; reflexivity. Qed.

Lemma fs_remove_error_is_OSError cs root e :
  fs_remove cs root = Err e -> is_OSError e = true.
Proof.
  unfold fs_remove. destruct (fs_walk root [] cs) as [q|e1] eqn:Hw.
  - apply fs_alter_error_is_OSError, unlink_file_error.
  - intros [= <-]. exact (fs_walk_error_is_OSError _ _ _ _ Hw).
Qed.

Section Directories.

Variable E : env.

Lemma mkdir_error_is_OSError name root e :
  mkdir E name root = Err e -> is_OSError e = true.
Proof.
  unfold mkdir. destruct (is_empty name); [now intros [= <-]|].
  destruct (faulty E _); [now intros [= <-]|].
  apply fs_mkdir_error_is_OSError.
Qed.

(** [os.makedirs] calls itself on a shorter text every time: with as many
    levels as the name has characters it never runs out. *)
Lemma makedirs_depth fuel : forall name root,
  String.length name < fuel ->
  snd (makedirs E fuel name root) <> Some RecursionError.
Proof.
  induction fuel as [|fuel IH]; intros name root Hlen; [lia|].
  cbn [makedirs]. cbv zeta.
  assert (Hleaf : forall r,
            snd (match mkdir E name r with
                 | Ok r' => (r', None)
                 | Err e => if isdir_in E name r then (r, None) else (r, Some e)
                 end) <> Some RecursionError).
  { intros r. destruct (mkdir E name r) as [r'|e] eqn:Hm; [discriminate|].
    destruct (isdir_in E name r); [discriminate|]. cbn.
    apply mkdir_error_is_OSError in Hm. now destruct e. }
  destruct (negb _ && negb _ && negb _) eqn:Hc; [|apply Hleaf].
  apply andb_true_iff in Hc as [Hc _]. apply andb_true_iff in Hc as [Hh Ht].
  apply negb_true_iff in Hh, Ht.
  match goal with
  | |- context [makedirs E fuel ?h root] =>
      assert (Hs : String.length h < fuel);
      [|specialize (IH h root Hs); destruct (makedirs E fuel h root) as [r e]]
  end.
  - pose proof (dirname_length name) as H1.
    pose proof (dirname_length (PosixPath.dirname name)) as H2.
    destruct (is_empty (PosixPath.basename name)) eqn:Hb.
    + apply is_empty_length in Ht. lia.
    + apply is_empty_length in Ht. lia.
  - cbn [snd] in IH. destruct e as [e|].
    + destruct e; try (cbn; congruence).
      destruct (String.eqb _ "."); [discriminate | apply Hleaf].
    + destruct (String.eqb _ "."); [discriminate | apply Hleaf].
Qed.

(** When [os.makedirs] returns, the directory is there, unless the name
    ends in [.]: then the library takes the parent's word for it. *)
Lemma makedirs_returns fuel name root r :
  makedirs E (S fuel) name root = (r, None) ->
  PosixPath.basename name <> "" -> PosixPath.basename name <> "." ->
  isdir_in E name r = true.
Proof.
  cbn [makedirs]. cbv zeta. intros H Hne Hdot.
  destruct (is_empty (PosixPath.basename name)) eqn:Hb.
  { apply is_empty_true in Hb. now elim Hne. }
  assert (Hd : String.eqb (PosixPath.basename name) "." = false).
  { apply String.eqb_neq. exact Hdot. }
  rewrite Hd in H.
  assert (Hleaf : forall r0,
            match mkdir E name r0 with
            | Ok r' => (r', None)
            | Err e => if isdir_in E name r0 then (r0, None) else (r0, Some e)
            end = (r, None) -> isdir_in E name r = true).
  { intros r0 Hm. destruct (mkdir E name r0) as [r'|e] eqn:Hmk.
    - injection Hm as <-. unfold mkdir in Hmk.
      destruct (is_empty name) eqn:Hn; [discriminate|].
      destruct (faulty E _); [discriminate|].
      exact (proj1 (fs_mkdir_read_back _ _ _ _ Hmk Hn)).
    - destruct (isdir_in E name r0) eqn:Hi; [|discriminate].
      now injection Hm as <-. }
  destruct (negb _ && negb _ && negb _); [|exact (Hleaf _ H)].
  destruct (makedirs E fuel (PosixPath.dirname name) root) as [r1 [e1|]].
  - destruct e1; try discriminate. exact (Hleaf _ H).
  - exact (Hleaf _ H).
Qed.

Lemma ensure_dir_cases path s out s' :
  ensure_dir E path s = (out, s') ->
  (out = Ret tt \/ exists e, out = Raise e)
  /\ exists d, s' = set_disk d s.
Proof.
  unfold ensure_dir. destruct (makedirs E _ path (disk s)) as [d [e|]];
    intros [= <- <-]; split; eauto.
Qed.

Lemma ensure_dir_returns path s s' :
  ensure_dir E path s = (Ret tt, s') ->
  PosixPath.basename path <> "" -> PosixPath.basename path <> "." ->
  path_isdir E path s' = true.
Proof.
  unfold ensure_dir.
  destruct (makedirs E _ path (disk s)) as [d [e|]] eqn:Hm; [discriminate|].
  intros [= <-] Hne Hdot. unfold path_isdir, lookup. cbn [disk set_disk].
  exact (makedirs_returns _ _ _ _ Hm Hne Hdot).
Qed.

End Directories.

(** ** Cleanup *)

Section Cleanup.

Variable E : env.

Lemma unlink_file_result o r : unlink_file o = Ok r -> r = None.
Proof. destruct o as [[?|?]|]; simpl; congruence. Qed.

Lemma unlink_dir_result o r : unlink_dir o = Ok r -> r = None.
Proof. destruct o as [[?|?]|]; simpl; congruence. Qed.

(** A directory that [rmtree] is not kept from removing is gone, when the
    path ends in its name. *)
Lemma fs_rmtree_removes td root :
  isdir_in E td root = true -> names_entry (steps E td) = true ->
  exists root',
    fs_rmtree (steps E td) root = Ok root' /\ resolve E td root' = None.
Proof.
  unfold isdir_in, resolve. intros Hd Hn.
  destruct (is_empty td) eqn:Ht; [discriminate|].
  destruct (fs_walk root [] (steps E td)) as [q|] eqn:Hw; [|discriminate].
  destruct (fs_lookup q root) as [[?|es]|] eqn:Hl; try discriminate.
  destruct (fs_walk_names_entry _ _ _ Hn Hw) as (par & Hq & Hp & _).
  unfold fs_parent in Hp.
  destruct (fs_walk root [] (removelast _)) as [p|]; [|discriminate].
  destruct (fs_isdir p root) eqn:Hpd; [|discriminate]. injection Hp as ->.
  unfold fs_isdir in Hpd.
  destruct (fs_lookup par root) as [[?|es0]|] eqn:Hpar; try discriminate.
  assert (Ha : exists root', fs_alter q unlink_dir root = Ok root').
  { rewrite Hq. apply (fs_alter_defined _ _ None _ _ es0 Hpar).
    rewrite Hq, fs_lookup_app, Hpar in Hl. now rewrite Hl. }
  destruct Ha as [root' Ha]. exists root'.
  unfold fs_rmtree. rewrite Hw. unfold fs_isdir. rewrite Hl, Hn. cbn [negb].
  split; [exact Ha|].
  destruct (fs_walk root' [] (steps E td)) as [q'|] eqn:Hw'; [|reflexivity].
  pose proof (fs_alter_shrinks _ _ unlink_dir_removes _ _ Ha) as Hle.
  rewrite (fs_walk_le _ _ Hle _ _ _ Hw') in Hw. injection Hw as ->.
  destruct (fs_alter_ok _ _ _ _ Ha) as (r & Hr & ->).
  exact (unlink_dir_result _ _ Hr).
Qed.

(** [shutil.rmtree(td, ignore_errors=True)] returns whatever happens and
    touches nothing but the disk. *)
Lemma rmtree_ignore_errors_spec td s :
  exists s1,
    rmtree_ignore_errors E td s = (Ret tt, s1)
    /\ LOG s1 = LOG s /\ requests s1 = requests s /\ spawned s1 = spawned s
    /\ (path_isdir E td s = true -> names_entry (steps E td) = true ->
        faulty E (OpRmtree td) = false -> lookup E td s1 = None).
Proof.
  unfold rmtree_ignore_errors, try_except, syscall.
  destruct (is_empty td) eqn:Ht.
  { exists s. repeat split. unfold path_isdir, lookup, resolve. now rewrite Ht. }
  destruct (faulty E (OpRmtree td)) eqn:Hfa.
  { exists s. repeat split. discriminate. }
  destruct (fs_rmtree (steps E td) (disk s)) as [d|e] eqn:Ha.
  - exists (set_disk d s). repeat split. intros Hd Hn _.
    destruct (fs_rmtree_removes td (disk s) Hd Hn) as (root' & Hr & Hnone).
    unfold lookup. cbn [disk set_disk]. congruence.
  - exists s. repeat split. intros Hd Hn _.
    destruct (fs_rmtree_removes td (disk s) Hd Hn) as (root' & Hr & _).
    congruence.
Qed.

(** [os.remove(tmp_pkg)] under its handler: it returns, the log gains at
    most the warning about the package, and no path that led nowhere leads
    somewhere afterwards. *)
Lemma remove_package_spec tmp_pkg s :
  exists s1,
    try_except (os_remove E tmp_pkg)
      (fun e =>
         if is_OSError e
         then log "WARN" [T "Could not remove temporary package "; T tmp_pkg]
         else raise e) s
    = (Ret tt, s1)
    /\ (LOG s1 = LOG s
        \/ LOG s1
           = LOG s ++ [("WARN", [T "Could not remove temporary package ";
                                 T tmp_pkg])])
    /\ requests s1 = requests s /\ spawned s1 = spawned s
    /\ (forall p, lookup E p s = None -> lookup E p s1 = None).
Proof.
  unfold try_except, os_remove, syscall.
  destruct (is_empty tmp_pkg).
  { eexists. split; [reflexivity|]. repeat split; [now right | easy]. }
  destruct (faulty E (OpRemove tmp_pkg)).
  { eexists. split; [reflexivity|]. repeat split; [now right | easy]. }
  destruct (fs_remove (steps E tmp_pkg) (disk s)) as [d|e] eqn:Ha.
  - eexists. split; [reflexivity|]. repeat split; [now left|].
    intros p. unfold lookup. cbn [disk set_disk]. apply resolve_absent.
    unfold fs_remove in Ha.
    destruct (fs_walk (disk s) [] (steps E tmp_pkg)); [|discriminate].
    exact (fs_alter_shrinks _ _ unlink_file_removes _ _ Ha).
  - rewrite (fs_remove_error_is_OSError _ _ _ Ha).
    eexists. split; [reflexivity|]. repeat split; [now right | easy].
Qed.

(** The lines of the session log, written to a file that is there: the
    file stays, and the loop returns or raises. *)
Lemma write_lines_run t lines : forall d s,
  lookup E t s = Some (File d) ->
  exists out s',
    write_lines E t lines s = (out, s')
    /\ (out = Ret tt \/ out = Raise OSError)
    /\ path_exists E t s' = true
    /\ LOG s' = LOG s /\ requests s' = requests s /\ spawned s' = spawned s.
Proof.
  induction lines as [|l lines IH]; intros d s Hl.
  - exists (Ret tt), s. unfold path_exists. rewrite Hl. now repeat split; [left|..].
  - cbn [write_lines]. unfold bind at 1.
    destruct (write_run E t l _ _ Hl) as (root' & Hw & Hr). rewrite Hw.
    destruct (faulty E (OpWrite t (String.length d))).
    + exists (Raise OSError), (set_disk root' s). unfold path_exists.
      rewrite Hr. now repeat split; [right|..].
    + destruct (IH _ _ Hr) as (out & s' & Hrun & Ho & Hx & L & Q & C).
      exists out, s'. now repeat split.
Qed.

(** [final_summary_and_save] ends the process with status 0 once the
    session log is on the disk, and in an exception when it cannot be
    saved; it touches nothing but the disk. *)
Lemma final_summary_and_save_cases {A} s (out : outcome A) s' :
  final_summary_and_save E s = (out, s') ->
  ((out = Exit 0%Z /\ path_exists E (log_file E) s' = true)
   \/ exists e, out = Raise e)
  /\ LOG s' = LOG s /\ requests s' = requests s /\ spawned s' = spawned s.
Proof.
  unfold final_summary_and_save. unfold bind at 1.
  destruct (ensure_dir E (LOG_DIR E) s) as [o1 s1] eqn:He.
  destruct (ensure_dir_cases _ _ _ _ _ He) as [[->|[e ->]] [d1 ->]].
  2:{ intros [= <- <-]. split; [right; eauto | now repeat split]. }
  unfold bind at 1.
  destruct (open_wb E (log_file E) (set_disk d1 s)) as [o2 s2] eqn:Ho.
  destruct (open_wb_cases _ _ _ _ _ Ho) as [(-> & Hl & d2 & ->)|(e & -> & ->)].
  2:{ intros [= <- <-]. split; [right; eauto | now repeat split]. }
  unfold bind at 1.
  destruct (write_lines_run (log_file E)
              (map (log_line E) (LOG (set_disk d2 (set_disk d1 s)))) _ _ Hl)
    as (o3 & s3 & Hw & Ho3 & Hx & L & Q & C).
  rewrite Hw. cbn in L, Q, C.
  destruct Ho3 as [->| ->]; intros [= <- <-];
    (split; [|now repeat split]); [left; now split | right; eauto].
Qed.

End Cleanup.

(** ** The pipeline on the scenarios *)

(** An entry of a log worked out in full is found by walking the list. *)
Ltac find_entry :=
  vm_compute; repeat (first [left; reflexivity | right]).

(** The theorem of C2 where one of the two destinations exists: the plan
    is the other one, and one notice is logged. *)
Lemma build_plan_skips_exactly_existing_witness :
  build_plan (scenario cdn no_fault (Exited 0)) pack_manifest "/mc" false
    (start half_installed)
  = (Ret ([VStr "https://cdn/a.jar"], ["/mc/mods/a.jar"]),
     set_LOG [("USER", [T "Skipping existing "; T "config/c.cfg"])]
       (start half_installed)).
Proof.
  exact (proj1 (proj1 (build_plan_skips_exactly_existing
                         (scenario cdn no_fault (Exited 0)) pack_manifest "/mc"
                         (start half_installed)) eq_refl)).
Defined.

(** C2 fails on the code for a manifest with a member that is malformed:
    the first descriptor resolves to a URL and its destination does not
    exist, the second member is a number, and planning raises instead of
    including the first. *)
Lemma malformed_member_ends_planning :
  let E := scenario cdn no_fault (Exited 0) in
  let manifest :=
    VDict [("files", VList [
      VDict [("path", VStr "mods/a.jar");
             ("downloads", VList [VStr "https://cdn/a.jar"])];
      VNum 3])] in
  manifest_file "/mc" (VDict [("path", VStr "mods/a.jar");
                              ("downloads", VList [VStr "https://cdn/a.jar"])])
  = Yield (VStr "https://cdn/a.jar") "/mc/mods/a.jar"
  /\ path_exists E "/mc/mods/a.jar" (start home_disk) = false
  /\ build_plan E manifest "/mc" false (start home_disk)
     = (Raise AttributeError, start home_disk)
  /\ download_and_place E manifest "/mc" "/tmp/x" false (start home_disk)
     = (Raise AttributeError, start home_disk).
Proof. cbv zeta. split; [|split; [|split]]; vm_compute; reflexivity. Qed.

(** A destination whose path goes through a directory that is not there
    does not exist, whatever the [..] after it would lead back to: the
    entry is planned and the file it would lead to is written over. *)
Example destination_through_missing_directory :
  let E := scenario (fun _ => Status 200 ["new"] true) no_fault (Exited 0) in
  let manifest :=
    VDict [("files", VList [
      VDict [("path", VStr "nodir/../options.txt");
             ("url", VStr "https://cdn/options.txt")]])] in
  let r := download_and_place E manifest "/mc" "/tmp/x" false (start fs_ex) in
  path_exists E "/mc/nodir/../options.txt" (start fs_ex) = false
  /\ fst (build_plan E manifest "/mc" false (start fs_ex))
     = Ret ([VStr "https://cdn/options.txt"], ["/mc/nodir/../options.txt"])
  /\ fst r = Ret tt
  /\ lookup E "/mc/options.txt" (snd r) = Some (File "new")
  /\ path_isdir E "/mc/nodir" (snd r) = true.
Proof. cbv zeta. split; [|split; [|split; [|split]]]; vm_compute; reflexivity. Qed.


(** The theorem of C9 on an extracted archive without [overrides]. *)
Lemma apply_overrides_without_directory_witness :
  apply_overrides_with_rich (scenario cdn no_fault (Exited 0)) "/tmp/x" "/mc"
    (start installed)
  = (Ret tt,
     {| LOG := [("COMMENT", [T "No overrides directory present"])];
        disk := installed; requests := []; spawned := [] |}).
Proof.
  apply (apply_overrides_without_directory
           (scenario cdn no_fault (Exited 0)) "/tmp/x" "/mc" (start installed)).
  reflexivity.
Defined.

(** What the loop reports, when it reports, adds up to the entries it was
    given. *)
Lemma transfer_loop_counts E items :
  forall success failed s a b s',
    transfer_loop E items success failed s = (Ret (a, b), s') ->
    (a + b = success + failed + len items)%Z.
Proof.
  induction items as [|[[u t] sz] items IH]; intros success failed s a b s' H.
  - injection H as <- <- _. unfold len. simpl. lia.
  - cbn [transfer_loop] in H. unfold bind at 1 in H.
    destruct (ensure_dir E (PosixPath.dirname t) s) as [[[]|e|c] s1];
      try discriminate.
    unfold bind at 1 in H.
    destruct (try_except _ _ s1) as [[[|]|e|c] s2]; try discriminate;
      apply IH in H; unfold len in *; cbn [List.length];
      rewrite Nat2Z.inj_succ; lia.
Qed.

(** C3 fails on the code.  [ensure_dir] stands before the [try] of the
    transfer loop, so a destination whose directory cannot be made ends the
    whole plan with the exception: here [mods] is a regular file, the first
    entry raises [FileExistsError], the second is never requested and no
    count is logged, in [download_with_rich] as in the fallback. *)
Theorem directory_failure_aborts_the_plan :
  download_with_rich (scenario cdn no_fault (Exited 0))
    [VStr "https://cdn/a.jar"; VStr "https://cdn/c.cfg"]
    ["/mc/mods/a.jar"; "/mc/config/c.cfg"]
    [T "Downloading "; I 2; T " files"] (start blocked_disk)
  = (Raise FileExistsError,
     {| LOG := [("COMMENT",
                 [T "Starting "; T "Downloading "; I 2; T " files"; T ": ";
                  I 2; T " "; T "files"; T ", approx "; Size 0])];
        disk := blocked_disk;
        requests := [("HEAD", VStr "https://cdn/a.jar");
                     ("HEAD", VStr "https://cdn/c.cfg")];
        spawned := [] |})
  /\ download_with_cumulative_fallback (scenario cdn no_fault (Exited 0))
       [VStr "https://cdn/a.jar"; VStr "https://cdn/c.cfg"]
       ["/mc/mods/a.jar"; "/mc/config/c.cfg"] (start blocked_disk)
     = (Raise FileExistsError,
        {| LOG := [];
           disk := blocked_disk;
           requests := [("HEAD", VStr "https://cdn/a.jar");
                        ("HEAD", VStr "https://cdn/c.cfg")];
           spawned := [] |})
  /\ build_plan (scenario cdn no_fault (Exited 0)) pack_manifest "/mc" false
       (start blocked_disk)
     = (Ret ([VStr "https://cdn/a.jar"; VStr "https://cdn/c.cfg"],
             ["/mc/mods/a.jar"; "/mc/config/c.cfg"]),
        start blocked_disk).
Proof. repeat split; vm_compute; reflexivity. Qed.



(** C5 fails on the code, twice over.  In an installation where every
    stage succeeds and only the removal of the scratch directory fails, the
    run ends in exit code 0 with the directory still on disk and a log that
    holds nothing above ordinary progress: the failure is not logged.  And
    a run whose archive has no manifest ends in the final summary straight
    from the manifest check, past the cleanup: the scratch directory, and
    the package, stay. *)
Lemma scratch_directory_left_behind :
  (let E := scenario cdn_and_maven scratch_busy (Exited 0) in
   let r := step_install_flow E "/mc" (registry "https://cdn/pack.mrpack")
              (start home_disk) in
   fst r = Exit 0%Z
   /\ In ("OK", [T "Installation complete"]) (LOG (snd r))
   /\ path_isdir E "/tmp/tmpab12" (snd r) = true
   /\ calm (LOG (snd r)) = true)
  /\ (let E := scenario cdn no_fault (Exited 0) in
      let r := parse_and_download_flow E (registry "https://cdn/bare.mrpack")
                 (start home_disk) in
      fst r = Exit 0%Z
      /\ In ("CRITICAL", [T "No manifest found in package"]) (LOG (snd r))
      /\ path_isdir E "/tmp/tmpab12" (snd r) = true
      /\ path_exists E "/tmp/bare.mrpack" (snd r) = true).
Proof.
  cbv zeta. split; (split; [vm_compute; reflexivity|]).
  - split; [find_entry|]. split; vm_compute; reflexivity.
  - split; [find_entry|]. split; vm_compute; reflexivity.
Qed.

(** A file of the manifest that cannot be fetched is counted, and the run
    still cleans up: the scratch directory and the package are gone. *)
Example cleanup_after_failed_transfer :
  let E := scenario
             (fun u => match u with
                       | VStr "https://cdn/c.cfg" => Refused
                       | _ => cdn_and_maven u
                       end) no_fault (Exited 0) in
  let r := step_install_flow E "/mc" (registry "https://cdn/pack.mrpack")
             (start home_disk) in
  fst r = Exit 0%Z
  /\ In ("WARN", [T "Failed to receive "; I 1; T " "; T "file"]) (LOG (snd r))
  /\ lookup E "/tmp/tmpab12" (snd r) = None
  /\ lookup E "/tmp/pack.mrpack" (snd r) = None.
Proof.
  cbv zeta. split; [vm_compute; reflexivity|].
  split; [find_entry|]. split; vm_compute; reflexivity.
Qed.

(** C6 fails on the code.  [download_with_rich] counts a failed transfer
    instead of raising, so the handler in [run_fabric_installer] that
    would log the failure and return is not reached: with the installer
    unreachable the download is reported as a warning and the child
    process is started all the same, on a jar that is not there. *)
Theorem failed_installer_download_still_runs_installer :
  run_fabric_installer (scenario cdn no_fault (Exited 1)) "/mc"
    (VStr "0.16") (VStr "1.21") (start home_disk)
  = (Ret tt,
     {| LOG :=
          [("USER", [T "Downloading Fabric installer to ";
                     T "/tmp/fabric-installer-0.11.2.jar"]);
           ("COMMENT", [T "Starting "; T "Downloading Fabric installer";
                        T ": "; I 1; T " "; T "file"; T ", approx "; Size 0]);
           ("WARN", [T "Received "; I 0; T "/"; I 1; T " "; T "file"]);
           ("WARN", [T "Failed to receive "; I 1; T " "; T "file"]);
           ("WARN", [T "Downloading Fabric installer";
                     T " finished; elapsed "; Elapsed; T "s; approx "; Size 0]);
           ("USER", [T "Running Fabric installer"]);
           ("ERROR", [T "Fabric installer failed (exit "; I 1; T ")"])];
        disk := home_disk;
        requests := [("HEAD", VStr FABRIC_INSTALLER_URL);
                     ("GET", VStr FABRIC_INSTALLER_URL)];
        spawned :=
          [["java"; "-jar"; "/tmp/fabric-installer-0.11.2.jar"; "client";
            "-dir"; "/mc"; "-loader"; "0.16"; "-mcversion"; "1.21"]] |})
  /\ lookup (scenario cdn no_fault (Exited 1))
       "/tmp/fabric-installer-0.11.2.jar" (start home_disk) = None.
Proof. split; vm_compute; reflexivity. Qed.

(** A child that exits non-zero is logged and the files are installed all
    the same: the run reaches "Installation complete" and exit code 0. *)
Example failed_installer_does_not_stop_installation :
  let r := step_install_flow (scenario cdn_and_maven no_fault (Exited 1)) "/mc"
             (registry "https://cdn/pack.mrpack") (start home_disk) in
  fst r = Exit 0%Z
  /\ In ("ERROR", [T "Fabric installer failed (exit "; I 1; T ")"]) (LOG (snd r))
  /\ In ("OK", [T "Installation complete"]) (LOG (snd r))
  /\ lookup (scenario cdn_and_maven no_fault (Exited 1)) "/mc/mods/a.jar" (snd r)
     = Some (File "AAAABBBB").
Proof.
  cbv zeta. split; [vm_compute; reflexivity|].
  split; [find_entry|]. split; [find_entry|]. vm_compute; reflexivity.
Qed.

(** A child that cannot be started at all (no [java] on the path) is not a
    [CalledProcessError]: the exception leaves [run_fabric_installer] and
    ends the run before any file is requested. *)
Example missing_java_aborts_the_run :
  let r := step_install_flow
             (scenario cdn_and_maven no_fault (NotStarted FileNotFoundError))
             "/mc" (registry "https://cdn/pack.mrpack") (start home_disk) in
  fst r = Raise FileNotFoundError
  /\ ~ In ("GET", VStr "https://cdn/a.jar") (requests (snd r)).
Proof.
  cbv zeta. split; [vm_compute; reflexivity|].
  vm_compute. intros H.
  repeat (destruct H as [H|H]; [discriminate H|]). exact H.
Qed.

(** The write of the traversal manifest's file lands outside the
    destination root. *)
Example traversal_writes_outside_root :
  let E := scenario (fun _ => Status 200 ["ssh-rsa"] true) no_fault (Exited 0) in
  let r := download_and_place E traversal_manifest "/home/u/.minecraft"
             "/tmp/x" false (start user_disk) in
  fst r = Ret tt
  /\ lookup E "/home/.ssh/authorized_keys" (snd r) = Some (File "ssh-rsa")
  /\ lookup E "/home/u/.minecraft" (snd r) = Some (Dir []).
Proof.
  cbv zeta. split; [|split]; vm_compute; reflexivity.
Qed.

(** ** Frames: what each part of the pipeline leaves alone *)

Section Frame.

Variable E : env.
Variable R : state -> state -> Prop.

Hypothesis R_refl : forall s, R s s.
Hypothesis R_trans : forall a b c, R a b -> R b c -> R a c.
Hypothesis R_log : forall s e, R s (set_LOG (LOG s ++ [e]) s).
Hypothesis R_disk : forall s d, R s (set_disk d s).
Hypothesis R_request : forall s r, R s (add_request r s).
Hypothesis R_child : forall s args d, R s (add_spawned args (set_disk d s)).

Lemma framed_ret {A} (a : A) : framed R (ret a).
Proof. intros s out s' [= _ <-]. apply R_refl. Qed.

Lemma framed_raise {A} (e : exn) : framed R (@raise A e).
Proof. intros s out s' [= _ <-]. apply R_refl. Qed.

Lemma framed_sys_exit {A} c : framed R (@sys_exit A c).
Proof. intros s out s' [= _ <-]. apply R_refl. Qed.

Lemma framed_lift {A} (r : res A) : framed R (lift r).
Proof. destruct r; [apply framed_ret | apply framed_raise]. Qed.

Lemma framed_read {A} (f : state -> A) : framed R (fun s => (Ret (f s), s)).
Proof. intros s out s' [= _ <-]. apply R_refl. Qed.

Lemma framed_bind {A B} (m : M A) (k : A -> M B) :
  framed R m -> (forall a, framed R (k a)) -> framed R (bind m k).
Proof.
  intros Hm Hk s out s' H. unfold bind in H.
  destruct (m s) as [[a|e|c] s1] eqn:Hs.
  - exact (R_trans _ _ _ (Hm _ _ _ Hs) (Hk a _ _ _ H)).
  - injection H as _ <-. exact (Hm _ _ _ Hs).
  - injection H as _ <-. exact (Hm _ _ _ Hs).
Qed.

Lemma framed_try {A} (m : M A) (h : exn -> M A) :
  framed R m -> (forall e, framed R (h e)) -> framed R (try_except m h).
Proof.
  intros Hm Hh s out s' H. unfold try_except in H.
  destruct (m s) as [[a|e|c] s1] eqn:Hs.
  - injection H as _ <-. exact (Hm _ _ _ Hs).
  - exact (R_trans _ _ _ (Hm _ _ _ Hs) (Hh e _ _ _ H)).
  - injection H as _ <-. exact (Hm _ _ _ Hs).
Qed.

Lemma framed_log level m : framed R (log level m).
Proof. intros s out s' [= _ <-]. apply R_log. Qed.

Lemma framed_log_all level ms : framed R (log_all level ms).
Proof.
  induction ms as [|m ms IH]; cbn [log_all].
  - apply framed_ret.
  - apply framed_bind; [apply framed_log | intros _; exact IH].
Qed.

Lemma framed_syscall o path f : framed R (syscall E o path f).
Proof.
  intros s out s' H. unfold syscall in H.
  destruct (is_empty path); [injection H as _ <-; apply R_refl|].
  destruct (faulty E o); [injection H as _ <-; apply R_refl|].
  destruct (f (disk s)); injection H as _ <-; [apply R_disk | apply R_refl].
Qed.

Lemma framed_put t data : framed R (put E t data).
Proof.
  intros s out s' H. unfold put in H.
  destruct (fs_create _ _ _); injection H as _ <-;
    [apply R_disk | apply R_refl].
Qed.

Lemma framed_write t chunk : framed R (write E t chunk).
Proof.
  intros s out s' H. unfold write in H.
  destruct (lookup E t s) as [[d|es]|];
    try (injection H as _ <-; apply R_refl).
  cbv zeta in H. destruct (faulty E _).
  - revert H. apply framed_bind; [apply framed_put|].
    intros _. apply framed_raise.
  - exact (framed_put _ _ _ _ _ H).
Qed.

Lemma framed_ensure_dir path : framed R (ensure_dir E path).
Proof.
  intros s out s' H. unfold ensure_dir in H.
  destruct (makedirs E _ path (disk s)) as [d [e|]];
    injection H as _ <-; apply R_disk.
Qed.

Lemma framed_write_lines t lines : framed R (write_lines E t lines).
Proof.
  induction lines as [|l lines IH]; cbn [write_lines].
  - apply framed_ret.
  - apply framed_bind; [apply framed_write | intros _; exact IH].
Qed.

Lemma framed_exit {A} : framed R (@final_summary_and_save E A).
Proof.
  unfold final_summary_and_save.
  apply framed_bind; [apply framed_ensure_dir|]. intros _.
  apply framed_bind; [apply framed_syscall|]. intros _.
  apply framed_bind; [|intros _; apply framed_sys_exit].
  intros s out s' H. exact (framed_write_lines _ _ _ _ _ H).
Qed.

Lemma framed_copy2 src dst : framed R (copy2 E src dst).
Proof.
  intros s out s' H. unfold copy2 in H.
  destruct (lookup E src s) as [[d|es]|];
    try (injection H as _ <-; apply R_refl).
  destruct (same_file _ _ _ _); [injection H as _ <-; apply R_refl|].
  exact (framed_syscall _ _ _ _ _ _ H).
Qed.

Lemma framed_extractall pkg td : framed R (extractall E pkg td).
Proof.
  intros s out s' H. unfold extractall in H.
  destruct (lookup E pkg s) as [[d|es]|];
    try (injection H as _ <-; apply R_refl).
  destruct (unzip E d); [|injection H as _ <-; apply R_refl].
  exact (framed_syscall _ _ _ _ _ _ H).
Qed.

Lemma framed_load_manifest td : framed R (load_manifest_from_td E td).
Proof.
  intros s out s' H. unfold load_manifest_from_td in H.
  destruct (lookup E td s) as [[d|es]|];
    try (injection H as _ <-; apply R_refl).
  destruct (walk_find _ _); [|injection H as _ <-; apply R_refl].
  destruct (json_loads E _); injection H as _ <-; apply R_refl.
Qed.

Lemma framed_head_size u : framed R (head_size E u).
Proof. intros s out s' [= _ <-]. apply R_request. Qed.

Lemma framed_requests_get u : framed R (requests_get E u).
Proof.
  intros s out s' H. unfold requests_get in H.
  destruct (http_get E u); injection H as _ <-; apply R_request.
Qed.

Lemma framed_check_call cmd : framed R (check_call E cmd).
Proof.
  intros s out s' H. unfold check_call in H.
  destruct (str_args cmd) as [args|]; [|injection H as _ <-; apply R_refl].
  destruct (run_child E args (disk s)) as [[c|e] d].
  - destruct (Z.eqb c 0); injection H as _ <-; apply R_child.
  - injection H as _ <-. apply R_refl.
Qed.

Ltac frame :=
  repeat first
    [ apply framed_bind | apply framed_try | apply framed_ret
    | apply framed_raise | apply framed_exit | apply framed_sys_exit
    | apply framed_lift
    | apply framed_log_all | apply framed_log | apply framed_syscall
    | apply framed_write | apply framed_copy2 | apply framed_extractall
    | apply framed_load_manifest | apply framed_head_size
    | apply framed_requests_get | apply framed_check_call
    | progress intros
    | match goal with
      | |- framed _ (if ?b then _ else _) => destruct b
      | |- framed _ (match ?x with _ => _ end) => destruct x
      end
    | apply framed_read ].

Lemma framed_rmtree path : framed R (rmtree_ignore_errors E path).
Proof. unfold rmtree_ignore_errors. frame. Qed.

Lemma framed_os_remove path : framed R (os_remove E path).
Proof. unfold os_remove. frame. Qed.

Lemma framed_mkdtemp : framed R (mkdtemp E).
Proof. unfold mkdtemp. frame. Qed.

Lemma framed_probe_sizes urls : framed R (probe_sizes E urls).
Proof. induction urls as [|u urls IH]; cbn [probe_sizes]; frame. exact IH. Qed.

Lemma framed_write_chunks t chunks : framed R (write_chunks E t chunks).
Proof.
  induction chunks as [|c chunks IH]; cbn [write_chunks]; frame; exact IH.
Qed.

Lemma framed_fetch u t : framed R (fetch E u t).
Proof.
  unfold fetch, raise_for_status, open_wb. frame.
  apply framed_write_chunks.
Qed.

Lemma framed_transfer_loop items :
  forall success failed, framed R (transfer_loop E items success failed).
Proof.
  induction items as [|[[u t] sz] items IH]; intros success failed;
    cbn [transfer_loop].
  - apply framed_ret.
  - apply framed_bind; [apply framed_ensure_dir|]. intros _.
    apply framed_bind.
    + apply framed_try; [|intros; apply framed_ret].
      apply framed_bind; [apply framed_fetch | intros; apply framed_ret].
    + intros [|]; apply IH.
Qed.

Lemma framed_fallback urls targets :
  framed R (download_with_cumulative_fallback E urls targets).
Proof.
  unfold download_with_cumulative_fallback.
  apply framed_bind; [apply framed_probe_sizes|]. intros sizes.
  apply framed_bind; [apply framed_transfer_loop|]. intros [a b]. frame.
Qed.

Lemma framed_download_with_rich urls targets description :
  framed R (download_with_rich E urls targets description).
Proof.
  unfold download_with_rich.
  destruct (negb (RICH_AVAILABLE E)); [apply framed_fallback|].
  apply framed_bind; [apply framed_probe_sizes|]. intros sizes.
  apply framed_bind; [apply framed_log|]. intros _.
  apply framed_bind; [apply framed_transfer_loop|]. intros [a b]. frame.
Qed.

Lemma framed_copy_loop files :
  forall copied failed, framed R (copy_loop E files copied failed).
Proof.
  induction files as [|[[src t] rel] files IH]; intros copied failed;
    cbn [copy_loop].
  - apply framed_ret.
  - apply framed_bind.
    + apply framed_try; [|intros; apply framed_ret].
      apply framed_bind; [apply framed_ensure_dir|]. intros _.
      apply framed_bind; [apply framed_copy2 | intros; apply framed_ret].
    + intros [|]; apply IH.
Qed.

Lemma framed_apply_overrides td dest :
  framed R (apply_overrides_with_rich E td dest).
Proof.
  unfold apply_overrides_with_rich, files_below.
  apply framed_bind; [apply framed_read|]. intros isdir.
  destruct (negb isdir); [apply framed_log|].
  apply framed_bind; [apply framed_read|]. intros files.
  apply framed_bind; [apply framed_log|]. intros _.
  apply framed_bind; [apply framed_copy_loop|]. intros [a b].
  apply framed_log_all.
Qed.

Lemma framed_plan_loop dest overwrite items :
  forall urls targets,
    framed R (plan_loop E dest overwrite items urls targets).
Proof.
  induction items as [|[url target] items IH]; intros urls targets;
    cbn [plan_loop].
  - apply framed_ret.
  - apply framed_bind.
    + destruct overwrite; [apply framed_ret|].
      unfold os_path_exists. apply framed_read.
    + intros [|]; [|apply IH].
      apply framed_bind; [apply framed_lift|]. intros rel.
      apply framed_bind; [apply framed_log|]. intros _. apply IH.
Qed.

Lemma framed_build_plan manifest dest overwrite :
  framed R (build_plan E manifest dest overwrite).
Proof.
  unfold build_plan. apply framed_bind; [apply framed_plan_loop|].
  intros plan. destruct (raised _); [apply framed_raise | apply framed_ret].
Qed.

Lemma framed_download_and_place manifest dest td overwrite :
  framed R (download_and_place E manifest dest td overwrite).
Proof.
  unfold download_and_place.
  apply framed_bind; [apply framed_build_plan|]. intros [urls targets].
  apply framed_bind; [|intros _; apply framed_apply_overrides].
  destruct urls; [apply framed_ret|].
  apply framed_bind; [apply framed_log|]. intros _.
  apply framed_download_with_rich.
Qed.

Lemma framed_run_fabric_installer mc loader_version mc_version :
  framed R (run_fabric_installer E mc loader_version mc_version).
Proof.
  unfold run_fabric_installer.
  apply framed_bind; [apply framed_log|]. intros _.
  apply framed_bind.
  - apply framed_try.
    + apply framed_bind; [apply framed_download_with_rich|].
      intros _. apply framed_ret.
    + intros e. apply framed_bind; [apply framed_log|].
      intros _. apply framed_ret.
  - intros downloaded. destruct (negb downloaded); [apply framed_ret|].
    apply framed_bind; [apply framed_log|]. intros _.
    apply framed_try.
    + apply framed_bind; [apply framed_check_call|].
      intros _. apply framed_log.
    + intros e. destruct e; try apply framed_raise. apply framed_log.
Qed.

Lemma framed_prepare_destination dest title :
  framed R (prepare_destination E dest title).
Proof.
  unfold prepare_destination, os_path_exists.
  apply framed_bind; [apply framed_read|]. intros present.
  destruct present.
  - apply framed_bind; [apply framed_log|]. intros _.
    destruct (choose E _ _) as [a|]; [|apply framed_ret].
    destruct (String.eqb a _); [|apply framed_ret].
    apply framed_bind; [apply framed_rmtree|]. intros _.
    apply framed_bind; [apply framed_ensure_dir|]. intros _.
    apply framed_log.
  - apply framed_bind; [apply framed_ensure_dir|]. intros _.
    apply framed_log.
Qed.

Lemma framed_unpack tmp_pkg : framed R (unpack E tmp_pkg).
Proof.
  unfold unpack.
  apply framed_bind; [apply framed_mkdtemp|]. intros td.
  apply framed_bind; [apply framed_log|]. intros _.
  apply framed_bind.
  - apply framed_try.
    + apply framed_bind; [apply framed_extractall|]. intros _.
      apply framed_log.
    + intros e. apply framed_bind; [apply framed_log|]. intros _.
      apply framed_exit.
  - intros _. apply framed_bind; [apply framed_load_manifest|].
    intros manifest. destruct (negb (truthy manifest)); [|apply framed_ret].
    apply framed_bind; [apply framed_log|]. intros _. apply framed_exit.
Qed.

Lemma framed_cleanup td tmp_pkg : framed R (cleanup E td tmp_pkg).
Proof.
  unfold cleanup.
  apply framed_bind; [apply framed_rmtree|]. intros _.
  apply framed_bind; [|intros _; apply framed_exit].
  apply framed_try; [apply framed_os_remove|].
  intros e. destruct (is_OSError e); [apply framed_log | apply framed_raise].
Qed.

Lemma framed_manifest_versions manifest :
  framed R (manifest_versions manifest).
Proof.
  unfold manifest_versions.
  apply framed_bind; [apply framed_lift|]. intros deps.
  destruct (py_or deps (VDict [])); try apply framed_raise.
  apply framed_bind; [|intros; apply framed_ret].
  destruct (truthy _); [apply framed_ret|].
  apply framed_bind; [apply framed_lift|]. intros gv.
  destruct (truthy gv); [apply framed_lift | apply framed_ret].
Qed.

Lemma framed_install_stage mc manifest td :
  framed R (install_stage E mc manifest td).
Proof.
  unfold install_stage, launcher_present.
  apply framed_bind; [apply framed_manifest_versions|].
  intros [mc_version loader_version].
  apply framed_bind.
  { destruct (truthy loader_version); [apply framed_read | apply framed_ret]. }
  intros present. apply framed_bind.
  - destruct present.
    + apply framed_bind; [apply framed_log|]. intros _.
      apply framed_run_fabric_installer.
    + destruct (negb (truthy loader_version)); apply framed_log.
  - intros _. apply framed_bind; [apply framed_log|]. intros _.
    apply framed_download_and_place.
Qed.

Lemma framed_install_from_manifest mc manifest td tmp_pkg display_name :
  framed R (install_from_manifest E mc manifest td tmp_pkg display_name).
Proof.
  unfold install_from_manifest.
  apply framed_bind; [apply framed_install_stage|]. intros _.
  apply framed_bind; [apply framed_log|]. intros _.
  apply framed_bind; [apply framed_log|]. intros _.
  apply framed_cleanup.
Qed.

Lemma framed_organize_stage manifest td display_name :
  framed R (organize_stage E manifest td display_name).
Proof.
  unfold organize_stage.
  apply framed_bind; [apply framed_prepare_destination|]. intros _.
  apply framed_bind; [apply framed_download_and_place|]. intros _.
  apply framed_ret.
Qed.

Lemma framed_organize_from_manifest manifest td tmp_pkg display_name :
  framed R (organize_from_manifest E manifest td tmp_pkg display_name).
Proof.
  unfold organize_from_manifest.
  apply framed_bind; [apply framed_organize_stage|]. intros dest.
  apply framed_bind; [apply framed_log|]. intros _.
  apply framed_bind; [apply framed_log|]. intros _.
  apply framed_cleanup.
Qed.

Lemma framed_step_install_flow mc versions :
  framed R (step_install_flow E mc versions).
Proof.
  unfold step_install_flow.
  apply framed_bind; [apply framed_log|]. intros _. cbv zeta.
  destruct (negb (truthy (pick_version E versions))).
  { apply framed_bind; [apply framed_log | intros _; apply framed_exit]. }
  do 5 (apply framed_bind; [apply framed_lift|]; intro).
  apply framed_bind; [apply framed_log|]. intros _.
  apply framed_bind; [apply framed_lift|]. intros file_url.
  destruct (negb (truthy file_url)).
  { apply framed_bind; [apply framed_log | intros _; apply framed_exit]. }
  apply framed_bind; [apply framed_lift|]. intros base.
  apply framed_bind; [apply framed_log|]. intros _.
  apply framed_bind.
  - apply framed_try.
    + apply framed_bind; [apply framed_download_with_rich|]. intros _.
      apply framed_log.
    + intros e. apply framed_bind; [apply framed_log|]. intros _.
      apply framed_exit.
  - intros _. apply framed_bind; [apply framed_unpack|]. intros [td manifest].
    apply framed_install_from_manifest.
Qed.

Lemma framed_parse_and_download_flow versions :
  framed R (parse_and_download_flow E versions).
Proof.
  unfold parse_and_download_flow.
  apply framed_bind; [apply framed_log|]. intros _. cbv zeta.
  destruct (negb (truthy (pick_version E versions))).
  { apply framed_bind; [apply framed_log | intros _; apply framed_exit]. }
  do 4 (apply framed_bind; [apply framed_lift|]; intro).
  apply framed_bind; [apply framed_log|]. intros _.
  apply framed_bind; [apply framed_lift|]. intros display_name.
  apply framed_bind; [apply framed_lift|]. intros file_url.
  destruct (negb (truthy file_url)).
  { apply framed_bind; [apply framed_log | intros _; apply framed_exit]. }
  apply framed_bind; [apply framed_log|]. intros _.
  apply framed_bind; [apply framed_lift|]. intros base.
  apply framed_bind.
  - apply framed_try.
    + apply framed_bind; [apply framed_fallback|]. intros _.
      apply framed_bind; [apply framed_log|]. intros _. apply framed_log.
    + intros e. apply framed_bind; [apply framed_log|]. intros _.
      apply framed_exit.
  - intros _. apply framed_bind; [apply framed_unpack|]. intros [td manifest].
    apply framed_organize_from_manifest.
Qed.

End Frame.


(** ** The frames at work *)

Lemma log_grows_refl s : log_grows s s.
Proof. exists []. now rewrite app_nil_r. Qed.

Lemma log_grows_trans a b c : log_grows a b -> log_grows b c -> log_grows a c.
Proof.
  intros [l1 H1] [l2 H2]. exists (l1 ++ l2). now rewrite H2, H1, app_assoc.
Qed.

Lemma requests_grow_refl s : requests_grow s s.
Proof. exists []. now rewrite app_nil_r. Qed.

Lemma requests_grow_trans a b c :
  requests_grow a b -> requests_grow b c -> requests_grow a c.
Proof.
  intros [l1 H1] [l2 H2]. exists (l1 ++ l2). now rewrite H2, H1, app_assoc.
Qed.

Lemma only_disk_trans a b c : only_disk a b -> only_disk b c -> only_disk a c.
Proof. unfold only_disk. intros (? & ? & ?) (? & ? & ?). repeat split; congruence. Qed.

Lemma only_log_trans a b c : only_log a b -> only_log b c -> only_log a c.
Proof. unfold only_log. intros (? & ? & ?) (? & ? & ?). repeat split; congruence. Qed.

Lemma offline_trans a b c : offline a b -> offline b c -> offline a c.
Proof. unfold offline. intros (? & ?) (? & ?). split; congruence. Qed.

Lemma framed_snd R {A} (m : M A) s : framed R m -> R s (snd (m s)).
Proof. intros H. apply (H s (fst (m s))). apply surjective_pairing. Qed.

(** The side conditions of a frame lemma at a relation of growth, and at a
    relation of equality. *)
Ltac grows :=
  intros;
  first [ eapply log_grows_trans; eassumption
        | eapply requests_grow_trans; eassumption
        | eexists [_]; reflexivity
        | exists []; cbn; now rewrite app_nil_r ].

Ltac stays :=
  unfold same_children, offline, only_log, only_disk; intros;
  intuition congruence.

(** X13.  Neither flow ever takes an entry back: however a run ends, the
    log and the record of HTTP requests it leaves are the ones it found,
    with entries added at the end. *)
Theorem flows_only_append (E : env) (mc : string) (versions : list value)
    (s : state) :
  log_grows s (snd (step_install_flow E mc versions s))
  /\ requests_grow s (snd (step_install_flow E mc versions s))
  /\ log_grows s (snd (parse_and_download_flow E versions s))
  /\ requests_grow s (snd (parse_and_download_flow E versions s)).
Proof.
  repeat split; apply framed_snd;
    first [apply framed_step_install_flow
          | apply framed_parse_and_download_flow]; grows.
Qed.

(** X16.  The download-and-organize flow never starts a child process, and
    neither does [download_and_place] in either flow: the record of
    children is as it was, however the call ends. *)
Theorem parse_flow_never_bootstraps (E : env) (versions : list value)
    (manifest : value) (dest td : string) (overwrite : bool) (s : state) :
  same_children s (snd (parse_and_download_flow E versions s))
  /\ same_children s (snd (download_and_place E manifest dest td overwrite s)).
Proof.
  split; apply framed_snd;
    first [apply framed_parse_and_download_flow
          | apply framed_download_and_place]; stays.
Qed.

(** X17.  Building the plan changes nothing but the log, whatever the
    overwrite policy and however the generator ends: the disk is only
    read, nothing is requested, nothing is started. *)
Theorem build_plan_changes_only_log (E : env) (manifest : value)
    (dest : string) (overwrite : bool) (s : state) :
  only_log s (snd (build_plan E manifest dest overwrite s))
  /\ log_grows s (snd (build_plan E manifest dest overwrite s)).
Proof.
  split; apply framed_snd; apply framed_build_plan;
    first [solve [grows] | stays].
Qed.

(** ** Names, once more *)

Lemma filter_str_id p s :
  (forall c, contains c s = true -> p c = true) -> filter_str p s = s.
Proof.
  induction s as [|a s IH]; intros H; simpl; [reflexivity|].
  rewrite (H a) by (simpl; now rewrite Ascii.eqb_refl).
  rewrite IH; [reflexivity|]. intros c Hc. apply H. simpl.
  rewrite Hc. apply orb_true_r.
Qed.

Lemma lstrip_id p s :
  (forall c, first_char s = Some c -> p c = false) -> lstrip_by p s = s.
Proof. destruct s as [|a s]; intros H; simpl; [|rewrite (H a)]; reflexivity. Qed.

Lemma rstrip_id p s :
  (forall c, last_char s = Some c -> p c = false) -> rstrip_by p s = s.
Proof.
  induction s as [|a s IH]; intros H; [reflexivity|].
  cbn [rstrip_by]. cbv zeta. destruct s as [|b s].
  - simpl. now rewrite (H a).
  - rewrite IH; [reflexivity|]. intros c Hc. apply H. exact Hc.
Qed.

Lemma strip_idempotent s : strip (strip s) = strip s.
Proof.
  unfold strip.
  rewrite (rstrip_id isspace (lstrip_by isspace (rstrip_by isspace s))).
  - apply lstrip_id. intros c. apply lstrip_first.
  - intros c Hc. apply lstrip_last in Hc. now apply rstrip_last in Hc.
Qed.

Lemma stripped_strip s : stripped (strip s) = true.
Proof.
  unfold stripped. apply andb_true_iff. split.
  - destruct (first_char (strip s)) as [c|] eqn:Hc; [|reflexivity].
    unfold strip in Hc. now rewrite (lstrip_first _ _ _ Hc).
  - destruct (last_char (strip s)) as [c|] eqn:Hc; [|reflexivity].
    unfold strip in Hc. apply lstrip_last in Hc.
    now rewrite (rstrip_last _ _ _ Hc).
Qed.

(** X1.  [sanitize_name] is idempotent: a name it has produced goes
    through it unchanged. *)
Theorem sanitize_name_idempotent (name : string) :
  sanitize_name (sanitize_name name) = sanitize_name name.
Proof.
  unfold sanitize_name at 1.
  rewrite filter_str_id; [apply strip_idempotent|].
  intros c Hc. unfold sanitize_name, strip in Hc.
  now apply contains_lstrip, contains_rstrip, contains_filter in Hc.
Qed.

Lemma contains_after_last c s : contains c (after_last c s) = false.
Proof.
  induction s as [|a s IH]; [reflexivity|]. cbn [after_last].
  destruct (contains c s) eqn:Hs; [exact IH|].
  destruct (Ascii.eqb a c) eqn:Ha; [exact Hs|].
  simpl. now rewrite Ha, Hs.
Qed.

Lemma contains_strip_false c s :
  contains c s = false -> contains c (strip s) = false.
Proof.
  intros H. destruct (contains c (strip s)) eqn:Hc; [|reflexivity].
  unfold strip in Hc. apply contains_lstrip, contains_rstrip in Hc.
  congruence.
Qed.

(** X2.  For every string [format_modpack_version] returns a version
    without a plus sign and without whitespace at either end: what follows
    the last plus sign, stripped, and "unknown" for the empty string. *)
Theorem format_modpack_version_shape (s : string) :
  exists m,
    format_modpack_version (VStr s) = Ok m
    /\ contains "+" m = false
    /\ stripped m = true
    /\ m = (if is_empty s then "unknown" else strip (after_last "+" s)).
Proof.
  unfold format_modpack_version.
  destruct s as [|a s]; [exists "unknown"; now repeat split|].
  cbn [truthy negb String.eqb is_empty].
  change (negb (negb (String.eqb (String a s) ""))) with false. cbv iota.
  destruct (contains "+" (String a s)) eqn:Hc.
  - eexists. split; [reflexivity|]. repeat split.
    + apply contains_strip_false, contains_after_last.
    + apply stripped_strip.
  - eexists. split; [reflexivity|]. repeat split.
    + now apply contains_strip_false.
    + apply stripped_strip.
    + now rewrite (after_last_none _ _ Hc).
Qed.

Lemma lower_char_idempotent c : lower_char (lower_char c) = lower_char c.
Proof.
  destruct c as [b0 b1 b2 b3 b4 b5 b6 b7].
  destruct b0, b1, b2, b3, b4, b5, b6, b7; vm_compute; reflexivity.
Qed.

Lemma lower_idempotent s : lower (lower s) = lower s.
Proof.
  induction s as [|c s IH]; simpl; [reflexivity|].
  now rewrite lower_char_idempotent, IH.
Qed.

Lemma lower_empty s : String.eqb (lower s) "" = String.eqb s "".
Proof. now destruct s. Qed.

Lemma lowered_type_lower t :
  lowered_type (VStr (lower t)) = lowered_type (VStr t).
Proof.
  unfold lowered_type, py_or. cbn [truthy]. rewrite lower_empty.
  destruct (negb (String.eqb t "")); [now rewrite lower_idempotent|].
  reflexivity.
Qed.

(** X3.  The channel tag does not depend on the letter case of the version
    type: a record and the same record with its type in lower case get the
    same folder name. *)
Theorem build_display_name_ignores_case
    (version_number : value) (game_versions version_type : string) :
  build_display_name version_number game_versions (VStr version_type)
  = build_display_name version_number game_versions
      (VStr (lower version_type)).
Proof.
  unfold build_display_name. now rewrite lowered_type_lower.
Qed.

(** ** The generator and the plan, once more *)

Lemma manifest_file_yield_truthy base_dest f url target :
  manifest_file base_dest f = Yield url target -> truthy url = true.
Proof.
  unfold manifest_file. destruct f as [| | | | |d]; try discriminate.
  destruct (truthy (descriptor_url d)) eqn:Ht; cbn [negb]; [|discriminate].
  destruct (if truthy _ then _ else _) as [rel|]; [|discriminate].
  destruct (lstrip_seps rel); [|discriminate].
  now intros [= <- _].
Qed.

(** X4.  Whatever the manifest holds, every item the generator yields has
    a URL that is true and a destination that, as a text, starts with the
    destination root: a manifest path cannot replace the root by starting
    with a separator. *)
Theorem iter_manifest_files_yields_under_root
    (manifest : value) (base_dest : string) :
  Forall (fun it => truthy (fst it) = true
                    /\ startswith base_dest (snd it) = true)
         (yielded (iter_manifest_files manifest base_dest)).
Proof.
  unfold iter_manifest_files.
  destruct (py_get_default "files" (VList []) manifest) as [files|];
    [|constructor].
  destruct (py_iter files) as [fs|]; [|constructor].
  induction fs as [|f fs IH]; cbn [manifest_files]; [constructor|].
  destruct (manifest_file base_dest f) as [|url target|e] eqn:Hf;
    [exact IH | | constructor].
  cbn [yielded]. constructor; [|exact IH]. cbn [fst snd]. split.
  - exact (manifest_file_yield_truthy _ _ _ _ Hf).
  - exact (destination_starts_with_root _ _ _ _ Hf).
Qed.

(** X5.  A member of the file list that is not an object ends the
    iteration with [AttributeError]: the items of the descriptors before
    it have been yielded, the descriptors after it are never looked at. *)
Theorem non_object_descriptor_ends_iteration
    (base_dest : string) (pre : list value) (f : value) (post : list value) :
  is_dict f = false ->
  raised (iter_manifest_files (VDict [("files", VList pre)]) base_dest) = None ->
  iter_manifest_files (VDict [("files", VList (pre ++ f :: post))]) base_dest
  = Generated
      (yielded (iter_manifest_files (VDict [("files", VList pre)]) base_dest))
      (Some AttributeError).
Proof.
  rewrite !iter_manifest_files_list. intros Hf Hr.
  rewrite manifest_files_app, Hr.
  assert (Hc : manifest_files base_dest (f :: post)
               = Generated [] (Some AttributeError)).
  { destruct f; try discriminate Hf; reflexivity. }
  rewrite Hc. cbn. now rewrite app_nil_r.
Qed.

Lemma non_object_descriptor_ends_iteration_witness :
  iter_manifest_files
    (VDict [("files",
             VList ([VDict [("path", VStr "mods/a.jar");
                            ("url", VStr "https://cdn/a.jar")]]
                    ++ VStr "mods/b.jar"
                    :: [VDict [("path", VStr "mods/c.jar");
                               ("url", VStr "https://cdn/c.jar")]]))])
    "/mc"
  = Generated [(VStr "https://cdn/a.jar", "/mc/mods/a.jar")]
      (Some AttributeError).
Proof.
  exact (non_object_descriptor_ends_iteration "/mc"
           [VDict [("path", VStr "mods/a.jar");
                   ("url", VStr "https://cdn/a.jar")]]
           (VStr "mods/b.jar")
           [VDict [("path", VStr "mods/c.jar");
                   ("url", VStr "https://cdn/c.jar")]]
           eq_refl eq_refl).
Defined.

Section PlanAgain.

Variable E : env.

Lemma plan_loop_overwrite dest items :
  forall urls targets s,
    plan_loop E dest true items urls targets s
    = (Ret (urls ++ map fst items, targets ++ map snd items), s).
Proof.
  induction items as [|[url target] items IH]; intros urls targets s.
  - cbn. now rewrite !app_nil_r.
  - cbn [plan_loop]. unfold bind at 1. unfold ret at 1.
    rewrite IH. cbn [map fst snd]. now rewrite <- !app_assoc.
Qed.

(** X6.  With [overwrite=True] the plan is every item the generator
    yields, in order, whatever is on the disk, and building it changes
    nothing at all, the log included. *)
Theorem build_plan_overwrite_takes_all
    (manifest : value) (dest : string) (s : state) :
  build_plan E manifest dest true s
  = (match raised (iter_manifest_files manifest dest) with
     | None =>
         Ret (map fst (yielded (iter_manifest_files manifest dest)),
              map snd (yielded (iter_manifest_files manifest dest)))
     | Some e => Raise e
     end, s).
Proof.
  unfold build_plan, bind. rewrite plan_loop_overwrite. cbn [app].
  destruct (raised (iter_manifest_files manifest dest)); reflexivity.
Qed.

Lemma combine_fst_snd {A B} (l : list (A * B)) :
  combine (map fst l) (map snd l) = l.
Proof. induction l as [|[a b] l IH]; simpl; [reflexivity | now rewrite IH]. Qed.

(** X7.  The two lists of a plan pair up: whenever [build_plan] returns,
    [urls] and [targets] have the same length and zipped together they are
    the items of the generator, all of them with [overwrite=True] and the
    ones whose destination is absent without it. *)
Theorem plan_lists_pair_up
    (manifest : value) (dest : string) (overwrite : bool)
    (s s' : state) (urls : list value) (targets : list string) :
  build_plan E manifest dest overwrite s = (Ret (urls, targets), s') ->
  List.length urls = List.length targets
  /\ combine urls targets
     = (if overwrite then yielded (iter_manifest_files manifest dest)
        else kept E s (yielded (iter_manifest_files manifest dest))).
Proof.
  destruct overwrite.
  - rewrite build_plan_overwrite_takes_all.
    destruct (raised _); [discriminate|]. intros [= <- <- _].
    now rewrite !length_map, combine_fst_snd.
  - rewrite build_plan_spec.
    destruct (raised _); [discriminate|]. intros [= <- <- _].
    now rewrite !length_map, combine_fst_snd.
Qed.

End PlanAgain.

Lemma plan_lists_pair_up_witness :
  combine [VStr "https://cdn/a.jar"] ["/mc/mods/a.jar"]
  = kept (scenario cdn no_fault (Exited 0)) (start half_installed)
      (yielded (iter_manifest_files pack_manifest "/mc")).
Proof.
  apply (plan_lists_pair_up (scenario cdn no_fault (Exited 0)) pack_manifest
           "/mc" false (start half_installed)
           (set_LOG [("USER", [T "Skipping existing "; T "config/c.cfg"])]
              (start half_installed))
           [VStr "https://cdn/a.jar"] ["/mc/mods/a.jar"]).
  vm_compute. reflexivity.
Defined.

(** ** The registry record *)

Lemma find_mrpack_other pre :
  forallb other_file pre = true ->
  forall rest, find_mrpack (pre ++ rest) = find_mrpack rest.
Proof.
  induction pre as [|f pre IH]; intros H rest; [reflexivity|].
  cbn [forallb] in H. apply andb_true_iff in H as [Hf Hpre].
  cbn [app find_mrpack]. destruct f as [| | | | |d]; try discriminate Hf.
  cbn [py_get_default]. unfold other_file in Hf.
  destruct (dict_get_default "filename" (VStr "") d) as [| | |name| |];
    try discriminate Hf.
  cbn [py_endswith]. destruct (endswith ".mrpack" name); [discriminate Hf|].
  now apply IH.
Qed.

(** X8.  [find_mrpack_url] answers with the [url] of the first file whose
    name ends in [.mrpack], whatever follows it in the list, and with
    [None] when no file has such a name. *)
Theorem find_mrpack_url_first_match
    (pre : list value) (d : list (string * value)) (name : string)
    (post : list value) :
  forallb other_file pre = true ->
  (dict_get_default "filename" (VStr "") d = VStr name ->
   endswith ".mrpack" name = true ->
   find_mrpack_url (VDict [("files", VList (pre ++ VDict d :: post))])
   = Ok (dict_get "url" d))
  /\ find_mrpack_url (VDict [("files", VList pre)]) = Ok VNone.
Proof.
  intros Hpre. split.
  - intros Hn He. unfold find_mrpack_url. cbn.
    rewrite (find_mrpack_other _ Hpre). cbn [find_mrpack py_get_default].
    rewrite Hn. cbn [py_endswith]. now rewrite He.
  - unfold find_mrpack_url. cbn.
    rewrite <- (app_nil_r pre), (find_mrpack_other _ Hpre). reflexivity.
Qed.

Lemma find_mrpack_url_first_match_witness :
  find_mrpack_url
    (VDict [("files",
             VList ([VDict [("filename", VStr "notes.txt");
                            ("url", VStr "https://cdn/notes.txt")]]
                    ++ VDict [("filename", VStr "pack.mrpack");
                              ("url", VStr "https://cdn/pack.mrpack")]
                    :: [VDict [("filename", VStr "old.mrpack");
                               ("url", VStr "https://cdn/old.mrpack")]]))])
  = Ok (VStr "https://cdn/pack.mrpack").
Proof.
  exact (proj1 (find_mrpack_url_first_match
                  [VDict [("filename", VStr "notes.txt");
                          ("url", VStr "https://cdn/notes.txt")]]
                  [("filename", VStr "pack.mrpack");
                   ("url", VStr "https://cdn/pack.mrpack")]
                  "pack.mrpack"
                  [VDict [("filename", VStr "old.mrpack");
                          ("url", VStr "https://cdn/old.mrpack")]]
                  eq_refl) eq_refl eq_refl).
Defined.

(** ** Calls that do not end the process *)

Section NeverExits.

Variable E : env.

Lemma never_exits_ret {A} (a : A) : never_exits (ret a).
Proof. intros s out s' c [= <- _]. discriminate. Qed.

Lemma never_exits_raise {A} (e : exn) : never_exits (@raise A e).
Proof. intros s out s' c [= <- _]. discriminate. Qed.

Lemma never_exits_bind {A B} (m : M A) (k : A -> M B) :
  never_exits m -> (forall a, never_exits (k a)) -> never_exits (bind m k).
Proof.
  intros Hm Hk s out s' c H. unfold bind in H.
  destruct (m s) as [[a|e|c1] s1] eqn:Hs.
  - exact (Hk a _ _ _ c H).
  - injection H as <- _. discriminate.
  - now elim (Hm _ _ _ c1 Hs).
Qed.

Lemma never_exits_try {A} (m : M A) (h : exn -> M A) :
  never_exits m -> (forall e, never_exits (h e)) ->
  never_exits (try_except m h).
Proof.
  intros Hm Hh s out s' c H. unfold try_except in H.
  destruct (m s) as [[a|e|c1] s1] eqn:Hs.
  - injection H as <- _. discriminate.
  - exact (Hh e _ _ _ c H).
  - now elim (Hm _ _ _ c1 Hs).
Qed.

Lemma never_exits_log level m : never_exits (log level m).
Proof. intros s out s' c [= <- _]. discriminate. Qed.

Lemma never_exits_log_all level ms : never_exits (log_all level ms).
Proof.
  induction ms as [|m ms IH]; cbn [log_all].
  - apply never_exits_ret.
  - apply never_exits_bind; [apply never_exits_log | intros _; exact IH].
Qed.

Lemma never_exits_syscall o path f : never_exits (syscall E o path f).
Proof.
  intros s out s' c H.
  apply syscall_cases in H as [(d & -> & _)|(e & -> & _)]; discriminate.
Qed.

Lemma never_exits_ensure_dir path : never_exits (ensure_dir E path).
Proof.
  intros s out s' c H.
  destruct (ensure_dir_cases _ _ _ _ _ H) as [[->|[e ->]] _]; discriminate.
Qed.

Lemma never_exits_copy2 src dst : never_exits (copy2 E src dst).
Proof.
  intros s out s' c H. unfold copy2 in H.
  destruct (lookup E src s) as [[d|es]|];
    try (injection H as <- _; discriminate).
  destruct (same_file _ _ _ _); [injection H as <- _; discriminate|].
  exact (never_exits_syscall _ _ _ _ _ _ c H).
Qed.

Lemma never_exits_probe_sizes urls : never_exits (probe_sizes E urls).
Proof.
  induction urls as [|u urls IH]; cbn [probe_sizes].
  - apply never_exits_ret.
  - apply never_exits_bind.
    + intros s out s' c [= <- _]. discriminate.
    + intros sz. apply never_exits_bind; [exact IH|].
      intros. apply never_exits_ret.
Qed.

Lemma never_exits_transfer_loop items :
  forall success failed, never_exits (transfer_loop E items success failed).
Proof.
  induction items as [|[[u t] sz] items IH]; intros success failed;
    cbn [transfer_loop].
  - apply never_exits_ret.
  - apply never_exits_bind; [apply never_exits_ensure_dir|]. intros _.
    apply never_exits_bind.
    + intros s out s' c H.
      destruct (transfer_body_returns E u t s) as (ok & s1 & Hb).
      rewrite Hb in H. injection H as <- _. discriminate.
    + intros [|]; apply IH.
Qed.

Lemma never_exits_fallback urls targets :
  never_exits (download_with_cumulative_fallback E urls targets).
Proof.
  unfold download_with_cumulative_fallback.
  apply never_exits_bind; [apply never_exits_probe_sizes|]. intros sizes.
  apply never_exits_bind; [apply never_exits_transfer_loop|]. intros [a b].
  apply never_exits_bind; [apply never_exits_log_all|]. intros _.
  apply never_exits_log.
Qed.

Lemma never_exits_download_with_rich urls targets description :
  never_exits (download_with_rich E urls targets description).
Proof.
  unfold download_with_rich.
  destruct (negb (RICH_AVAILABLE E)); [apply never_exits_fallback|].
  apply never_exits_bind; [apply never_exits_probe_sizes|]. intros sizes.
  apply never_exits_bind; [apply never_exits_log|]. intros _.
  apply never_exits_bind; [apply never_exits_transfer_loop|]. intros [a b].
  apply never_exits_bind; [apply never_exits_log_all|]. intros _.
  apply never_exits_log.
Qed.

(** A handler that returns turns a call that does not exit into one that
    always returns. *)
Lemma try_returns {A} (m : M A) (b : A) :
  never_exits m ->
  forall s, exists a s', try_except m (fun _ => ret b) s = (Ret a, s').
Proof.
  intros Hm s. unfold try_except.
  destruct (m s) as [[a|e|c] s1] eqn:Hs; eauto.
  - now exists b, s1.
  - now elim (Hm _ _ _ c Hs).
Qed.

End NeverExits.

(** ** Transfers, once more *)

Section TransfersAgain.

Variable E : env.

Lemma ensure_dir_only_disk path : framed only_disk (ensure_dir E path).
Proof. apply framed_ensure_dir; stays. Qed.

(** A transfer sends one GET, whatever comes of it, and touches neither
    the log nor the children. *)
Lemma fetch_effects u t s out s' :
  fetch E u t s = (out, s') ->
  LOG s' = LOG s /\ spawned s' = spawned s
  /\ requests s' = requests s ++ [("GET", u)].
Proof.
  intros H.
  destruct (fetch_run E u t s)
    as [(_ & e & Hf)|(code & chunks & complete & _ & _
                      & [(_ & e & Hf)|(_ & s2 & Hf & _ & L & C & Q)])];
    rewrite Hf in H; injection H as _ <-; now repeat split.
Qed.

(** X9.  A transfer is all or nothing on the way in: when it returns, the
    response was complete with a status below 400 and the destination
    holds exactly the body, whatever it held before; and when the server
    does not serve the URL the transfer raises with the disk untouched,
    the destination neither created nor emptied. *)
Theorem fetch_writes_whole_body_or_raises
    (u : value) (t : string) (s : state) :
  (forall s',
     fetch E u t s = (Ret tt, s') ->
     exists code chunks,
       http_get E u = Status code chunks true
       /\ refuses E u = false
       /\ lookup E t s' = Some (File (body_of chunks)))
  /\ (refuses E u = true ->
      disk (snd (fetch E u t s)) = disk s
      /\ exists e, fst (fetch E u t s) = Raise e).
Proof.
  destruct (fetch_run E u t s)
    as [(Hr & e & Hf)|(code & chunks & complete & Hg & Hr
                       & [(_ & e & Hf)|(_ & s2 & Hf & Hl & _)])];
    rewrite Hf; (split; [|rewrite Hr; try discriminate]).
  - discriminate.
  - intros _. cbn. eauto.
  - discriminate.
  - intros s' H. exists code, chunks.
    destruct (snd (lands E t "" chunks)) eqn:Hall; [|discriminate].
    destruct complete; [|discriminate]. injection H as <-.
    repeat split; [exact Hg | exact Hr|].
    now rewrite Hl, (lands_complete _ _ _ _ Hall).
Qed.

End TransfersAgain.

Lemma fetch_writes_whole_body_or_raises_witness :
  lookup (scenario cdn no_fault (Exited 0)) "/mc/a.jar"
    (snd (fetch (scenario cdn no_fault (Exited 0)) (VStr "https://cdn/a.jar")
            "/mc/a.jar" (start home_disk)))
  = Some (File "AAAABBBB")
  /\ disk (snd (fetch (scenario cdn no_fault (Exited 0))
                  (VStr "https://cdn/gone.jar") "/mc/a.jar" (start home_disk)))
     = home_disk.
Proof.
  split.
  - destruct (proj1 (fetch_writes_whole_body_or_raises
                       (scenario cdn no_fault (Exited 0))
                       (VStr "https://cdn/a.jar") "/mc/a.jar" (start home_disk))
                (snd (fetch (scenario cdn no_fault (Exited 0))
                        (VStr "https://cdn/a.jar") "/mc/a.jar"
                        (start home_disk))))
      as (code & chunks & Hg & _ & Hl).
    + vm_compute. reflexivity.
    + rewrite Hl. injection Hg as _ <-. reflexivity.
  - apply (proj2 (fetch_writes_whole_body_or_raises
                    (scenario cdn no_fault (Exited 0))
                    (VStr "https://cdn/gone.jar") "/mc/a.jar"
                    (start home_disk))).
    reflexivity.
Defined.

Section TransferLoops.

Variable E : env.

Lemma len_cons {A} (x : A) l : len (x :: l) = (len l + 1)%Z.
Proof. unfold len. cbn [List.length]. lia. Qed.

Lemma len_nonneg {A} (l : list A) : (0 <= len l)%Z.
Proof. unfold len. lia. Qed.

(** The loop, when it returns: one GET per entry in order, nothing logged,
    and every entry in one of the two counters. *)
Lemma transfer_loop_effects items :
  forall a b s a' b' s',
    transfer_loop E items a b s = (Ret (a', b'), s') ->
    LOG s' = LOG s /\ spawned s' = spawned s
    /\ requests s'
       = requests s ++ map (fun it => ("GET", fst (fst it))) items
    /\ (a <= a')%Z /\ (b <= b')%Z
    /\ (a' + b' = a + b + len items)%Z.
Proof.
  induction items as [|[[u t] sz] items IH]; intros a b s a' b' s' H.
  - injection H as <- <- <-. cbn [map]. rewrite app_nil_r.
    unfold len. cbn. repeat split; lia.
  - cbn [transfer_loop] in H. unfold bind at 1 in H.
    destruct (ensure_dir E (PosixPath.dirname t) s) as [o1 s1] eqn:He.
    pose proof (ensure_dir_only_disk _ _ _ _ _ He) as (L1 & Q1 & C1).
    destruct o1 as [[]|e|c]; try discriminate.
    unfold bind at 1 in H.
    destruct (try_except _ _ s1) as [o2 s2] eqn:Ht.
    assert (Hf : LOG s2 = LOG s1 /\ spawned s2 = spawned s1
                 /\ requests s2 = requests s1 ++ [("GET", u)]).
    { unfold try_except, bind in Ht.
      destruct (fetch E u t s1) as [o3 s3] eqn:Hf.
      pose proof (fetch_effects _ _ _ _ _ _ Hf) as Hfx.
      destruct o3 as [[]|e|c]; injection Ht as _ <-; exact Hfx. }
    destruct Hf as (L2 & C2 & Q2).
    rewrite len_cons. cbn [map fst].
    destruct o2 as [[|]|e|c]; try discriminate;
      apply IH in H; destruct H as (L3 & C3 & Q3 & Ha & Hb & Hs);
      (repeat split; [congruence | congruence | | lia | lia | lia]);
      rewrite Q3, Q2, Q1, <- app_assoc; reflexivity.
Qed.

Lemma probe_sizes_spec urls :
  forall s,
    probe_sizes E urls s
    = (Ret (map (head_or_zero E) urls),
       {| LOG := LOG s; disk := disk s;
          requests := requests s ++ map (pair "HEAD") urls;
          spawned := spawned s |}).
Proof.
  induction urls as [|u urls IH]; intros s.
  - cbn. rewrite app_nil_r. now destruct s.
  - cbn [probe_sizes]. unfold bind at 1. unfold head_size at 1.
    unfold bind at 1. rewrite IH. unfold ret. cbn. rewrite <- app_assoc.
    reflexivity.
Qed.

Lemma log_all_spec level ms :
  forall s,
    log_all level ms s
    = (Ret tt, set_LOG (LOG s ++ map (pair level) ms) s).
Proof.
  induction ms as [|m ms IH]; intros s.
  - cbn. now rewrite app_nil_r, set_LOG_same.
  - cbn [log_all]. unfold bind, log. rewrite IH. cbn.
    now rewrite <- app_assoc.
Qed.

Lemma map_fst_combine {A B} (l : list A) (l' : list B) :
  (List.length l <= List.length l')%nat -> map fst (combine l l') = l.
Proof.
  revert l'. induction l as [|x l IH]; intros [|y l'] H; cbn in *;
    try reflexivity; try lia.
  rewrite IH; [reflexivity | lia].
Qed.

Lemma zip3_entries (urls : list value) (targets : list string) (sizes : list Z) :
  List.length sizes = List.length urls ->
  map (fun it => fst (fst it)) (zip3 urls targets sizes)
  = zipped_urls urls targets
  /\ len (zip3 urls targets sizes) = len (combine urls targets).
Proof.
  intros H. unfold zip3, zipped_urls, len.
  assert (Hl : (List.length (combine urls targets) <= List.length sizes)%nat).
  { rewrite length_combine. lia. }
  split.
  - rewrite <- (map_map fst fst). now rewrite map_fst_combine.
  - rewrite length_combine. f_equal. lia.
Qed.

(** The transfer phase of a download, from its start at two zero
    counters. *)
Lemma transfer_phase urls targets s a b s' :
  transfer_loop E (zip3 urls targets (map (head_or_zero E) urls)) 0 0 s
  = (Ret (a, b), s') ->
  (0 <= a)%Z /\ (0 <= b)%Z /\ (a + b = len (combine urls targets))%Z
  /\ LOG s' = LOG s /\ spawned s' = spawned s
  /\ requests s' = requests s ++ map (pair "GET") (zipped_urls urls targets).
Proof.
  intros H. apply transfer_loop_effects in H as (L & C & Q & Ha & Hb & Hs).
  destruct (zip3_entries urls targets (map (head_or_zero E) urls)
              (length_map _ _)) as [Hu Hn].
  rewrite Hn in Hs. repeat split; try assumption; try lia.
  rewrite Q, <- Hu, map_map. reflexivity.
Qed.

(** The counters of the loop are the transfers that returned and the ones
    that did not. *)
Lemma transfer_loop_transfers items :
  forall a b s a' b' s',
    transfer_loop E items a b s = (Ret (a', b'), s') ->
    exists oks,
      transfers E items s oks s'
      /\ a' = (a + successes oks)%Z /\ b' = (b + failures oks)%Z
      /\ List.length oks = List.length items.
Proof.
  induction items as [|[[u t] sz] items IH]; intros a b s a' b' s' H.
  - injection H as <- <- <-. exists []. unfold successes, failures. cbn.
    repeat split; [constructor | lia | lia].
  - cbn [transfer_loop] in H. unfold bind at 1 in H.
    destruct (ensure_dir E (PosixPath.dirname t) s) as [o1 s1] eqn:He.
    destruct o1 as [[]|e|c]; try discriminate.
    unfold bind at 1 in H. unfold try_except, bind in H.
    destruct (fetch E u t s1) as [o2 s2] eqn:Hf.
    destruct o2 as [[]|e|c]; cbv beta iota delta [ret] in H;
      try (now elim (fetch_never_exits _ _ _ _ _ _ c Hf));
      apply IH in H as (oks & Ht & -> & -> & Hl);
      (eexists; split; [exact (transfers_cons _ _ _ _ _ _ _ _ _ _ _ He Hf Ht)|]);
      unfold successes, failures in *; cbn [is_ret filter negb List.length];
      repeat split; lia.
Qed.

(** A transfer of a URL the server does not serve is among the ones that
    did not return. *)
Lemma transfers_refused items s oks s' :
  transfers E items s oks s' ->
  forall u t sz,
    In (u, t, sz) items -> refuses E u = true -> In false oks.
Proof.
  induction 1 as [|u0 t0 sz0 items s s1 out s2 oks s' He Hf Ht IH];
    intros u t sz Hin Hr; [easy|].
  destruct Hin as [[= -> -> ->]|Hin]; [|right; exact (IH _ _ _ Hin Hr)].
  left.
  destruct (fetch_run E u t s1)
    as [(_ & e & Hx)|(code & chunks & complete & _ & Hno & _)];
    [|congruence].
  rewrite Hx in Hf. now injection Hf as <- _.
Qed.

Lemma failures_zero oks :
  failures oks = 0%Z <-> forall ok, In ok oks -> ok = true.
Proof.
  unfold failures. induction oks as [|[|] oks IH]; cbn [filter negb List.length].
  - split; [easy | reflexivity].
  - rewrite IH. split.
    + intros H ok [<-|Hin]; [reflexivity | now apply H].
    + intros H ok Hin. apply H. now right.
  - split; [lia|]. intros H. now specialize (H false (or_introl eq_refl)).
Qed.

(** What a download leaves when it returns, with Rich and without. *)
Lemma download_with_rich_effects urls targets description s s' :
  download_with_rich E urls targets description s = (Ret tt, s') ->
  exists success failed,
    (0 <= success)%Z /\ (0 <= failed)%Z
    /\ (success + failed = len (combine urls targets))%Z
    /\ spawned s' = spawned s
    /\ requests s'
       = requests s ++ map (pair "HEAD") urls
         ++ map (pair "GET") (zipped_urls urls targets)
    /\ LOG s'
       = LOG s
         ++ (if RICH_AVAILABLE E
             then [("COMMENT",
                    [T "Starting "] ++ description
                      ++ [T ": "; I (len urls); T " ";
                          T (pluralize (len urls) "file" None);
                          T ", approx ";
                          Size (sum_sizes (map (head_or_zero E) urls))])]
             else [])
         ++ map (pair (ok_or_warn failed))
              (format_received_message success (success + failed) "file")
         ++ (if RICH_AVAILABLE E
             then [(ok_or_warn failed,
                    description
                      ++ [T " finished; elapsed "; Elapsed; T "s; approx ";
                          Size (sum_sizes (map (head_or_zero E) urls))])]
             else [("COMMENT",
                    [T "Total download size approx ";
                     Size (sum_sizes (map (head_or_zero E) urls));
                     T "; elapsed "; Elapsed; T "s"])]).
Proof.
  unfold download_with_rich, download_with_cumulative_fallback.
  destruct (RICH_AVAILABLE E); cbn [negb].
  - unfold bind at 1. rewrite probe_sizes_spec.
    unfold bind at 1. unfold log at 1. unfold bind at 1.
    match goal with
    | |- context [transfer_loop E ?i 0%Z 0%Z ?st] =>
        destruct (transfer_loop E i 0%Z 0%Z st) as [o1 s1] eqn:Ht
    end.
    destruct o1 as [[a b]|e|c]; try discriminate.
    apply transfer_phase in Ht as (Ha & Hb & Hs & L & C & Q).
    unfold bind at 1. rewrite log_all_spec. unfold log. intros [= <-].
    exists a, b. cbn in L, C, Q |- *. rewrite L, Q, <- !app_assoc.
    repeat split; assumption.
  - unfold bind at 1. rewrite probe_sizes_spec. unfold bind at 1.
    match goal with
    | |- context [transfer_loop E ?i 0%Z 0%Z ?st] =>
        destruct (transfer_loop E i 0%Z 0%Z st) as [o1 s1] eqn:Ht
    end.
    destruct o1 as [[a b]|e|c]; try discriminate.
    apply transfer_phase in Ht as (Ha & Hb & Hs & L & C & Q).
    unfold bind at 1. rewrite log_all_spec. unfold log. intros [= <-].
    exists a, b. cbn in L, C, Q |- *. rewrite L, Q, <- !app_assoc.
    repeat split; assumption.
Qed.

Lemma successes_failures oks :
  (successes oks + failures oks)%Z = len oks.
Proof.
  unfold successes, failures, len.
  induction oks as [|[|] oks IH]; cbn [filter negb List.length]; lia.
Qed.

(** The report of a download that returned, with Rich on, by the run of
    its transfers. *)
Lemma download_with_rich_transfers urls targets description s s' :
  RICH_AVAILABLE E = true ->
  download_with_rich E urls targets description s = (Ret tt, s') ->
  exists oks s1 s2,
    transfers E (zip3 urls targets (map (head_or_zero E) urls)) s1 oks s2
    /\ disk s1 = disk s /\ disk s' = disk s2
    /\ List.length oks = List.length (combine urls targets)
    /\ LOG s'
       = LOG s
         ++ [("COMMENT",
              [T "Starting "] ++ description
                ++ [T ": "; I (len urls); T " ";
                    T (pluralize (len urls) "file" None); T ", approx ";
                    Size (sum_sizes (map (head_or_zero E) urls))])]
         ++ map (pair (ok_or_warn (failures oks)))
              (format_received_message (successes oks)
                 (successes oks + failures oks) "file")
         ++ [(ok_or_warn (failures oks),
              description
                ++ [T " finished; elapsed "; Elapsed; T "s; approx ";
                    Size (sum_sizes (map (head_or_zero E) urls))])].
Proof.
  intros Hrich. unfold download_with_rich. rewrite Hrich. cbn [negb].
  unfold bind at 1. rewrite probe_sizes_spec.
  unfold bind at 1. unfold log at 1. unfold bind at 1.
  match goal with
  | |- context [transfer_loop E ?i 0%Z 0%Z ?st] =>
      destruct (transfer_loop E i 0%Z 0%Z st) as [o1 s1] eqn:Ht
  end.
  destruct o1 as [[a b]|e|c]; try discriminate.
  pose proof (transfer_phase _ _ _ _ _ _ Ht) as (_ & _ & _ & L & _ & _).
  apply transfer_loop_transfers in Ht as (oks & Hrun & -> & -> & Hl).
  unfold bind at 1. rewrite log_all_spec. unfold log. intros [= <-].
  do 3 eexists. split; [exact Hrun|].
  split; [reflexivity|]. split; [reflexivity|].
  split.
  - rewrite Hl. unfold zip3. rewrite length_combine, length_map, length_combine.
    lia.
  - cbn in L |- *. rewrite L, <- !app_assoc. reflexivity.
Qed.

End TransferLoops.

Section Reports.

Variable E : env.

(** X10.  When [download_with_rich] returns (with Rich on), it has gone
    through the entries of the plan in order, one transfer each, on the
    disk it was given: [oks] tells which transfers returned.  The count it
    logs as received is the number of transfers that returned, out of the
    number of entries; the start notice, the count messages and the
    closing line are logged in this order, the last two at the level [OK]
    exactly when every transfer returned and at [WARN] otherwise, which is
    the case as soon as the server does not serve one of the URLs. *)
Theorem download_reports_every_entry
    (urls : list value) (targets : list string) (description : message)
    (s s' : state) :
  RICH_AVAILABLE E = true ->
  download_with_rich E urls targets description s = (Ret tt, s') ->
  exists oks s1 s2,
    transfers E (zip3 urls targets (map (head_or_zero E) urls)) s1 oks s2
    /\ disk s1 = disk s /\ disk s' = disk s2
    /\ List.length oks = List.length (combine urls targets)
    /\ (successes oks + failures oks = len (combine urls targets))%Z
    /\ (ok_or_warn (failures oks) = "OK"
        <-> forall ok, In ok oks -> ok = true)
    /\ (ok_or_warn (failures oks) = "OK"
        \/ ok_or_warn (failures oks) = "WARN")
    /\ (forall u, In u (zipped_urls urls targets) -> refuses E u = true ->
        ok_or_warn (failures oks) = "WARN")
    /\ LOG s'
       = LOG s
         ++ [("COMMENT",
              [T "Starting "] ++ description
                ++ [T ": "; I (len urls); T " ";
                    T (pluralize (len urls) "file" None); T ", approx ";
                    Size (sum_sizes (map (head_or_zero E) urls))])]
         ++ map (pair (ok_or_warn (failures oks)))
              (format_received_message (successes oks)
                 (successes oks + failures oks) "file")
         ++ [(ok_or_warn (failures oks),
              description
                ++ [T " finished; elapsed "; Elapsed; T "s; approx ";
                    Size (sum_sizes (map (head_or_zero E) urls))])].
Proof.
  intros Hrich H.
  destruct (download_with_rich_transfers E _ _ _ _ _ Hrich H)
    as (oks & s1 & s2 & Hrun & D1 & D2 & Hl & L).
  assert (Hlevel : ok_or_warn (failures oks) = "OK"
                   <-> forall ok, In ok oks -> ok = true).
  { rewrite <- failures_zero. unfold ok_or_warn.
    destruct (Z.eqb_spec (failures oks) 0); split; congruence. }
  exists oks, s1, s2.
  split; [exact Hrun|]. split; [exact D1|]. split; [exact D2|].
  split; [exact Hl|].
  split; [rewrite successes_failures; unfold len; now rewrite Hl|].
  split; [exact Hlevel|].
  split; [unfold ok_or_warn; destruct (Z.eqb _ 0); [now left | now right]|].
  split; [|exact L].
  intros u Hin Hr.
  destruct (zip3_entries urls targets (map (head_or_zero E) urls)
              (length_map _ _)) as [Hu _].
  rewrite <- Hu in Hin. apply in_map_iff in Hin as ([[u' t] sz] & <- & Hin).
  pose proof (transfers_refused E _ _ _ _ Hrun _ _ _ Hin Hr) as Hf.
  unfold ok_or_warn. destruct (Z.eqb_spec (failures oks) 0) as [Hz|]; [|reflexivity].
  apply failures_zero with (ok := false) in Hz; [discriminate | exact Hf].
Qed.

(** X11.  When a download returns, with Rich or without, it has probed
    every URL with one HEAD, in order, before the first GET, and then sent
    exactly one GET per entry, in the order of the plan; no child process
    was started. *)
Theorem download_probes_then_fetches_in_order
    (urls : list value) (targets : list string) (description : message)
    (s s' : state) :
  download_with_rich E urls targets description s = (Ret tt, s') ->
  requests s'
  = requests s ++ map (pair "HEAD") urls
    ++ map (pair "GET") (zipped_urls urls targets)
  /\ spawned s' = spawned s.
Proof.
  intros H.
  destruct (download_with_rich_effects E _ _ _ _ _ H)
    as (a & b & _ & _ & _ & C & Q & _).
  now split.
Qed.

Lemma copy_body_never_exits src t :
  never_exits
    (bind (ensure_dir E (PosixPath.dirname t))
          (fun _ => bind (copy2 E src t) (fun _ => ret true))).
Proof.
  apply never_exits_bind; [apply never_exits_ensure_dir|]. intros _.
  apply never_exits_bind; [apply never_exits_copy2|]. intros _.
  apply never_exits_ret.
Qed.

Lemma copy_loop_spec files :
  forall c f s,
  exists c' f' s',
    copy_loop E files c f s = (Ret (c', f'), s')
    /\ (c <= c')%Z /\ (f <= f')%Z /\ (c' + f' = c + f + len files)%Z.
Proof.
  induction files as [|[[src t] rel] files IH]; intros c f s.
  - exists c, f, s. unfold len. cbn. repeat split; lia.
  - cbn [copy_loop]. unfold bind at 1.
    destruct (try_returns _ false (copy_body_never_exits src t) s)
      as (ok & s1 & Hb).
    rewrite Hb. rewrite len_cons.
    destruct ok; [destruct (IH (c + 1)%Z f s1) as (c' & f' & s' & Hl & ?)
                 | destruct (IH c (f + 1)%Z s1) as (c' & f' & s' & Hl & ?)];
      exists c', f', s'; rewrite Hl; repeat split; lia.
Qed.

Lemma files_below_length src dest s td :
  src = PosixPath.join td "overrides" ->
  forall files s1,
    files_below E src dest s = (Ret files, s1) ->
    s1 = s /\ len files = len (override_files E td s).
Proof.
  intros -> files s1. unfold files_below, override_files. intros [= <- <-].
  split; [reflexivity|]. unfold len.
  destruct (lookup E _ s); [now rewrite length_map | reflexivity].
Qed.

Lemma no_directory_no_files td s :
  path_isdir E (PosixPath.join td "overrides") s = false ->
  len (override_files E td s) = 0%Z.
Proof.
  unfold path_isdir, override_files.
  now destruct (lookup E _ s) as [[d|es]|].
Qed.

Lemma apply_overrides_run td dest s :
  exists copied failed s',
    (0 <= copied)%Z /\ (0 <= failed)%Z
    /\ (copied + failed = len (override_files E td s))%Z
    /\ apply_overrides_with_rich E td dest s = (Ret tt, s')
    /\ LOG s'
       = LOG s
         ++ (if path_isdir E (PosixPath.join td "overrides") s
             then ("COMMENT",
                   [T "Parsing and moving modpack: ";
                    I (len (override_files E td s)); T " ";
                    T (pluralize (len (override_files E td s)) "file" None)])
                  :: map (pair (ok_or_warn failed))
                       (format_copied_message copied (copied + failed) "file")
             else [("COMMENT", [T "No overrides directory present"])]).
Proof.
  unfold apply_overrides_with_rich. unfold bind at 1.
  destruct (path_isdir E (PosixPath.join td "overrides") s) eqn:Hd;
    cbn [negb].
  - unfold bind at 1.
    destruct (files_below E (PosixPath.join td "overrides") dest s)
      as [o0 s0] eqn:Hfb.
    assert (Ho : exists files, o0 = Ret files).
    { unfold files_below in Hfb. injection Hfb as <- _. eauto. }
    destruct Ho as [files ->].
    destruct (files_below_length _ _ _ _ eq_refl _ _ Hfb) as [-> Hlen].
    unfold bind at 1. unfold log at 1. unfold bind at 1.
    match goal with
    | |- context [copy_loop E files 0%Z 0%Z ?st] =>
        destruct (copy_loop_spec files 0%Z 0%Z st)
          as (c' & f' & s1 & Hc & Hc0 & Hf0 & Hsum);
        pose proof (framed_copy_loop E only_disk
                      ltac:(stays) ltac:(stays) ltac:(stays) _ _ _ _ _ _ Hc)
          as (L1 & _)
    end.
    rewrite Hc, log_all_spec. exists c', f'. eexists.
    split; [lia|]. split; [lia|]. split; [lia|]. split; [reflexivity|].
    cbn [LOG set_LOG] in L1 |- *. rewrite L1, Hlen, <- app_assoc. reflexivity.
  - exists 0%Z, 0%Z. eexists. rewrite (no_directory_no_files _ _ Hd).
    split; [lia|]. split; [lia|]. split; [lia|]. split; reflexivity.
Qed.

(** X12.  [apply_overrides_with_rich] always returns: a file that cannot
    be copied is counted, never raised.  It sends nothing and starts
    nothing, and what it logs is the notice that there is no [overrides]
    directory or, when there is one, the number of files found below it
    followed by counts that are not negative and add up to that number. *)
Theorem apply_overrides_counts_every_file
    (td dest : string) (s : state) :
  exists copied failed,
    (0 <= copied)%Z /\ (0 <= failed)%Z
    /\ (copied + failed = len (override_files E td s))%Z
    /\ fst (apply_overrides_with_rich E td dest s) = Ret tt
    /\ offline s (snd (apply_overrides_with_rich E td dest s))
    /\ LOG (snd (apply_overrides_with_rich E td dest s))
       = LOG s
         ++ (if path_isdir E (PosixPath.join td "overrides") s
             then ("COMMENT",
                   [T "Parsing and moving modpack: ";
                    I (len (override_files E td s)); T " ";
                    T (pluralize (len (override_files E td s)) "file" None)])
                  :: map (pair (ok_or_warn failed))
                       (format_copied_message copied (copied + failed) "file")
             else [("COMMENT", [T "No overrides directory present"])]).
Proof.
  assert (Hoff : offline s (snd (apply_overrides_with_rich E td dest s))).
  { apply framed_snd. apply framed_apply_overrides; stays. }
  destruct (apply_overrides_run td dest s)
    as (c & f & s' & Hc & Hf & Hsum & Hrun & Hlog).
  rewrite Hrun in *. exists c, f.
  split; [exact Hc|]. split; [exact Hf|]. split; [exact Hsum|].
  split; [reflexivity|]. split; [exact Hoff | exact Hlog].
Qed.

End Reports.

Lemma download_reports_every_entry_witness :
  exists oks,
    In false oks
    /\ (successes oks + failures oks = 2)%Z
    /\ LOG (snd (download_with_rich (scenario cdn no_fault (Exited 0))
                   [VStr "https://cdn/a.jar"; VStr "https://cdn/gone.jar"]
                   ["/mc/mods/a.jar"; "/mc/mods/gone.jar"]
                   [T "Downloading "; I 2; T " files"] (start home_disk)))
       = [("COMMENT",
           [T "Starting "; T "Downloading "; I 2; T " files"; T ": "; I 2;
            T " "; T "files"; T ", approx "; Size 0])]
         ++ map (pair "WARN")
              (format_received_message (successes oks)
                 (successes oks + failures oks) "file")
         ++ [("WARN",
              [T "Downloading "; I 2; T " files"; T " finished; elapsed ";
               Elapsed; T "s; approx "; Size 0])].
Proof.
  destruct (download_reports_every_entry (scenario cdn no_fault (Exited 0))
              [VStr "https://cdn/a.jar"; VStr "https://cdn/gone.jar"]
              ["/mc/mods/a.jar"; "/mc/mods/gone.jar"]
              [T "Downloading "; I 2; T " files"] (start home_disk)
              (snd (download_with_rich (scenario cdn no_fault (Exited 0))
                      [VStr "https://cdn/a.jar"; VStr "https://cdn/gone.jar"]
                      ["/mc/mods/a.jar"; "/mc/mods/gone.jar"]
                      [T "Downloading "; I 2; T " files"] (start home_disk)))
              eq_refl)
    as (oks & s1 & s2 & Hrun & _ & _ & _ & Hs & Hok & _ & Hwarn & L).
  - vm_compute. reflexivity.
  - assert (Hw : ok_or_warn (failures oks) = "WARN").
    { apply (Hwarn (VStr "https://cdn/gone.jar"));
        [right; left; reflexivity | vm_compute; reflexivity]. }
    exists oks. split.
    + destruct (in_dec Bool.bool_dec false oks) as [Hin|Hout]; [exact Hin|].
      exfalso.
      assert (Hall : forall ok, In ok oks -> ok = true).
      { intros [|] Hin; [reflexivity | now elim Hout]. }
      apply Hok in Hall. rewrite Hw in Hall. discriminate.
    + split; [exact Hs|]. rewrite <- Hw. exact L.
Defined.

Lemma download_probes_then_fetches_in_order_witness :
  requests (snd (download_with_rich (scenario cdn no_fault (Exited 0))
                   [VStr "https://cdn/a.jar"; VStr "https://cdn/gone.jar"]
                   ["/mc/mods/a.jar"; "/mc/mods/gone.jar"]
                   [T "Downloading "; I 2; T " files"] (start home_disk)))
  = [("HEAD", VStr "https://cdn/a.jar"); ("HEAD", VStr "https://cdn/gone.jar");
     ("GET", VStr "https://cdn/a.jar"); ("GET", VStr "https://cdn/gone.jar")].
Proof.
  apply (download_probes_then_fetches_in_order
           (scenario cdn no_fault (Exited 0))
           [VStr "https://cdn/a.jar"; VStr "https://cdn/gone.jar"]
           ["/mc/mods/a.jar"; "/mc/mods/gone.jar"]
           [T "Downloading "; I 2; T " files"] (start home_disk)).
  vm_compute. reflexivity.
Defined.

(** ** The Fabric installer, once more *)

Section InstallerAgain.

Variable E : env.

Lemma check_call_cases cmd s out s' :
  check_call E cmd s = (out, s') ->
  (str_args cmd = None /\ out = Raise TypeError /\ s' = s)
  \/ (exists args e d,
        str_args cmd = Some args
        /\ run_child E args (disk s) = (NotStarted e, d)
        /\ out = Raise e /\ s' = s)
  \/ (exists args c d,
        str_args cmd = Some args
        /\ run_child E args (disk s) = (Exited c, d)
        /\ s' = add_spawned args (set_disk d s)
        /\ out = if Z.eqb c 0 then Ret tt else Raise (CalledProcessError c)).
Proof.
  unfold check_call. destruct (str_args cmd) as [args|].
  - destruct (run_child E args (disk s)) as [[c|e] d] eqn:Hr.
    + intros H. right. right. exists args, c, d.
      destruct (Z.eqb c 0); injection H as <- <-; now repeat split.
    + intros [= <- <-]. right. left. exists args, e, d. now repeat split.
  - intros [= <- <-]. now left.
Qed.

(** The second half of [run_fabric_installer]: the notice, the child, the
    two handlers. *)
Lemma installer_child_cases cmd s out s' :
  bind (log "USER" [T "Running Fabric installer"])
    (fun _ =>
       try_except
         (bind (check_call E cmd)
               (fun _ => log "OK" [T "Fabric loader installed successfully"]))
         (fun e =>
            match e with
            | CalledProcessError code =>
                log "ERROR" [T "Fabric installer failed (exit "; I code; T ")"]
            | _ => raise e
            end)) s
  = (out, s') ->
  (str_args cmd = None /\ out = Raise TypeError /\ spawned s' = spawned s)
  \/ (exists args e d0 d,
        str_args cmd = Some args
        /\ run_child E args d0 = (NotStarted e, d)
        /\ spawned s' = spawned s)
  \/ (exists args,
        str_args cmd = Some args /\ out = Ret tt
        /\ spawned s' = spawned s ++ [args]).
Proof.
  unfold bind at 1. unfold log at 1. unfold try_except, bind.
  match goal with
  | |- context [check_call E cmd ?st] =>
      destruct (check_call E cmd st) as [o1 s1] eqn:Hc
  end.
  apply check_call_cases in Hc
    as [(Hn & -> & ->)|[(args & e & d & Ha & Hr & -> & ->)
                       |(args & c & d & Ha & Hr & -> & ->)]].
  - intros [= <- <-]. now left.
  - intros H. right. left. exists args, e. eexists. exists d.
    split; [exact Ha|]. split; [exact Hr|].
    destruct e; injection H as _ <-; reflexivity.
  - intros H. right. right. exists args. split; [exact Ha|].
    destruct (Z.eqb c 0); unfold log in H; cbv beta iota in H;
      injection H as <- <-; (split; reflexivity).
Qed.

Lemma installer_cmd_eq mc loader_version mc_version :
  (if truthy mc_version
   then [VStr "java"; VStr "-jar"; VStr (installer_path E); VStr "client";
         VStr "-dir"; VStr mc; VStr "-loader"; loader_version]
        ++ [VStr "-mcversion"; mc_version]
   else [VStr "java"; VStr "-jar"; VStr (installer_path E); VStr "client";
         VStr "-dir"; VStr mc; VStr "-loader"; loader_version])
  = installer_cmd E mc loader_version mc_version.
Proof. unfold installer_cmd. now destruct (truthy mc_version). Qed.

Lemma run_fabric_installer_cases mc loader_version mc_version s out s' :
  run_fabric_installer E mc loader_version mc_version s = (out, s') ->
  (out = Ret tt /\ spawned s' = spawned s)
  \/ (str_args (installer_cmd E mc loader_version mc_version) = None
      /\ out = Raise TypeError /\ spawned s' = spawned s)
  \/ (exists args e d0 d,
        str_args (installer_cmd E mc loader_version mc_version) = Some args
        /\ run_child E args d0 = (NotStarted e, d)
        /\ spawned s' = spawned s)
  \/ (exists args,
        str_args (installer_cmd E mc loader_version mc_version) = Some args
        /\ out = Ret tt /\ spawned s' = spawned s ++ [args]).
Proof.
  unfold run_fabric_installer. cbv zeta. rewrite installer_cmd_eq.
  unfold bind at 1. unfold log at 1. unfold bind at 1.
  unfold try_except at 1. unfold bind at 1.
  match goal with
  | |- context [download_with_rich E ?u ?t ?d ?st] =>
      destruct (download_with_rich E u t d st) as [o1 s1] eqn:Hd;
      pose proof (framed_download_with_rich E same_children
                    ltac:(stays) ltac:(stays) ltac:(stays) ltac:(stays)
                    ltac:(stays) _ _ _ _ _ _ Hd) as C1;
      pose proof (fun c => never_exits_download_with_rich E _ _ _ _ _ _ c Hd)
        as X1
  end.
  unfold same_children in C1. cbn [spawned set_LOG] in C1.
  destruct o1 as [[]|e|c]; [| |now elim (X1 c)].
  - unfold ret at 1. cbn [negb]. intros H.
    apply installer_child_cases in H
      as [(Hn & -> & C2)|[(args & e & d0 & d & Ha & Hr & C2)|(args & Ha & -> & C2)]].
    + right. left. repeat split; congruence.
    + right. right. left. exists args, e, d0, d. repeat split; congruence.
    + right. right. right. exists args. repeat split; congruence.
  - unfold bind, log, ret. cbn [negb]. intros [= <- <-]. left. now split.
Qed.

(** X14.  [run_fabric_installer] starts at most one child process, and the
    one it starts is the installer's command line: [java -jar] on the jar
    in the temporary directory, [client -dir] on the Minecraft directory,
    [-loader] and the loader version, and [-mcversion] with the game
    version exactly when the manifest gave one. *)
Theorem run_fabric_installer_starts_one_child
    (mc : string) (loader_version mc_version : value) (s : state) :
  spawned (snd (run_fabric_installer E mc loader_version mc_version s))
  = spawned s
  \/ exists args,
       str_args (installer_cmd E mc loader_version mc_version) = Some args
       /\ spawned (snd (run_fabric_installer E mc loader_version mc_version s))
          = spawned s ++ [args].
Proof.
  destruct (run_fabric_installer E mc loader_version mc_version s)
    as [out s'] eqn:H.
  apply run_fabric_installer_cases in H
    as [(_ & C)|[(_ & _ & C)|[(args & e & d0 & d & _ & _ & C)
                              |(args & Ha & _ & C)]]];
    cbn [snd]; eauto.
Qed.

Lemma str_args_installer_cmd mc loader_version mc_version :
  is_str loader_version = true ->
  truthy mc_version = false \/ is_str mc_version = true ->
  exists args,
    str_args (installer_cmd E mc loader_version mc_version) = Some args.
Proof.
  intros Hl Hm. unfold installer_cmd.
  destruct loader_version; try discriminate Hl.
  destruct (truthy mc_version) eqn:Ht.
  - destruct Hm as [Hm|Hm]; [discriminate|].
    destruct mc_version; try discriminate Hm. cbn. eauto.
  - cbn. eauto.
Qed.

(** X15.  When the child process can be started and the versions are
    strings, [run_fabric_installer] returns whatever happens in it: a
    failed download and a non-zero exit are logged, not raised, so the
    installation of the files goes on. *)
Theorem run_fabric_installer_returns
    (mc : string) (loader_version mc_version : value) (s : state) :
  (forall args d, exists c, fst (run_child E args d) = Exited c) ->
  is_str loader_version = true ->
  truthy mc_version = false \/ is_str mc_version = true ->
  fst (run_fabric_installer E mc loader_version mc_version s) = Ret tt.
Proof.
  intros Hchild Hl Hm.
  destruct (str_args_installer_cmd mc _ _ Hl Hm) as [args0 Hargs].
  destruct (run_fabric_installer E mc loader_version mc_version s)
    as [out s'] eqn:H.
  apply run_fabric_installer_cases in H
    as [(-> & _)|[(Hn & _)|[(args & e & d0 & d & _ & Hr & _)
                           |(args & _ & -> & _)]]];
    cbn [fst]; try reflexivity.
  - congruence.
  - destruct (Hchild args d0) as [c Hc]. rewrite Hr in Hc. discriminate.
Qed.

End InstallerAgain.

Lemma run_fabric_installer_returns_witness :
  fst (run_fabric_installer (scenario cdn no_fault (Exited 1)) "/mc"
         (VStr "0.16") (VStr "1.21") (start home_disk))
  = Ret tt.
Proof.
  apply (run_fabric_installer_returns (scenario cdn no_fault (Exited 1))
           "/mc" (VStr "0.16") (VStr "1.21") (start home_disk)).
  - intros args d. now exists 1%Z.
  - reflexivity.
  - now right.
Defined.

(** ** How the flows end *)

Section Endings.

Variable E : env.

Lemma never_exits_lift {A} (r : res A) : never_exits (lift r).
Proof. destruct r; [apply never_exits_ret | apply never_exits_raise]. Qed.

Lemma never_exits_read {A} (f : state -> A) :
  never_exits (fun s => (Ret (f s), s)).
Proof. intros s out s' c [= <- _]. discriminate. Qed.

Lemma never_exits_extractall pkg td : never_exits (extractall E pkg td).
Proof.
  intros s out s' c H. unfold extractall in H.
  destruct (lookup E pkg s) as [[d|es]|];
    try (injection H as <- _; discriminate).
  destruct (unzip E d); [|injection H as <- _; discriminate].
  exact (never_exits_syscall _ _ _ _ _ _ _ c H).
Qed.

Lemma never_exits_load_manifest td : never_exits (load_manifest_from_td E td).
Proof.
  intros s out s' c H. unfold load_manifest_from_td in H.
  destruct (lookup E td s) as [[d|es]|];
    try (injection H as <- _; discriminate).
  destruct (walk_find _ _); [|injection H as <- _; discriminate].
  destruct (json_loads E _); injection H as <- _; discriminate.
Qed.

Lemma never_exits_check_call cmd : never_exits (check_call E cmd).
Proof.
  intros s out s' c H.
  apply check_call_cases in H
    as [(_ & -> & _)|[(args & e & d & _ & _ & -> & _)
                     |(args & c1 & d & _ & _ & _ & ->)]];
    try discriminate.
  destruct (Z.eqb c1 0); discriminate.
Qed.

Lemma never_exits_apply_overrides td dest :
  never_exits (apply_overrides_with_rich E td dest).
Proof.
  intros s out s' c H.
  destruct (apply_overrides_run E td dest s)
    as (a & b & s1 & _ & _ & _ & Hr & _).
  rewrite Hr in H. injection H as <- _. discriminate.
Qed.

Lemma never_exits_plan_loop dest overwrite items :
  forall urls targets,
    never_exits (plan_loop E dest overwrite items urls targets).
Proof.
  induction items as [|[url target] items IH]; intros urls targets;
    cbn [plan_loop].
  - apply never_exits_ret.
  - apply never_exits_bind.
    + destruct overwrite; [apply never_exits_ret|].
      unfold os_path_exists. apply never_exits_read.
    + intros [|]; [|apply IH].
      apply never_exits_bind; [apply never_exits_lift|]. intros rel.
      apply never_exits_bind; [apply never_exits_log|]. intros _. apply IH.
Qed.

Ltac quiet :=
  repeat first
    [ apply never_exits_ret | apply never_exits_raise | apply never_exits_lift
    | apply never_exits_log_all | apply never_exits_log
    | apply never_exits_syscall | apply never_exits_ensure_dir
    | apply never_exits_copy2 | apply never_exits_extractall | apply never_exits_load_manifest
    | apply never_exits_check_call | apply never_exits_apply_overrides
    | apply never_exits_plan_loop | apply never_exits_download_with_rich
    | apply never_exits_fallback
    | apply never_exits_bind | apply never_exits_try
    | progress intros
    | match goal with
      | |- never_exits (if ?b then _ else _) => destruct b
      | |- never_exits (match ?x with _ => _ end) => destruct x
      end
    | apply never_exits_read ].

Lemma never_exits_download_and_place manifest dest td overwrite :
  never_exits (download_and_place E manifest dest td overwrite).
Proof. unfold download_and_place, build_plan. quiet. Qed.

Lemma never_exits_run_fabric_installer mc loader_version mc_version :
  never_exits (run_fabric_installer E mc loader_version mc_version).
Proof. unfold run_fabric_installer. cbv zeta. quiet. Qed.

Lemma never_exits_prepare_destination dest title :
  never_exits (prepare_destination E dest title).
Proof.
  unfold prepare_destination, os_path_exists, rmtree_ignore_errors.
  cbv zeta. quiet.
Qed.

Lemma never_exits_manifest_versions manifest :
  never_exits (manifest_versions manifest).
Proof. unfold manifest_versions. cbv zeta. quiet. Qed.

Lemma never_exits_install_stage mc manifest td :
  never_exits (install_stage E mc manifest td).
Proof.
  unfold install_stage, launcher_present.
  apply never_exits_bind; [apply never_exits_manifest_versions|].
  intros [mc_version loader_version].
  apply never_exits_bind; [quiet|]. intros present.
  apply never_exits_bind.
  - destruct present; [|quiet].
    apply never_exits_bind; [apply never_exits_log|]. intros _.
    apply never_exits_run_fabric_installer.
  - intros _. apply never_exits_bind; [apply never_exits_log|]. intros _.
    apply never_exits_download_and_place.
Qed.

Lemma exits_zero_quiet {A} (m : M A) : never_exits m -> exits_zero m.
Proof. intros H s out s' c Hm ->. now elim (H _ _ _ c Hm). Qed.

Lemma exits_zero_exit {A} : exits_zero (@final_summary_and_save E A).
Proof.
  intros s out s' c H ->.
  destruct (final_summary_and_save_cases _ _ _ _ H) as [[[Hx _]|[e He]] _];
    congruence.
Qed.

Lemma exits_zero_bind {A B} (m : M A) (k : A -> M B) :
  exits_zero m -> (forall a, exits_zero (k a)) -> exits_zero (bind m k).
Proof.
  intros Hm Hk s out s' c H ->. unfold bind in H.
  destruct (m s) as [[a|e|c1] s1] eqn:Hs.
  - exact (Hk a _ _ _ c H eq_refl).
  - discriminate.
  - injection H as -> _. exact (Hm _ _ _ c Hs eq_refl).
Qed.

Lemma exits_zero_try {A} (m : M A) (h : exn -> M A) :
  exits_zero m -> (forall e, exits_zero (h e)) ->
  exits_zero (try_except m h).
Proof.
  intros Hm Hh s out s' c H ->. unfold try_except in H.
  destruct (m s) as [[a|e|c1] s1] eqn:Hs.
  - discriminate.
  - exact (Hh e _ _ _ c H eq_refl).
  - injection H as -> _. exact (Hm _ _ _ c Hs eq_refl).
Qed.

Ltac ends :=
  repeat first
    [ apply exits_zero_exit
    | apply exits_zero_quiet;
      first [ apply never_exits_install_stage
            | apply never_exits_prepare_destination
            | apply never_exits_download_and_place
            | solve [quiet] ]
    | apply exits_zero_bind | apply exits_zero_try
    | progress intros
    | match goal with
      | |- exits_zero (if ?b then _ else _) => destruct b
      | |- exits_zero (match ?x with _ => _ end) => destruct x
      end ].

Lemma exits_zero_step_install_flow mc versions :
  exits_zero (step_install_flow E mc versions).
Proof.
  unfold step_install_flow, unpack, install_from_manifest, cleanup,
    rmtree_ignore_errors, os_remove, mkdtemp.
  cbv zeta. ends.
Qed.

Lemma exits_zero_parse_and_download_flow versions :
  exits_zero (parse_and_download_flow E versions).
Proof.
  unfold parse_and_download_flow, unpack, organize_from_manifest,
    organize_stage, cleanup, rmtree_ignore_errors, os_remove, mkdtemp.
  cbv zeta. ends.
Qed.

Lemma never_returns_exit {A} : never_returns (@final_summary_and_save E A).
Proof.
  intros s out s' a H.
  destruct (final_summary_and_save_cases _ _ _ _ H) as [[[-> _]|[e ->]] _];
    discriminate.
Qed.

Lemma never_returns_bind {A B} (m : M A) (k : A -> M B) :
  (forall a, never_returns (k a)) -> never_returns (bind m k).
Proof.
  intros Hk s out s' b H. unfold bind in H.
  destruct (m s) as [[a|e|c1] s1] eqn:Hs.
  - exact (Hk a _ _ _ b H).
  - injection H as <- _. discriminate.
  - injection H as <- _. discriminate.
Qed.

Ltac tails :=
  repeat first
    [ apply never_returns_exit
    | apply never_returns_bind
    | progress intros
    | match goal with
      | |- never_returns (if ?b then _ else _) => destruct b
      | |- never_returns (match ?x with _ => _ end) => destruct x
      end ].

Lemma never_returns_step_install_flow mc versions :
  never_returns (step_install_flow E mc versions).
Proof.
  unfold step_install_flow, install_from_manifest, cleanup.
  cbv zeta. tails.
Qed.

Lemma never_returns_parse_and_download_flow versions :
  never_returns (parse_and_download_flow E versions).
Proof.
  unfold parse_and_download_flow, organize_from_manifest, cleanup.
  cbv zeta. tails.
Qed.

Lemma exit_zero_or_raise (m : M unit) (s : state) :
  exits_zero m -> never_returns m ->
  fst (m s) = Exit 0%Z \/ exists e, fst (m s) = Raise e.
Proof.
  intros Hz Hn. destruct (m s) as [[a|e|c] s1] eqn:Hs; cbn [fst].
  - now elim (Hn _ _ _ a Hs).
  - right. now exists e.
  - left. now rewrite (Hz _ _ _ c Hs eq_refl).
Qed.

(** X18.  Neither flow comes back to its caller: a run ends the process,
    and then with status 0 whatever went wrong on the way (no selection, no
    package, a failed download, a failed extraction, no manifest), or it
    ends with an exception nobody caught. *)
Theorem flows_exit_zero_or_raise (mc : string) (versions : list value)
    (s : state) :
  (fst (step_install_flow E mc versions s) = Exit 0%Z
   \/ exists e, fst (step_install_flow E mc versions s) = Raise e)
  /\ (fst (parse_and_download_flow E versions s) = Exit 0%Z
      \/ exists e, fst (parse_and_download_flow E versions s) = Raise e).
Proof.
  split; apply exit_zero_or_raise.
  - apply exits_zero_step_install_flow.
  - apply never_returns_step_install_flow.
  - apply exits_zero_parse_and_download_flow.
  - apply never_returns_parse_and_download_flow.
Qed.

Lemma never_exits_organize_stage manifest td display_name :
  never_exits (organize_stage E manifest td display_name).
Proof.
  unfold organize_stage. cbv zeta.
  apply never_exits_bind; [apply never_exits_prepare_destination|]. intros _.
  apply never_exits_bind; [apply never_exits_download_and_place|]. intros _.
  apply never_exits_ret.
Qed.

(** The two removals of [cleanup] return whatever happens, and leave the
    run at the final summary. *)
Lemma cleanup_run td tmp_pkg s :
  exists s1,
    cleanup E td tmp_pkg s = final_summary_and_save E s1
    /\ (LOG s1 = LOG s
        \/ LOG s1
           = LOG s ++ [("WARN", [T "Could not remove temporary package ";
                                 T tmp_pkg])])
    /\ requests s1 = requests s /\ spawned s1 = spawned s
    /\ (path_isdir E td s = true -> names_entry (steps E td) = true ->
        faulty E (OpRmtree td) = false -> lookup E td s1 = None).
Proof.
  destruct (rmtree_ignore_errors_spec E td s) as (s1 & Hr & Hl1 & Hq1 & Hc1 & Hgone).
  destruct (remove_package_spec E tmp_pkg s1) as (s2 & Hp & Hl2 & Hq2 & Hc2 & Habs).
  exists s2. unfold cleanup. unfold bind at 1. rewrite Hr.
  unfold bind at 1. rewrite Hp.
  split; [reflexivity|]. rewrite <- Hl1, <- Hq1, <- Hc1.
  repeat split; try assumption.
  intros Hd Hn Hfa. apply Habs. now apply Hgone.
Qed.

(** C5 as the code has it.  [cleanup] removes the scratch directory with
    errors ignored and then the package: both removals return whatever
    happens, the directory is gone unless its removal failed, a failed
    removal of the directory leaves no entry in the log (the only entry
    [cleanup] can add is the warning that the package could not be
    removed), and the run goes on to the final summary, which ends it with
    status 0 once the session log is saved and with an exception when it
    cannot be saved.  Each flow reaches [cleanup] exactly when the stage
    that follows the extraction returns: per-file failures are counted in
    the stage and it returns, but when it ends in an exception the flow
    ends in the same exception, in the state the stage left: nothing is
    removed and no summary is written. *)
Theorem cleanup_runs_when_the_stage_returns :
  (forall td tmp_pkg s,
     exists s1,
       cleanup E td tmp_pkg s = final_summary_and_save E s1
       /\ (LOG s1 = LOG s
           \/ LOG s1
              = LOG s ++ [("WARN", [T "Could not remove temporary package ";
                                    T tmp_pkg])])
       /\ requests s1 = requests s /\ spawned s1 = spawned s
       /\ (path_isdir E td s = true -> names_entry (steps E td) = true ->
           faulty E (OpRmtree td) = false -> lookup E td s1 = None)
       /\ ((fst (cleanup E td tmp_pkg s) = Exit 0%Z
            /\ path_exists E (log_file E) (snd (cleanup E td tmp_pkg s)) = true)
           \/ exists e, fst (cleanup E td tmp_pkg s) = Raise e)
       /\ LOG (snd (cleanup E td tmp_pkg s)) = LOG s1)
  /\ (forall mc manifest td tmp_pkg display_name s,
        (exists e s1,
            install_stage E mc manifest td s = (Raise e, s1)
            /\ install_from_manifest E mc manifest td tmp_pkg display_name s
               = (Raise e, s1))
        \/ (exists s1,
               install_stage E mc manifest td s = (Ret tt, s1)
               /\ install_from_manifest E mc manifest td tmp_pkg display_name s
                  = cleanup E td tmp_pkg
                      (set_LOG
                         (LOG s1
                            ++ [("OK", [T "Installation complete"]);
                                ("OK",
                                 [T "Launch Minecraft with Fabric loader to use ";
                                  T display_name])]) s1)))
  /\ (forall manifest td tmp_pkg display_name s,
        (exists e s1,
            organize_stage E manifest td display_name s = (Raise e, s1)
            /\ organize_from_manifest E manifest td tmp_pkg display_name s
               = (Raise e, s1))
        \/ (exists dest s1,
               organize_stage E manifest td display_name s = (Ret dest, s1)
               /\ organize_from_manifest E manifest td tmp_pkg display_name s
                  = cleanup E td tmp_pkg
                      (set_LOG
                         (LOG s1
                            ++ [("OK", [T "All files downloaded and organized"]);
                                ("COMMENT",
                                 [T "Files are available in: "; T dest])])
                         s1))).
Proof.
  split; [|split].
  - intros td tmp_pkg s.
    destruct (cleanup_run td tmp_pkg s) as (s1 & Hc & L & Q & C & Hgone).
    exists s1. split; [exact Hc|]. split; [exact L|]. split; [exact Q|].
    split; [exact C|]. split; [exact Hgone|]. rewrite Hc.
    destruct (@final_summary_and_save E unit s1) as [out s'] eqn:Hf.
    destruct (final_summary_and_save_cases E _ _ _ Hf) as (Ho & L' & _ & _).
    cbn [fst snd]. split; [|exact L'].
    destruct Ho as [[-> Hx]|[e ->]]; [left; now split | right; now exists e].
  - intros mc manifest td tmp_pkg display_name s.
    destruct (install_stage E mc manifest td s) as [[[]|e|c] s1] eqn:Hs.
    + right. exists s1. split; [reflexivity|].
      unfold install_from_manifest. unfold bind at 1. rewrite Hs.
      unfold bind at 1 2, log. cbn. rewrite <- app_assoc. reflexivity.
    + left. exists e, s1. split; [reflexivity|].
      unfold install_from_manifest. unfold bind at 1. now rewrite Hs.
    + now elim (never_exits_install_stage mc manifest td _ _ _ c Hs).
  - intros manifest td tmp_pkg display_name s.
    destruct (organize_stage E manifest td display_name s)
      as [[dest|e|c] s1] eqn:Hs.
    + right. exists dest, s1. split; [reflexivity|].
      unfold organize_from_manifest. unfold bind at 1. rewrite Hs.
      unfold bind at 1 2, log. cbn. rewrite <- app_assoc. reflexivity.
    + left. exists e, s1. split; [reflexivity|].
      unfold organize_from_manifest. unfold bind at 1. now rewrite Hs.
    + now elim (never_exits_organize_stage manifest td display_name _ _ _ c Hs).
Qed.

End Endings.

(** The theorem of C5 on the scratch directory of a finished installation:
    the directory is gone, the session log is saved and the run ends with
    status 0. *)
Lemma cleanup_runs_when_the_stage_returns_witness :
  exists s1,
    cleanup (scenario cdn no_fault (Exited 0)) "/tmp/x" "/tmp/pack.mrpack"
      (start installed)
    = final_summary_and_save (scenario cdn no_fault (Exited 0)) s1
    /\ lookup (scenario cdn no_fault (Exited 0)) "/tmp/x" s1 = None
    /\ fst (cleanup (scenario cdn no_fault (Exited 0)) "/tmp/x"
              "/tmp/pack.mrpack" (start installed)) = Exit 0%Z.
Proof.
  destruct (proj1 (cleanup_runs_when_the_stage_returns
                     (scenario cdn no_fault (Exited 0)))
              "/tmp/x" "/tmp/pack.mrpack" (start installed))
    as (s1 & Hc & _ & _ & _ & Hgone & _ & _).
  exists s1. split; [exact Hc|]. split.
  - apply Hgone; vm_compute; reflexivity.
  - vm_compute. reflexivity.
Defined.

(** The session log cannot be saved: where [offinstaller-logs] is a
    regular file the installation is complete, the scratch directory and
    the package are removed, and the run ends in [FileExistsError] instead
    of status 0. *)
Example summary_cannot_be_saved :
  let E := scenario cdn_and_maven no_fault (Exited 0) in
  let r := step_install_flow E "/mc" (registry "https://cdn/pack.mrpack")
             (start (Dir [("mc", Dir [("launcher_profiles.json", File "{}")]);
                          ("tmp", Dir []);
                          ("home",
                           Dir [("u", Dir [("offinstaller-logs",
                                            File "notes")])])])) in
  fst r = Raise FileExistsError
  /\ In ("OK", [T "Installation complete"]) (LOG (snd r))
  /\ lookup E "/tmp/tmpab12" (snd r) = None
  /\ lookup E "/tmp/pack.mrpack" (snd r) = None.
Proof.
  cbv zeta. split; [vm_compute; reflexivity|].
  split; [find_entry|]. split; vm_compute; reflexivity.
Qed.

(** The stage after the extraction ends in an exception: where [mods] is a
    regular file the directory of the first destination cannot be made,
    the flow ends in that exception, and the scratch directory and the
    package are left on the disk. *)
Example scratch_directory_left_after_exception :
  let E := scenario cdn_and_maven no_fault (Exited 0) in
  let r := step_install_flow E "/mc" (registry "https://cdn/pack.mrpack")
             (start blocked_disk) in
  fst r = Raise FileExistsError
  /\ path_isdir E "/tmp/tmpab12" (snd r) = true
  /\ path_exists E "/tmp/pack.mrpack" (snd r) = true
  /\ path_exists E (log_file E) (snd r) = false.
Proof. cbv zeta. repeat split; vm_compute; reflexivity. Qed.

(** ** The destination and the bootstrap *)

Section Destination.

Variable E : env.

Lemma bind_returns {A B} (m : M A) (k : A -> M B) s b s' :
  bind m k s = (Ret b, s') ->
  exists a s1, m s = (Ret a, s1) /\ k a s1 = (Ret b, s').
Proof.
  unfold bind. destruct (m s) as [[a|e|c] s1]; try discriminate.
  intros H. now exists a, s1.
Qed.

Lemma ensure_then_log path level m s s' :
  bind (ensure_dir E path) (fun _ => log level m) s = (Ret tt, s') ->
  PosixPath.basename path <> "" -> PosixPath.basename path <> "." ->
  path_exists E path s' = true.
Proof.
  intros H Hne Hdot. apply bind_returns in H as ([] & s1 & H1 & H2).
  injection H2 as <-.
  pose proof (ensure_dir_returns _ _ _ _ H1 Hne Hdot) as Hd.
  unfold path_exists, path_isdir, lookup in *. cbn [disk set_LOG].
  now destruct (resolve E path (disk s1)) as [[?|?]|].
Qed.

(** X19.  [prepare_destination] comes back only with the destination in
    place, when the destination ends in a name, and it touches an existing
    destination only on the answer [Yes, overwrite]: on any other answer,
    and when the prompt is left without one, the disk is as it was.  (For
    a destination that ends in [.] the library's [makedirs] can return
    without the directory, see [prepare_destination_dot].) *)
Theorem prepare_destination_keeps_unless_told
    (dest title : string) (s s' : state) :
  prepare_destination E dest title s = (Ret tt, s') ->
  (PosixPath.basename dest <> "" -> PosixPath.basename dest <> "." ->
   path_exists E dest s' = true)
  /\ (path_exists E dest s = true ->
      choose E [T title; T ": "; T dest; T newline; T "Overwrite?"]
        ["Yes, overwrite"; "No, use existing"] <> Some "Yes, overwrite" ->
      disk s' = disk s).
Proof.
  unfold prepare_destination. unfold bind at 1. unfold os_path_exists.
  destruct (path_exists E dest s) eqn:Hp.
  - unfold bind at 1. unfold log at 1.
    destruct (choose E _ _) as [a|] eqn:Hc.
    + destruct (String.eqb a "Yes, overwrite") eqn:Ha.
      * intros H. apply bind_returns in H as ([] & s1 & _ & H).
        split; [exact (ensure_then_log _ _ _ _ _ H)|].
        intros _ Hno. apply String.eqb_eq in Ha. now subst a.
      * intros [= <-]. now split.
    + intros [= <-]. now split.
  - intros H. split; [exact (ensure_then_log _ _ _ _ _ H)|]. discriminate.
Qed.

(** X20.  The Fabric installer is started only from a Minecraft directory
    that holds one of the launcher's files: without any of them
    [install_stage] starts no child process, whatever loader the manifest
    names and however the stage ends. *)
Theorem no_launcher_no_bootstrap
    (mc : string) (manifest : value) (td : string) (s : state) :
  fst (launcher_present E mc s) = Ret false ->
  spawned (snd (install_stage E mc manifest td s)) = spawned s.
Proof.
  intros Hl. unfold install_stage. unfold bind at 1.
  destruct (manifest_versions manifest s) as [[[mcv lv]|e|c] s1] eqn:Hv;
    pose proof (framed_manifest_versions eq ltac:(reflexivity)
                  ltac:(intros; congruence) _ _ _ _ Hv) as <-;
    try reflexivity.
  unfold bind at 1.
  assert (Hp : (if truthy lv then launcher_present E mc else ret false) s
               = (Ret false, s)).
  { destruct (truthy lv); [|reflexivity].
    unfold launcher_present in *. cbv beta iota delta [fst] in Hl.
    now rewrite Hl. }
  rewrite Hp.
  match goal with
  | |- spawned (snd (?m s)) = _ =>
      assert (F : framed same_children m); [|exact (framed_snd _ _ s F)]
  end.
  apply framed_bind;
    [stays | destruct (negb (truthy lv)); apply framed_log; stays |].
  intros _. apply framed_bind; [stays | apply framed_log; stays |].
  intros _. apply framed_download_and_place; stays.
Qed.

End Destination.

Lemma prepare_destination_keeps_unless_told_witness :
  path_exists (scenario cdn no_fault (Exited 0)) "/home/u"
    (snd (prepare_destination (scenario cdn no_fault (Exited 0)) "/home/u"
            "Destination folder" (start home_disk))) = true
  /\ disk (snd (prepare_destination (scenario cdn no_fault (Exited 0))
                  "/home/u" "Destination folder" (start home_disk)))
     = disk (start home_disk).
Proof.
  destruct (prepare_destination_keeps_unless_told
              (scenario cdn no_fault (Exited 0)) "/home/u"
              "Destination folder" (start home_disk)
              (snd (prepare_destination (scenario cdn no_fault (Exited 0))
                      "/home/u" "Destination folder" (start home_disk))))
    as [He Hd].
  - vm_compute. reflexivity.
  - split; [apply He; discriminate|].
    apply Hd; [vm_compute; reflexivity | discriminate].
Defined.

(** [os.makedirs] takes a name that ends in [.] to be in place once it has
    tried the parent, also when the parent turned out to be a regular file:
    here [mods] is one, the call returns, and the destination is not
    there. *)
Example prepare_destination_dot :
  let E := scenario cdn no_fault (Exited 0) in
  let r := prepare_destination E "/mc/nodir/../mods/." "Destination folder"
             (start blocked_disk) in
  fst r = Ret tt
  /\ path_exists E "/mc/nodir/../mods/." (snd r) = false
  /\ path_isdir E "/mc/nodir" (snd r) = true.
Proof. cbv zeta. split; [|split]; vm_compute; reflexivity. Qed.

Lemma no_launcher_no_bootstrap_witness :
  spawned (snd (install_stage (scenario cdn no_fault (Exited 0)) "/home/u"
                  pack_manifest "/tmp/tmpab12" (start home_disk)))
  = spawned (start home_disk).
Proof.
  apply (no_launcher_no_bootstrap (scenario cdn no_fault (Exited 0))
           "/home/u" pack_manifest "/tmp/tmpab12" (start home_disk)).
  vm_compute. reflexivity.
Defined.
